(** * docker-map: configuration model, instance-set algebra, dependency
    edges, integrity check, state classification and keyword merging

  A shallow embedding of the parts of [dockermap.map] that the
  specification talks about, followed by the theorems that settle each
  statement of the specification against the code, and by further
  properties of the same functions and of their neighbours (names of
  containers and images, group expansion, the keyword arguments of the
  runner) that are read off the code itself.

  Conventions of the embedding.
  - A Python exception is a value of [exn]; a function that may raise
    returns a [result].  A generator function returns a [gen]: the items
    it yields before it stops, and the exception that stopped it, if any.
  - A [dict] of the configuration model, keyed by names, is a
    [gmap string _]; iterating over it uses [map_to_list].  The sources
    are written for Python 2 and 3 (through [six]), so no statement about
    the configuration model depends on the iteration order of a dict or
    of a set.  The dicts that [update_kwargs] changes in place live in a
    store and keep the order of insertion.
  - A Python [set] is a duplicate-free list ([pyset]).
  - Configuration objects are always truthy (they define no [__len__] or
    [__bool__] in the sources at hand), so [if not config] only tests for
    [None].
  - The interpreter's recursion limit is the [depth] argument of
    [get_extended]: a call made with no frame left raises
    [RecursionError]. *)

From Stdlib Require Import ZArith Ascii String OrderedTypeEx Sorted.
From stdpp Require Import base option list strings gmap pretty.

Open Scope string_scope.
Open Scope list_scope.

(** ** Python values shared by all modules *)

Module Py.

Inductive exn : Type :=
| KeyError (args : list string)
| ValueError (msg : string)
| TypeError (msg : string)
| AttributeError (msg : string)
| RuntimeError (msg : string)
| RecursionError
| MapIntegrityError (msg : string).

Inductive result (A : Type) : Type :=
| Ok (a : A)
| Raise (e : exn).
Arguments Ok {A} a.
Arguments Raise {A} e.

#[export] Instance result_ret : MRet result := fun A a => Ok a.
#[export] Instance result_bind : MBind result := fun A B f r =>
  match r with
  | Ok a => f a
  | Raise e => Raise e
  end.

(** Left-to-right loop with an accumulator, stopping at the first
    exception. *)
Fixpoint for_each {A S : Type} (body : S -> A -> result S) (s : S) (l : list A)
  : result S :=
  match l with
  | [] => Ok s
  | x :: r =>
      match body s x with
      | Ok s' => for_each body s' r
      | Raise e => Raise e
      end
  end.

(** What a generator does when it is run to its end. *)
Record gen (A : Type) : Type := Gen { yielded : list A; raised : option exn }.
Arguments Gen {A} yielded raised.
Arguments yielded {A} g.
Arguments raised {A} g.

(** [for x in l: yield from body x], where [body] may raise. *)
Fixpoint gen_for {A B : Type} (body : A -> result (list B)) (l : list A) : gen B :=
  match l with
  | [] => Gen [] None
  | x :: r =>
      match body x with
      | Ok ys => let g := gen_for body r in Gen (ys ++ yielded g) (raised g)
      | Raise e => Gen [] (Some e)
      end
  end.

(** [list(g)], [set(g)], [tuple(g)]: consume the generator. *)
Definition consume {A : Type} (g : gen A) : result (list A) :=
  match raised g with
  | None => Ok (yielded g)
  | Some e => Raise e
  end.

(** [set(l)]. *)
Definition pyset {A : Type} `{EqDecision A} (l : list A) : list A := remove_dups l.

(** [s.partition('.')]. *)
Fixpoint partition_dot (s : string) : string * string * string :=
  match s with
  | EmptyString => ("", "", "")
  | String c r =>
      if Ascii.eqb c "."%char then ("", ".", r)
      else let '(a, sep, b) := partition_dot r in (String c a, sep, b)
  end.

(** [x or None] on a string. *)
Definition or_None (s : string) : option string :=
  if bool_decide (s = "") then None else Some s.

(** ['{0}.{1}'.format(a, b)]. *)
Definition dotted (a b : string) : string := a +:+ "." +:+ b.

(** [sep.join(l)]. *)
Definition join (sep : string) (l : list string) : string := String.concat sep l.

(** [key(x) <= key(y)] on pairs of strings, as tuples compare. *)
Definition pair_leb (k1 k2 : string * string) : bool :=
  match String.compare k1.1 k2.1 with
  | Lt => true
  | Gt => false
  | Eq => String.leb k1.2 k2.2
  end.

(** [sorted(l, key=key)]: a stable sort. *)
Fixpoint insert_by {A : Type} (key : A -> string * string) (x : A) (l : list A)
  : list A :=
  match l with
  | [] => [x]
  | y :: r => if pair_leb (key x) (key y) then x :: y :: r
              else y :: insert_by key x r
  end.

Definition sorted {A : Type} (key : A -> string * string) (l : list A) : list A :=
  foldr (insert_by key) [] l.

(** [itertools.groupby(l, key)]: maximal runs of equal keys. *)
Fixpoint groupby {A : Type} (key : A -> string * string) (l : list A)
  : list (string * string * list A) :=
  match l with
  | [] => []
  | x :: r =>
      match groupby key r with
      | (k, g) :: gs =>
          if bool_decide (key x = k) then (k, x :: g) :: gs
          else (key x, [x]) :: (k, g) :: gs
      | [] => [(key x, [x])]
      end
  end.

End Py.

Import Py.

(** ** The configuration model ([dockermap.map.config]) *)

Module Config.

(** An entry of [uses]: [u.volume] is [unit], [unit.instance] or an
    attached alias. *)
Record SharedVolume : Type := { volume : string; readonly : bool }.

(** An entry of [binds]: [b.volume] is a host-volume alias or a tuple of
    paths. *)
Inductive bind_volume : Type :=
| BindAlias (alias : string)
| BindPaths (container_path host_path : string).

Record HostBind : Type := { bind_target : bind_volume; bind_readonly : bool }.

Record ContainerLink : Type := { container : string; alias : option string }.

(** The [network] attribute: unset, a mode string, or the tuple
    [(unit, instance)] of another unit whose namespace is shared. *)
Inductive network_mode : Type :=
| NetUnset
| NetMode (mode : string)
| NetContainer (unit_name : string) (instance : option string).

Record ContainerConfiguration : Type := {
  extends : list string;
  abstract : bool;
  instances : list string;
  shares : list string;
  binds : list HostBind;
  uses : list SharedVolume;
  attaches : list string;
  links : list ContainerLink;
  network : network_mode;
  persistent : bool;
  clients : list string
}.

Record NetworkConfiguration : Type := { driver : string; internal : bool }.

(** A member of a group: the name of a unit or of an instance
    ([unit.instance]), or a [MapConfigId] tuple of map name, unit name and
    instances, which [expand_groups] accepts as well. *)
Inductive group_member : Type :=
| MemberName (name : string)
| MemberId (id_map id_config : string) (id_instances : list (option string)).

Record ContainerMap : Type := {
  _name : string;
  _extended : bool;
  _containers : gmap string ContainerConfiguration;
  _networks : gmap string NetworkConfiguration;
  repository : option string;
  host : gmap string string;
  volumes : gmap string string;
  map_clients : list string;
  groups : gmap string (list group_member);
  default_domain : option string;
  set_hostname : bool;
  use_attached_parent_name : bool;
  default_tag : string
}.

#[export] Instance SharedVolume_eq_dec : EqDecision SharedVolume.
Proof. solve_decision. Defined.
#[export] Instance bind_volume_eq_dec : EqDecision bind_volume.
Proof. solve_decision. Defined.
#[export] Instance HostBind_eq_dec : EqDecision HostBind.
Proof. solve_decision. Defined.
#[export] Instance ContainerLink_eq_dec : EqDecision ContainerLink.
Proof. solve_decision. Defined.
#[export] Instance network_mode_eq_dec : EqDecision network_mode.
Proof. solve_decision. Defined.
#[global] Instance group_member_eq_dec : EqDecision group_member.
Proof. solve_decision. Defined.
#[export] Instance ContainerConfiguration_eq_dec : EqDecision ContainerConfiguration.
Proof. solve_decision. Defined.

(** Modelled from the spec: the constructor [ContainerConfiguration()]
    lives in [config/container.py], which is not among the sources; the
    "fresh accumulator" of the extension resolver has every list empty,
    every flag off and no network. *)
Definition new_config : ContainerConfiguration :=
  {| extends := []; abstract := false; instances := []; shares := [];
     binds := []; uses := []; attaches := []; links := [];
     network := NetUnset; persistent := false; clients := [] |}.

(** Modelled from the spec: [ConfigurationObject.merge_from_obj] lives in
    [config/__init__.py], which is not among the sources; the merge
    overrides scalar fields with those of the merged object and extends
    list fields. The theorems below take the merge as a parameter and use
    this definition for their concrete instances only. *)
Definition merge_from_obj_spec (self obj : ContainerConfiguration)
  : ContainerConfiguration :=
  {| extends := extends self ++ extends obj;
     abstract := abstract obj;
     instances := instances self ++ instances obj;
     shares := shares self ++ shares obj;
     binds := binds self ++ binds obj;
     uses := uses self ++ uses obj;
     attaches := attaches self ++ attaches obj;
     links := links self ++ links obj;
     network := network obj;
     persistent := persistent obj;
     clients := clients self ++ clients obj |}.

(** An entry of one of the list attributes of a configuration. *)
Inductive entry : Type :=
| EInstance (name : string)
| EShare (path : string)
| EBind (b : HostBind)
| EUse (u : SharedVolume)
| EAttach (alias : string)
| ELink (l : ContainerLink)
| EClient (name : string).

Definition has_entry (c : ContainerConfiguration) (e : entry) : Prop :=
  match e with
  | EInstance name => name ∈ instances c
  | EShare path => path ∈ shares c
  | EBind b => b ∈ binds c
  | EUse u => u ∈ uses c
  | EAttach alias => alias ∈ attaches c
  | ELink l => l ∈ links c
  | EClient name => name ∈ clients c
  end.

(** Modelled from the spec: [merge_from_obj] is not among the sources; a
    merge "extends list fields", so every entry of a list attribute of
    the receiver or of the merged object is an entry of the result. *)
Definition extends_lists
  (merge : ContainerConfiguration -> ContainerConfiguration -> ContainerConfiguration)
  : Prop :=
  forall self obj e, has_entry self e \/ has_entry obj e -> has_entry (merge self obj) e.

(** [ContainerMap.get_existing]. *)
Definition get_existing (self : ContainerMap) (item : string)
  : option ContainerConfiguration :=
  _containers self !! item.

(** [ContainerMap.__iter__]: the non-abstract configurations. *)
Definition iter_map (self : ContainerMap) : list (string * ContainerConfiguration) :=
filter (fun kv => abstract kv.2 = false) (map_to_list (_containers self)).

(** One step of the [extends] relation between the units of a map, and
    the units that lie on a cycle of it. *)
Definition extends_step (self : ContainerMap) (c c' : ContainerConfiguration) : Prop :=
  exists ext_name, ext_name ∈ extends c /\ _containers self !! ext_name = Some c'.

Definition on_cycle (self : ContainerMap) (c : ContainerConfiguration) : Prop :=
  tc (extends_step self) c c.

(** Every name listed in the [extends] of a unit of the map is a unit of
    the map. *)
Definition parents_exist (self : ContainerMap) : Prop :=
  forall c_name c, _containers self !! c_name = Some c ->
    forall ext_name, ext_name ∈ extends c -> is_Some (_containers self !! ext_name).

Section Extension.

Variable merge_from_obj :
  ContainerConfiguration -> ContainerConfiguration -> ContainerConfiguration.

(** [ContainerMap.get_extended]. *)
Fixpoint get_extended (depth : nat) (self : ContainerMap)
  (config : ContainerConfiguration) : result ContainerConfiguration :=
  match depth with
  | O => Raise RecursionError
  | S d =>
      if bool_decide (extends config = []) || _extended self then Ok config
      else
        extended_config ←
          for_each
            (fun acc ext_name =>
               match _containers self !! ext_name with
               | None => Raise (KeyError [ext_name])
               | Some ext_cfg_base =>
                   ext_cfg ← get_extended d self ext_cfg_base;
                   Ok (merge_from_obj acc ext_cfg)
               end)
            new_config (extends config);
        Ok (merge_from_obj extended_config config)
  end.

(** The loop of [get_extended_map] that fills [map_copy._containers]. *)
Definition extend_all (depth : nat) (self : ContainerMap)
  : result (gmap string ContainerConfiguration) :=
  for_each
    (fun acc kv =>
       ext ← get_extended depth self kv.2;
       Ok (<[kv.1 := ext]> acc))
    ∅ (iter_map self).

(** [ContainerMap.get_extended_map].

    Modelled from the spec: [update_from_obj(self, copy=True,
    update_containers=False)] ends in [ConfigurationObject.update_from_obj],
    which is not among the sources; the new map is a copy of every
    map-level attribute of the old one. *)
Definition get_extended_map (depth : nat) (self : ContainerMap)
  : result ContainerMap :=
  cs ← extend_all depth self;
  Ok {| _name := _name self;
        _extended := true;
        _containers := cs;
        _networks := _networks self;
        repository := repository self;
        host := host self;
        volumes := volumes self;
        map_clients := map_clients self;
        groups := groups self;
        default_domain := default_domain self;
        set_hostname := set_hostname self;
        use_attached_parent_name := use_attached_parent_name self;
        default_tag := default_tag self |}.

(** Modelled from the spec: the "self-contained form" of a unit, as the
    contract of the extension resolver gives it, without a recursion
    limit. A unit without parents, and any unit of a map that is already
    extended, is its own form. Otherwise the forms [rs] of the parents,
    taken in the order of [extends], are merged one after the other into
    a new configuration and the unit itself is merged last. *)
#[warnings="-register-all"] Inductive self_contained (self : ContainerMap)
  : ContainerConfiguration -> ContainerConfiguration -> Prop :=
| form_own (config : ContainerConfiguration) :
    extends config = [] \/ _extended self = true ->
    self_contained self config config
| form_merged (config : ContainerConfiguration) (rs : list ContainerConfiguration) :
    extends config <> [] -> _extended self = false ->
    Forall2 (fun ext_name r =>
               exists base, _containers self !! ext_name = Some base
                            /\ self_contained self base r)
      (extends config) rs ->
    self_contained self config
      (merge_from_obj (foldl merge_from_obj new_config rs) config).

End Extension.

End Config.

(** ** Addresses and the instance-set algebra ([config/main.py]) *)

Module Input.

(** [MapConfigId], as [config/main.py] builds and reads it: a tuple of
    map name, configuration name and instances. The third component is a
    single instance name (or [None]) in the tuples that
    [single_instances=True] expects, and a tuple of them otherwise. *)
Record MapConfigId (I : Type) : Type :=
  { map_name : string; config_name : string; instances : I }.
Arguments Build_MapConfigId {I} map_name config_name instances.
Arguments map_name {I} m.
Arguments config_name {I} m.
Arguments instances {I} m.

#[export] Instance MapConfigId_eq_dec {I} `{EqDecision I} : EqDecision (MapConfigId I).
Proof. solve_decision. Defined.

(** [get_map_config = itemgetter(0, 1)]. *)
Definition get_map_config {I : Type} (di : MapConfigId I) : string * string :=
  (map_name di, config_name di).

End Input.

Module Instances.
Import Input.

Abbreviation instance := (option string).

(** The type of [di[2]] for either value of [single_instances]. An empty
    list stands for every falsy third component ([()] or [None]). *)
Definition item_ty (single_instances : bool) : Type :=
  if single_instances then instance else list instance.

(** [_get_single_instances]. *)
Definition _get_single_instances (group_items : list (MapConfigId instance))
  : list instance :=
  map instances group_items.

(** The filter of the generator expression in [_get_nested_instances]:
    [if ni not in instance_set or instance_add(ni)]. When [ni] is not in
    the set the disjunction is already true and [instance_add] is not
    evaluated; when it is in the set, [instance_add(ni)] runs and returns
    [None]. *)
Fixpoint nested_filter (instance_set : list instance) (l : list instance)
  : list instance :=
  match l with
  | [] => []
  | ni :: r =>
      if bool_decide (ni ∉ instance_set) then ni :: nested_filter instance_set r
      else nested_filter (ni :: instance_set) r
  end.

(** [di[2] or (None, )]. *)
Definition or_wildcard (t : list instance) : list instance :=
  match t with
  | [] => [None]
  | _ => t
  end.

(** [_get_nested_instances]. *)
Definition _get_nested_instances (group_items : list (MapConfigId (list instance)))
  : list instance :=
  nested_filter [] (flat_map (fun di => or_wildcard (instances di)) group_items).

Definition _get_instances (single_instances : bool)
  : list (MapConfigId (item_ty single_instances)) -> list instance :=
  match single_instances with
  | true => _get_single_instances
  | false => _get_nested_instances
  end.

(** Modelled from the spec: the "instance set" that a batch of tuples
    requests of a unit, as the list of the requested instances with their
    repetitions: the instance of every tuple, or the instances of every
    nested tuple, an empty nested tuple standing for the wildcard. The
    set itself is [pyset] of this list. *)
Definition requested (single_instances : bool)
  : list (MapConfigId (item_ty single_instances)) -> list instance :=
  match single_instances with
  | true => fun items => map instances items
  | false =>
      fun items =>
        flat_map (fun di => match instances di with
                            | [] => [None]
                            | i :: t => i :: t
                            end) items
  end.

(** [c_map = ext_map or ext_maps[map_name]]. An absent [ext_maps] and an
    empty one are both falsy, and both are the empty map here. *)
Definition lookup_map (ext_map : option Config.ContainerMap)
  (ext_maps : gmap string Config.ContainerMap) (map_name : string)
  : result Config.ContainerMap :=
  match ext_map with
  | Some m => Ok m
  | None =>
      match ext_maps !! map_name with
      | Some m => Ok m
      | None => Raise (KeyError [map_name])
      end
  end.

Definition no_map_given (ext_map : option Config.ContainerMap)
  (ext_maps : gmap string Config.ContainerMap) : bool :=
  negb (bool_decide (is_Some ext_map) || bool_decide (ext_maps ≠ ∅)).

Definition no_map_error : exn :=
  ValueError "Either a single ContainerMap or a dictionary of them must be provided.".

(** The wildcard test of [group_instances]. *)
Definition covers_all (config : Config.ContainerConfiguration)
  (instances : list instance) : bool :=
  bool_decide (Config.instances config ≠ [])
  && (bool_decide (None ∈ instances)
      || bool_decide (length instances = length (Config.instances config))).

(** [group_instances]. *)
Definition group_instances {single_instances : bool}
  (config_ids : list (MapConfigId (item_ty single_instances)))
  (ext_map : option Config.ContainerMap)
  (ext_maps : gmap string Config.ContainerMap)
  : gen (MapConfigId (list instance)) :=
  if no_map_given ext_map ext_maps then Gen [] (Some no_map_error)
  else
    gen_for
      (fun '(map_config, items) =>
         let '(map_name, config_name) := map_config in
         let instances := _get_instances single_instances items in
         c_map ← lookup_map ext_map ext_maps map_name;
         match Config.get_existing c_map config_name with
         | None => Raise (KeyError [map_name; config_name])
         | Some config =>
             if covers_all config instances
             then Ok [Build_MapConfigId map_name config_name [None]]
             else Ok [Build_MapConfigId map_name config_name instances]
         end)
      (groupby get_map_config (sorted get_map_config config_ids)).

(** [expand_instances]. *)
Definition expand_instances {single_instances : bool}
  (config_ids : list (MapConfigId (item_ty single_instances)))
  (ext_map : option Config.ContainerMap)
  (ext_maps : gmap string Config.ContainerMap)
  : gen (MapConfigId instance) :=
  if no_map_given ext_map ext_maps then Gen [] (Some no_map_error)
  else
    gen_for
      (fun '(map_config, items) =>
         let '(map_name, config_name) := map_config in
         let instances := _get_instances single_instances items in
         c_map ← lookup_map ext_map ext_maps map_name;
         match Config.get_existing c_map config_name with
         | None => Raise (KeyError [map_name; config_name])
         | Some config =>
             if bool_decide (Config.instances config ≠ [])
                && bool_decide (None ∈ instances)
             then Ok (map (fun i => Build_MapConfigId map_name config_name (Some i))
                        (Config.instances config))
             else Ok (map (fun i => Build_MapConfigId map_name config_name i)
                        instances)
         end)
      (groupby get_map_config (sorted get_map_config config_ids)).

(** Grouping a batch of [(map, unit, instance)] tuples and expanding the
    grouped addresses again: [expand_instances(group_instances(ids, ...),
    single_instances=False, ...)]. *)
Definition group_then_expand (config_ids : list (MapConfigId instance))
  (ext_map : option Config.ContainerMap) (ext_maps : gmap string Config.ContainerMap)
  : result (list (MapConfigId instance)) :=
  ids ← consume (group_instances (single_instances := true) config_ids ext_map ext_maps);
  consume (expand_instances (single_instances := false) ids ext_map ext_maps).

End Instances.

(** ** Dependency edges ([ContainerMap.dependency_items]) *)

Module Dependency.
Import Input Instances.

Section Items.

Variable merge_from_obj :
  Config.ContainerConfiguration -> Config.ContainerConfiguration
  -> Config.ContainerConfiguration.
Variable depth : nat.

(** The dict comprehension [{attaches: c_name for c_name, c_config in
    ext_map for attaches in c_config.attaches}]; a later owner of the same
    alias replaces an earlier one. *)
Definition attached_table (ext_map : Config.ContainerMap) : gmap string string :=
  foldl (fun acc kv => foldl (fun acc' a => <[a := kv.1]> acc') acc (Config.attaches kv.2))
        ∅ (Config.iter_map ext_map).

(** [_get_used_item_np]. *)
Definition _get_used_item_np (self : Config.ContainerMap) (attached : gmap string string)
  (u : Config.SharedVolume) : MapConfigId instance :=
  let '(c, _, i) := partition_dot (Config.volume u) in
  match attached !! c with
  | Some a =>
      if bool_decide (a = "") then Build_MapConfigId (Config._name self) c (or_None i)
      else Build_MapConfigId (Config._name self) a None
  | None => Build_MapConfigId (Config._name self) c (or_None i)
  end.

(** [_get_used_item_ap]; [a.attaches] on a unit that does not exist raises
    [AttributeError]. *)
Definition _get_used_item_ap (self ext_map : Config.ContainerMap)
  (u : Config.SharedVolume) : result (MapConfigId instance) :=
  let '(c, _, i) := partition_dot (Config.volume u) in
  match Config.get_existing ext_map c with
  | None => Raise (AttributeError "'NoneType' object has no attribute 'attaches'")
  | Some a =>
      if bool_decide (i ∈ Config.attaches a)
      then Ok (Build_MapConfigId (Config._name self) c None)
      else Ok (Build_MapConfigId (Config._name self) c (or_None i))
  end.

(** [_get_linked_item]. *)
Definition _get_linked_item (self : Config.ContainerMap) (l : Config.ContainerLink)
  : MapConfigId instance :=
  let '(c, _, i) := partition_dot (Config.container l) in
  if bool_decide (i = "") then Build_MapConfigId (Config._name self) c None
  else Build_MapConfigId (Config._name self) c (Some i).

(** [used_func], chosen by [use_attached_parent_name]. *)
Definition used_func (self ext_map : Config.ContainerMap) (u : Config.SharedVolume)
  : result (MapConfigId instance) :=
  if Config.use_attached_parent_name self then _get_used_item_ap self ext_map u
  else Ok (_get_used_item_np self (attached_table ext_map) u).

(** [set(map(used_func, config.uses))], stopping at the first exception. *)
Fixpoint map_used (self ext_map : Config.ContainerMap) (us : list Config.SharedVolume)
  : result (list (MapConfigId instance)) :=
  match us with
  | [] => Ok []
  | u :: r =>
      x ← used_func self ext_map u;
      xs ← map_used self ext_map r;
      Ok (x :: xs)
  end.

(** [_get_dep_set]. *)
Definition _get_dep_set (self ext_map : Config.ContainerMap)
  (config : Config.ContainerConfiguration) : result (list (MapConfigId instance)) :=
  used ← map_used self ext_map (Config.uses config);
  let used_set := pyset used in
  let linked_set := pyset (map (_get_linked_item self) (Config.links config)) in
  let d_set := pyset (used_set ++ linked_set) in
  match Config.network config with
  | Config.NetContainer c i =>
      Ok (pyset (d_set ++ [Build_MapConfigId (Config._name self) c i]))
  | _ => Ok d_set
  end.

(** The [except KeyError as e] clause of the forward branch: [e.args[0]]
    is the pair that [group_instances] raised. *)
Definition dependency_not_found (self : Config.ContainerMap) (c_name : string)
  (e : exn) : exn :=
  match e with
  | KeyError [m; c] =>
      KeyError ["Dependency " +:+ m +:+ "." +:+ c +:+ " for " +:+ Config._name self
                +:+ "." +:+ c_name +:+ " not found."]
  | _ => e
  end.

(** What [dependency_items] yields: in forward mode the pair
    [(map, unit)] with the grouped addresses of its dependencies, in
    reverse mode the address [(map, unit, (None,))] with a set of
    [(map, unit)] pairs. *)
Definition dep_item (reverse : bool) : Type :=
  if reverse
  then (MapConfigId (list instance) * list (string * string))%type
  else ((string * string) * list (MapConfigId (list instance)))%type.

Definition forward_item (self ext_map : Config.ContainerMap)
  (kv : string * Config.ContainerConfiguration) : result (list (dep_item false)) :=
  dep_set ← _get_dep_set self ext_map kv.2;
  match consume (group_instances (single_instances := true) dep_set (Some ext_map) ∅) with
  | Ok ids => Ok [((Config._name self, kv.1), pyset ids)]
  | Raise e => Raise (dependency_not_found self kv.1 e)
  end.

Definition reverse_item (self ext_map : Config.ContainerMap)
  (kv : string * Config.ContainerConfiguration) : result (list (dep_item true)) :=
  dep_set ← _get_dep_set self ext_map kv.2;
  Ok [(Build_MapConfigId (Config._name self) kv.1 [None],
       pyset (map get_map_config dep_set))].

(** [ContainerMap.dependency_items]. *)
Definition dependency_items (self : Config.ContainerMap) (reverse : bool)
  : gen (dep_item reverse) :=
  match (if Config._extended self then Ok self
         else Config.get_extended_map merge_from_obj depth self) with
  | Raise e => Gen [] (Some e)
  | Ok ext_map =>
      match reverse with
      | true => gen_for (reverse_item self ext_map) (Config.iter_map ext_map)
      | false => gen_for (forward_item self ext_map) (Config.iter_map ext_map)
      end
  end.

End Items.

End Dependency.

(** ** The integrity check ([ContainerMap.check_integrity]) *)

Module Integrity.

(** The eight lists [_get_container_items] returns for one unit. When
    [use_attached_parent_name] is set the entries of [attaches] are the
    pairs [(c_name, a)]; otherwise the first component is unused. *)
Record container_items : Type := {
  instance_names : list string;
  group_ref_names : list string;
  item_uses : list string;
  item_attaches : list (string * string);
  shared : list string;
  bind : list string;
  link : list string;
  item_network : option string
}.

(** [_get_instance_names]. *)
Definition _get_instance_names (c_name : string) (instances : list string)
  : list string :=
  match instances with
  | [] => [c_name]
  | _ => map (dotted c_name) instances
  end.

Definition bind_aliases (bs : list Config.HostBind) : list string :=
  omap (fun b => match Config.bind_target b with
                 | Config.BindAlias a => Some a
                 | Config.BindPaths _ _ => None
                 end) bs.

(** [_get_container_items]. *)
Definition _get_container_items (self : Config.ContainerMap) (c_name : string)
  (c_config : Config.ContainerConfiguration) : container_items :=
  let names := _get_instance_names c_name (Config.instances c_config) in
  {| instance_names := names;
     group_ref_names :=
       if bool_decide (Config.instances c_config ≠ []) then names ++ [c_name]
       else names;
     item_uses := map Config.volume (Config.uses c_config);
     item_attaches := map (fun a => (c_name, a)) (Config.attaches c_config);
     shared :=
       if bool_decide (Config.shares c_config ≠ [])
          || bool_decide (Config.binds c_config ≠ [])
          || bool_decide (Config.uses c_config ≠ [])
       then names else [];
     bind := bind_aliases (Config.binds c_config);
     link := map Config.container (Config.links c_config);
     item_network :=
       match Config.network c_config with
       | Config.NetContainer c (Some i) =>
           if bool_decide (i = "") then Some c else Some (dotted c i)
       | Config.NetContainer c None => Some c
       | _ => None
       end |}.

(** [all_attached_names]. *)
Definition attached_names (self : Config.ContainerMap) (all_attached : list (string * string))
  : list string :=
  if Config.use_attached_parent_name self
  then map (fun ca => dotted ca.1 ca.2) all_attached
  else map snd all_attached.

(** [set_a - set_b] and [set_a & set_b]. *)
Definition set_diff (a b : list string) : list string :=
  filter (fun x => x ∉ b) a.
Definition set_inter (a b : list string) : list string :=
  filter (fun x => x ∈ b) a.

(** [[name for name, count in Counter(l).items() if count > 1]]. *)
Definition count_of (x : string) (l : list string) : nat :=
  length (filter (fun y => y = x) l).
Definition duplicated_names (l : list string) : list string :=
  filter (fun x => 1 < count_of x l) (pyset l).

(** [raise MapIntegrityError(fmt.format(', '.join(names)))] when [names]
    is not empty. *)
Definition raise_if (names : list string) (prefix suffix : string) : result unit :=
  match names with
  | [] => Ok tt
  | _ => Raise (MapIntegrityError (prefix +:+ join ", " names +:+ suffix))
  end.

Definition ambiguous_msg : string :=
  "Names are used both for container configurations (or instances) and for container groups: ".
Definition missing_ref_msg : string :=
  "Container configurations or certain instances are referenced by groups, but are not defined: ".
Definition duplicate_msg : string :=
  "Duplicated attached volumes found with name(s): ".
Definition missing_share_msg : string :=
  "No shared or attached volumes found for used volume(s): ".
Definition missing_bind_msg : string :=
  "No host share found for mapped volume(s): ".
Definition missing_name_msg : string :=
  "No volume name-path-assignments found for volume(s): ".
Definition missing_link_msg : string :=
  "No container instance found for link(s): ".
Definition missing_network_msg : string :=
  "No container instance found for the following network reference(s): ".

Definition map_keys {V : Type} (m : gmap string V) : list string :=
  (map_to_list m).*1.

(** The name sets of the first four rules, given the items of every unit
    of the extended map. *)
Definition ref_set (items : list container_items) : list string :=
  pyset (flat_map group_ref_names items).

Definition ambiguous_names (self : Config.ContainerMap) (items : list container_items)
  : list string :=
  set_inter (pyset (map_keys (Config.groups self))) (ref_set items).

(** [group_referenced - ref_set]: a member that is a tuple is equal to no
    name. *)
Definition is_missing_ref (items : list container_items) (m : Config.group_member)
  : bool :=
  match m with
  | Config.MemberName name => bool_decide (name ∉ ref_set items)
  | Config.MemberId _ _ _ => true
  end.

Definition missing_refs (self : Config.ContainerMap) (items : list container_items)
  : list Config.group_member :=
  filter (fun m => is_missing_ref items m = true)
    (pyset (concat (map_to_list (Config.groups self)).*2)).

Definition is_tuple (m : Config.group_member) : bool :=
  match m with
  | Config.MemberName _ => false
  | Config.MemberId _ _ _ => true
  end.

Definition member_names (l : list Config.group_member) : list string :=
  omap (fun m => match m with
                 | Config.MemberName name => Some name
                 | Config.MemberId _ _ _ => None
                 end) l.

(** The position of the first item that is not a string. *)
Fixpoint first_tuple (l : list Config.group_member) : option nat :=
  match l with
  | [] => None
  | m :: r => if is_tuple m then Some 0 else S <$> first_tuple r
  end.

(** [raise MapIntegrityError(fmt.format(', '.join(missing_refs)))] when
    [missing_refs] is not empty: [join] raises [TypeError] at the first
    item that is not a string. The items come out of a set, so which item
    that is, and with it the number in the message, is not determined by
    the map. *)
Definition raise_if_members (l : list Config.group_member) (prefix suffix : string)
  : result unit :=
  match l with
  | [] => Ok tt
  | _ =>
      match first_tuple l with
      | Some i =>
          Raise (TypeError ("sequence item " +:+ pretty i
                            +:+ ": expected str instance, MapConfigId found"))
      | None =>
          Raise (MapIntegrityError
                   (prefix +:+ join ", " (member_names l) +:+ suffix))
      end
  end.

Definition volume_shared (self : Config.ContainerMap) (items : list container_items)
  : list string :=
  flat_map shared items ++ attached_names self (flat_map item_attaches items).

Definition missing_shares (self : Config.ContainerMap) (items : list container_items)
  : list string :=
  set_diff (pyset (flat_map item_uses items)) (pyset (volume_shared self items)).

(** The rules after the fourth: host binds, volume paths, links and
    network references. *)
Definition check_remaining (self : Config.ContainerMap) (items : list container_items)
  : result unit :=
  let all_attached := flat_map item_attaches items in
  let binds_set := pyset (flat_map bind items) in
  let host_set := pyset (map_keys (Config.host self)) in
  let missing_binds := set_diff binds_set host_set in
  _ ← raise_if missing_binds missing_bind_msg ".";
  let volume_set :=
    if Config.use_attached_parent_name self
    then pyset (binds_set ++ map snd all_attached)
    else pyset (binds_set ++ attached_names self all_attached) in
  let named_set := pyset (map_keys (Config.volumes self)) in
  let missing_names := set_diff volume_set named_set in
  _ ← raise_if missing_names missing_name_msg ".";
  let instance_set := pyset (flat_map instance_names items) in
  let linked_set := pyset (flat_map link items) in
  let missing_links := set_diff linked_set instance_set in
  _ ← raise_if missing_links missing_link_msg ".";
  let network_set := pyset (filter (fun n => n ≠ "") (omap item_network items)) in
  let missing_networks := set_diff network_set instance_set in
  raise_if missing_networks missing_network_msg "".

(** The part of [check_integrity] after the tuple assignment, given the
    items of every unit of the extended map. *)
Definition check_items (self : Config.ContainerMap) (check_duplicates : bool)
  (items : list container_items) : result unit :=
  _ ← raise_if (ambiguous_names self items) ambiguous_msg ".";
  _ ← raise_if_members (missing_refs self items) missing_ref_msg ".";
  _ ← (if check_duplicates
       then raise_if (duplicated_names (volume_shared self items)) duplicate_msg "."
       else Ok tt);
  _ ← raise_if (missing_shares self items) missing_share_msg ".";
  check_remaining self items.

(** The items of every unit of the extended map, as the list
    comprehension of [check_integrity] collects them. *)
Definition all_items (self ext_map : Config.ContainerMap) : list container_items :=
  map (fun kv => _get_container_items self kv.1 kv.2) (Config.iter_map ext_map).

(** Modelled from the spec: a unit "shares a volume" when it has
    [shares], [binds] or [uses]. *)
Definition volume_sharing (c : Config.ContainerConfiguration) : Prop :=
  Config.shares c ≠ [] \/ Config.binds c ≠ [] \/ Config.uses c ≠ [].

(** Modelled from the spec: "every [uses] target must resolve to a unit
    that either shares a volume or is an attachment owner". A target is
    [unit], [unit.instance] or an attached alias: it resolves when a unit
    of the extended map that shares a volume has the name of the target,
    as the unit itself if it declares no instances and as one of its
    instances otherwise, or when a unit attaches the target as an alias
    (as [unit.alias] on a map that names attached volumes after their
    parent). *)
Definition uses_resolved (self ext_map : Config.ContainerMap) (target : string)
  : Prop :=
  exists c_name c,
    Config._containers ext_map !! c_name = Some c /\ Config.abstract c = false
    /\ ((volume_sharing c
         /\ ((Config.instances c = [] /\ target = c_name)
             \/ exists i, i ∈ Config.instances c /\ target = c_name +:+ "." +:+ i))
        \/ exists a, a ∈ Config.attaches c
                     /\ target = if Config.use_attached_parent_name self
                                 then c_name +:+ "." +:+ a else a).

(** [needle in msg]. *)
Fixpoint mentions (msg needle : string) : bool :=
  String.prefix needle msg
  || match msg with
     | EmptyString => false
     | String _ rest => mentions rest needle
     end.

Section Check.

Variable merge_from_obj :
  Config.ContainerConfiguration -> Config.ContainerConfiguration
  -> Config.ContainerConfiguration.
Variable depth : nat.

(** [ContainerMap.check_integrity]. Unpacking the zipped items into eight
    names raises [ValueError] when the extended map has no unit to
    iterate. *)
Definition check_integrity (self : Config.ContainerMap) (check_duplicates : bool)
  : result unit :=
  ext_map ← Config.get_extended_map merge_from_obj depth self;
  match Config.iter_map ext_map with
  | [] => Raise (ValueError "not enough values to unpack (expected 8, got 0)")
  | kvs =>
      check_items self check_duplicates
        (map (fun kv => _get_container_items self kv.1 kv.2) kvs)
  end.

End Check.

End Integrity.

(** ** State classification and client selection
       ([state/base.py], [policy/base.py]) *)

Module State.

Inductive item_type : Type :=
| ITEM_TYPE_CONTAINER
| ITEM_TYPE_VOLUME
| ITEM_TYPE_NETWORK
| ITEM_TYPE_other (name : string).

Inductive base_state : Type := STATE_ABSENT | STATE_PRESENT | STATE_RUNNING.

#[export] Instance item_type_eq_dec : EqDecision item_type.
Proof. solve_decision. Defined.
#[export] Instance base_state_eq_dec : EqDecision base_state.
Proof. solve_decision. Defined.

(** The constants that [state/base.py] imports from [state/__init__.py]
    and [policy/__init__.py], which are not among the sources. *)
Class Constants : Type := {
  INITIAL_START_TIME : string;
  STATE_FLAG_INITIAL : Z;
  STATE_FLAG_RESTARTING : Z;
  STATE_FLAG_NONRECOVERABLE : Z;
  STATE_FLAG_OUTDATED : Z;
  CONFIG_FLAG_DEPENDENT : Z;
  CONTAINER_CONFIG_FLAG_ATTACHED : Z;
  CONTAINER_CONFIG_FLAG_PERSISTENT : Z
}.

(** Modelled from the spec: the values of the constants of
    [state/__init__.py] and [policy/__init__.py] are not among the sources;
    the state flags form an "independent flag bitset" and the start time of
    a container that never ran is a "well-known sentinel timestamp". *)
Definition spec_constants : Constants := {|
  INITIAL_START_TIME := "0001-01-01T00:00:00Z";
  STATE_FLAG_INITIAL := 1;
  STATE_FLAG_RESTARTING := Z.shiftl 1 1;
  STATE_FLAG_NONRECOVERABLE := Z.shiftl 1 10;
  STATE_FLAG_OUTDATED := Z.shiftl 1 11;
  CONFIG_FLAG_DEPENDENT := 1;
  CONTAINER_CONFIG_FLAG_ATTACHED := Z.shiftl 1 1;
  CONTAINER_CONFIG_FLAG_PERSISTENT := Z.shiftl 1 2
|}.

(** [flags & f == f]. *)
Definition has_flag (flags f : Z) : bool := Z.eqb (Z.land flags f) f.

(** The four state flags are four different bits. *)
Definition independent_flags (K : Constants) : Prop :=
  exists i r n o : Z,
    (0 <= i /\ 0 <= r /\ 0 <= n /\ 0 <= o)%Z
    /\ NoDup [i; r; n; o]
    /\ STATE_FLAG_INITIAL = (2 ^ i)%Z
    /\ STATE_FLAG_RESTARTING = (2 ^ r)%Z
    /\ STATE_FLAG_NONRECOVERABLE = (2 ^ n)%Z
    /\ STATE_FLAG_OUTDATED = (2 ^ o)%Z.

(** [c_detail['State']] of an inspected container. *)
Record container_status : Type := {
  Running : bool;
  StartedAt : string;
  ExitCode : Z;
  Restarting : bool
}.

Inductive detail : Type :=
| NOT_FOUND
| Detail (State : container_status).

Definition address : Type := item_type * string * string * option string.

(** The options a state generator hands to its state objects; an unset
    [force_update] ([None]) and an empty one are both falsy and both the
    empty list here. *)
Record options : Type := {
  nonrecoverable_exit_codes : list Z;
  force_update : list address
}.

(** Default options of [AbstractStateGenerator]. *)
Definition default_options : options :=
  {| nonrecoverable_exit_codes := [-127; -1]%Z; force_update := [] |}.

(** The attributes of a [ContainerBaseState] that [get_state] reads. *)
Record ContainerBaseState : Type := {
  state_options : options;
  map_name : string;
  config_name : string;
  instance_name : option string;
  config_flags : Z;
  state_detail : detail
}.

Section GetState.
Context {K : Constants}.

(** [ContainerBaseState.get_state]; the third component of the result is
    always the empty dict and is left out. *)
Definition get_state (self : ContainerBaseState) : base_state * Z :=
  match state_detail self with
  | NOT_FOUND => (STATE_ABSENT, 0%Z)
  | Detail c_status =>
      let '(base, state_flag) :=
        if Running c_status then (STATE_RUNNING, 0%Z)
        else
          let state_flag :=
            if bool_decide (StartedAt c_status = INITIAL_START_TIME)
            then STATE_FLAG_INITIAL
            else if bool_decide
                      (ExitCode c_status ∈ nonrecoverable_exit_codes (state_options self))
            then STATE_FLAG_NONRECOVERABLE
            else 0%Z in
          (STATE_PRESENT,
           if Restarting c_status then Z.lor state_flag STATE_FLAG_RESTARTING
           else state_flag) in
      let force_update := force_update (state_options self) in
      if bool_decide (force_update ≠ [])
         && bool_decide ((ITEM_TYPE_CONTAINER, map_name self, config_name self,
                          instance_name self) ∈ force_update)
      then (base, Z.lor state_flag STATE_FLAG_OUTDATED)
      else (base, state_flag)
  end.

(** The test [get_state] makes against [force_update]: the address of
    the container is one of its entries. *)
Definition forced (self : ContainerBaseState) : Prop :=
  (ITEM_TYPE_CONTAINER, map_name self, config_name self, instance_name self)
  ∈ force_update (state_options self).

End GetState.

(** *** Clients *)

Record ClientConfiguration : Type := { get_client : nat }.

(** An element of the tuples [get_clients] returns. *)
Inductive client_val : Type :=
| ClientName (name : string)
| ClientHandle (client : nat)
| ClientConfig (client_config : ClientConfiguration).

(** Anything with a [clients] attribute: [get_clients] reads nothing else
    of its two arguments. *)
Class HasClients (A : Type) : Type := clients_of : A -> list string.
#[export] Instance config_has_clients : HasClients Config.ContainerConfiguration :=
  Config.clients.
#[export] Instance map_has_clients : HasClients Config.ContainerMap :=
  Config.map_clients.

(** What the state code reads of a [BasePolicy], and the runtime behind
    it: the names of the containers that exist on each client and what
    inspecting one of them returns. *)
Record BasePolicy : Type := {
  container_maps : gmap string Config.ContainerMap;
  _clients : gmap string ClientConfiguration;
  container_names : string -> list string;
  inspect_container : nat -> string -> container_status
}.

(** [BasePolicy.get_default_client_name]. *)
Definition get_default_client_name : string := "__default__".

(** [BasePolicy.cname] and [BasePolicy.aname]. *)
Definition cname (map_name container : string) (instance : option string) : string :=
  match instance with
  | Some i => if bool_decide (i = "") then dotted map_name container
              else dotted map_name (dotted container i)
  | None => dotted map_name container
  end.
Definition aname (map_name attached_name : string) (parent_name : option string)
  : string :=
  match parent_name with
  | Some p => if bool_decide (p = "") then dotted map_name attached_name
              else dotted map_name (dotted p attached_name)
  | None => dotted map_name attached_name
  end.

(** [str(x)] where [x] is a string or [None], as [format] renders it. *)
Definition str_of (x : option string) : string := default "None" x.

(** [_get_client] inside [get_clients]. *)
Definition _get_client (self : BasePolicy) (client_name : string)
  : result (list client_val) :=
  match _clients self !! client_name with
  | None => Raise (KeyError [client_name])
  | Some client_config =>
      Ok [ClientName client_name; ClientHandle (get_client client_config);
          ClientConfig client_config]
  end.

Fixpoint map_result {A B : Type} (f : A -> result B) (l : list A) : result (list B) :=
  match l with
  | [] => Ok []
  | x :: r => y ← f x; ys ← map_result f r; Ok (y :: ys)
  end.

(** [BasePolicy.get_clients(self, c_config, c_map)]. *)
Definition get_clients {A B : Type} `{HasClients A} `{HasClients B}
  (self : BasePolicy) (c_config : A) (c_map : B) : result (list (list client_val)) :=
  if bool_decide (clients_of c_config ≠ [])
  then map_result (_get_client self) (clients_of c_config)
  else if bool_decide (clients_of c_map ≠ [])
  then map_result (_get_client self) (clients_of c_map)
  else t ← _get_client self get_default_client_name; Ok [t].

(** [ConfigState]; [extra_data] is always the empty dict and is left
    out. *)
Record ConfigState : Type := {
  client_name : string;
  config_id : address;
  config_flags_of : Z;
  base_state_of : base_state;
  state_flags : Z
}.

Section Generator.
Context {K : Constants}.

(** [ContainerBaseState.inspect]. *)
Definition inspect (policy : BasePolicy) (c_map : Config.ContainerMap)
  (client_name : string) (client : nat) (map_name config_name : string)
  (instance_name : option string) (config_flags : Z) : detail :=
  let container_name :=
    if bool_decide (Z.land config_flags CONTAINER_CONFIG_FLAG_ATTACHED ≠ 0%Z)
    then
      if Config.use_attached_parent_name c_map
      then aname map_name (str_of instance_name) (Some config_name)
      else aname map_name (str_of instance_name) None
    else cname map_name config_name instance_name in
  if bool_decide (container_name ∈ container_names policy client_name)
  then Detail (inspect_container policy client container_name)
  else NOT_FOUND.

(** [for client_name, client_config in clients]: each element of
    [clients] is unpacked into exactly two names. *)
Definition unpack2 (t : list client_val) : result (client_val * client_val) :=
  match t with
  | [a; b] => Ok (a, b)
  | _ :: _ :: _ :: _ => Raise (ValueError "too many values to unpack (expected 2)")
  | _ => Raise (ValueError "not enough values to unpack (expected 2)")
  end.

(** The body of the loop over [clients] for a container or an attached
    volume. *)
Definition config_state (policy : BasePolicy) (opts : options)
  (c_map : Config.ContainerMap) (config_type : item_type)
  (map_name config_name : string) (instance_name : option string) (c_flags : Z)
  (t : list client_val) : result (list ConfigState) :=
  '(client_name, client_config) ← unpack2 t;
  match client_name, client_config with
  | ClientName client_name, ClientConfig client_config =>
      let client := get_client client_config in
      let c_state :=
        {| state_options := opts; map_name := map_name; config_name := config_name;
           instance_name := instance_name; config_flags := c_flags;
           state_detail := inspect policy c_map client_name client map_name
                             config_name instance_name c_flags |} in
      let '(base, flags) := get_state c_state in
      Ok [{| client_name := client_name;
             config_id := (config_type, map_name, config_name, instance_name);
             config_flags_of := c_flags; base_state_of := base;
             state_flags := flags |}]
  | _, _ => Raise (AttributeError "object has no attribute 'get_client'")
  end.

Definition not_found_on_map (kind config_name map_name : string) : exn :=
  KeyError [kind +:+ " configuration '" +:+ config_name +:+ "' not found on map '"
            +:+ map_name +:+ "'."].

(** The first half of [generate_config_states] for a container or an
    attached volume: the value of the local variable [clients]. The call
    in the source is [self._policy.get_clients(c_map, config)]. *)
Definition selected_clients (policy : BasePolicy) (c_map : Config.ContainerMap)
  (config : Config.ContainerConfiguration) : result (list (list client_val)) :=
  get_clients policy c_map config.

(** [AbstractStateGenerator.generate_config_states]. *)
Definition generate_config_states (policy : BasePolicy) (opts : options)
  (config_type : item_type) (map_name config_name : string)
  (instance_name : option string) (is_dependency : bool) : gen ConfigState :=
  match container_maps policy !! map_name with
  | None => Gen [] (Some (KeyError [map_name]))
  | Some c_map =>
      let c_flags := if is_dependency then CONFIG_FLAG_DEPENDENT else 0%Z in
      let container_like (extra : Config.ContainerConfiguration -> Z -> Z) :=
        match Config.get_existing c_map config_name with
        | None => Gen [] (Some (not_found_on_map "Container" config_name map_name))
        | Some config =>
            match selected_clients policy c_map config with
            | Raise e => Gen [] (Some e)
            | Ok clients =>
                gen_for (config_state policy opts c_map config_type map_name
                           config_name instance_name (extra config c_flags))
                        clients
            end
        end in
      match config_type with
      | ITEM_TYPE_CONTAINER =>
          container_like
            (fun config f =>
               if Config.persistent config
               then Z.lor f CONTAINER_CONFIG_FLAG_PERSISTENT else f)
      | ITEM_TYPE_VOLUME =>
          container_like (fun _ f => Z.lor f CONTAINER_CONFIG_FLAG_ATTACHED)
      | ITEM_TYPE_NETWORK =>
          match Config._networks c_map !! config_name with
          | None => Gen [] (Some (not_found_on_map "Network" config_name map_name))
          | Some _ =>
              Gen [] (Some (TypeError
                "get_clients() missing 1 required positional argument: 'c_map'"))
          end
      | ITEM_TYPE_other _ =>
          Gen [] (Some (ValueError "Invalid configuration type."))
      end
  end.

End Generator.

End State.

(** ** Merging keyword arguments ([policy/utils.py])

    [update_kwargs] changes its first argument and the lists and dicts in
    it in place, so the dicts, lists and tuples live in a store and values
    refer to them by location. A location outside the store stands for an
    object of any other kind: it is truthy and is neither a sequence nor a
    dict. *)

Module Kwargs.

Abbreviation loc := nat.

Inductive val : Type :=
| VNone
| VBool (b : bool)
| VInt (n : Z)
| VStr (s : string)
| VRef (l : loc).

Inductive obj : Type :=
| OTuple (items : list val)
| OList (items : list val)
| ODict (entries : list (string * val)).

#[export] Instance val_eq_dec : EqDecision val.
Proof. solve_decision. Defined.
#[export] Instance obj_eq_dec : EqDecision obj.
Proof. solve_decision. Defined.

Abbreviation heap := (list obj).

Definition empty_obj (o : obj) : bool :=
  match o with
  | OTuple [] | OList [] | ODict [] => true
  | _ => false
  end.

(** [not v]: [None], [False], [0], the empty string and the empty tuple,
    list and dict. *)
Definition falsy (h : heap) (v : val) : bool :=
  match v with
  | VNone => true
  | VBool b => negb b
  | VInt n => Z.eqb n 0
  | VStr s => bool_decide (s = "")
  | VRef l =>
      match h !! l with
      | Some o => empty_obj o
      | None => false
      end
  end.

(** [d.get(k)] and [d[k] = v] on the entries of a dict, which keep the
    order of insertion. *)
Fixpoint entries_get (k : string) (es : list (string * val)) : option val :=
  match es with
  | [] => None
  | (k', v) :: r => if bool_decide (k' = k) then Some v else entries_get k r
  end.

Fixpoint entries_set (k : string) (v : val) (es : list (string * val))
  : list (string * val) :=
  match es with
  | [] => [(k, v)]
  | (k', v') :: r =>
      if bool_decide (k' = k) then (k, v) :: r else (k', v') :: entries_set k v r
  end.

(** [d.update(other)]. *)
Definition entries_update (es other : list (string * val)) : list (string * val) :=
  foldl (fun acc kv => entries_set kv.1 kv.2 acc) es other.

Definition no_attribute (name : string) : exn :=
  AttributeError ("object has no attribute '" +:+ name +:+ "'").

(** [kwargs[key] = v]. *)
Definition setitem (h : heap) (kw : loc) (key : string) (v : val) : heap :=
  match h !! kw with
  | Some (ODict es) => <[kw := ODict (entries_set key v es)]> h
  | _ => h
  end.

(** A new object; its location is the next free one. *)
Definition alloc (h : heap) (o : obj) : heap * loc := (h ++ [o], length h).

(** [kw_item.extend(items)]: only a list has the method. *)
Definition extend (h : heap) (kw_item : val) (items : list val) : heap * option exn :=
  match kw_item with
  | VRef kl =>
      match h !! kl with
      | Some (OList ys) => (<[kl := OList (ys ++ items)]> h, None)
      | _ => (h, Some (no_attribute "extend"))
      end
  | _ => (h, Some (no_attribute "extend"))
  end.

(** [kw_item.update(entries)]: only a dict has the method. *)
Definition update (h : heap) (kw_item : val) (entries : list (string * val))
  : heap * option exn :=
  match kw_item with
  | VRef kl =>
      match h !! kl with
      | Some (ODict ks) => (<[kl := ODict (entries_update ks entries)]> h, None)
      | _ => (h, Some (no_attribute "update"))
      end
  | _ => (h, Some (no_attribute "update"))
  end.

(** The body of the inner loop of [update_kwargs], for one [key, u_item]
    of an update. *)
Definition update_item (kw : loc) (key : string) (u_item : val) (h : heap)
  : heap * option exn :=
  if falsy h u_item then (h, None)
  else
    match h !! kw with
    | Some (ODict kwargs) =>
        let kw_item := default VNone (entries_get key kwargs) in
        match u_item with
        | VRef l =>
            match h !! l with
            | Some (OList xs) =>
                if falsy h kw_item
                then let '(h', copy) := alloc h (OList xs) in
                     (setitem h' kw key (VRef copy), None)
                else extend h kw_item xs
            | Some (OTuple xs) =>
                if falsy h kw_item then (setitem h kw key u_item, None)
                else extend h kw_item xs
            | Some (ODict es) =>
                if falsy h kw_item
                then let '(h', copy) := alloc h (ODict es) in
                     (setitem h' kw key (VRef copy), None)
                else update h kw_item es
            | None => (setitem h kw key u_item, None)
            end
        | _ => (setitem h kw key u_item, None)
        end
    | _ => (h, Some (no_attribute "get"))
    end.

Definition changed_size : exn :=
  RuntimeError "dictionary changed size during iteration".

(** [for key, u_item in six.iteritems(update)]: the iterator reads the
    dict at [d] as it is when each item is fetched, and refuses to go on
    once its size differs from the size at the start. [i] is the position
    of the next item and [n] bounds the items still to come. *)
Fixpoint update_items (kw d : loc) (size i n : nat) (h : heap) : heap * option exn :=
  match h !! d with
  | Some (ODict es) =>
      if bool_decide (length es ≠ size) then (h, Some changed_size)
      else
        match n with
        | O => (h, None)
        | S n' =>
            match es !! i with
            | Some (key, u_item) =>
                match update_item kw key u_item h with
                | (h', None) => update_items kw d size (S i) n' h'
                | (h', Some e) => (h', Some e)
                end
            | None => (h, None)
            end
        end
  | _ => (h, Some (no_attribute "items"))
  end.

(** [update_kwargs(kwargs, *updates)]: the store after the call, and the
    exception that ended it, if any. *)
Fixpoint update_kwargs (h : heap) (kw : loc) (updates : list val) : heap * option exn :=
  match updates with
  | [] => (h, None)
  | upd :: rest =>
      if falsy h upd then update_kwargs h kw rest
      else
        match upd with
        | VRef d =>
            match h !! d with
            | Some (ODict es) =>
                match update_items kw d (length es) 0 (length es) h with
                | (h', None) => update_kwargs h' kw rest
                | (h', Some e) => (h', Some e)
                end
            | _ => (h, Some (no_attribute "items"))
            end
        | _ => (h, Some (no_attribute "items"))
        end
  end.

(** [kwargs.get(key)] and [key in kwargs] for the dict at [kw]. *)
Definition lookup_key (h : heap) (kw : loc) (key : string) : option val :=
  match h !! kw with
  | Some (ODict es) => entries_get key es
  | _ => None
  end.

(** [kept h h']: every dict of [h] is still a dict in [h'] and has every
    key it had. *)
Definition kept (h h' : heap) : Prop :=
  forall l es, h !! l = Some (ODict es) ->
    exists es', h' !! l = Some (ODict es')
                /\ forall k, is_Some (entries_get k es) -> is_Some (entries_get k es').

Definition is_dict (o : obj) : bool :=
  match o with
  | ODict _ => true
  | _ => false
  end.

(** The arguments of a call do not hold one another: [kwargs] is a dict,
    every update is an object of the store and is not [kwargs] itself, and
    no value of [kwargs] is [kwargs] itself or one of the updates. *)
Record separate (h : heap) (kw : loc) (updates : list val) : Prop := {
  sep_kwargs : exists es, h !! kw = Some (ODict es);
  sep_valid : forall d, VRef d ∈ updates -> is_Some (h !! d);
  sep_updates : VRef kw ∉ updates;
  sep_values : forall es key l, h !! kw = Some (ODict es) -> (key, VRef l) ∈ es ->
                 l <> kw /\ VRef l ∉ updates
}.

(** Every value that an update dict gives for [key] is falsy (and is not
    the dict [kwargs] itself, while that is still empty). *)
Definition only_falsy (h : heap) (kw : loc) (updates : list val) (key : string) : Prop :=
  forall d es v, VRef d ∈ updates -> h !! d = Some (ODict es) -> (key, v) ∈ es ->
    falsy h v = true /\ v <> VRef kw.

(** A value that may be stored in [kwargs] during a call that started in
    [h0]: not [kwargs] itself and not an update dict. *)
Definition storable (h0 : heap) (kw : loc) (updates : list val) (v : val) : Prop :=
  forall l, v = VRef l ->
    l <> kw /\ forall d es_d, VRef d ∈ updates -> h0 !! d = Some (ODict es_d) -> l <> d.

(** What stays true of the store [h] during a call that started in [h0]
    with separate arguments: [kwargs] still binds [key] as it did, holds
    neither itself nor an update dict, and the update dicts and the empty
    objects of [h0] are as they were. *)
Record update_inv (h0 : heap) (kw : loc) (updates : list val) (key : string)
  (h : heap) : Prop := {
  inv_kwargs : exists es,
    h !! kw = Some (ODict es)
    /\ entries_get key es = lookup_key h0 kw key
    /\ forall key' l, (key', VRef l) ∈ es ->
         l <> kw
         /\ forall d es_d, VRef d ∈ updates -> h0 !! d = Some (ODict es_d) -> l <> d;
  inv_updates : forall d es_d,
    VRef d ∈ updates -> h0 !! d = Some (ODict es_d) -> h !! d = Some (ODict es_d);
  inv_empty : forall l o,
    l <> kw -> h0 !! l = Some o -> empty_obj o = true -> h !! l = Some o;
  inv_kind : forall l o,
    h0 !! l = Some o -> exists o', h !! l = Some o' /\ is_dict o' = is_dict o
}.

End Kwargs.

(** ** Concrete maps used by the scenarios of the specification *)

Module Scenarios.
Import Input.

Definition unit_with (instances : list string) : Config.ContainerConfiguration :=
  {| Config.extends := []; Config.abstract := false; Config.instances := instances;
     Config.shares := []; Config.binds := []; Config.uses := [];
     Config.attaches := []; Config.links := []; Config.network := Config.NetUnset;
     Config.persistent := false; Config.clients := [] |}.

Definition map_of (name : string) (extended : bool)
  (containers : list (string * Config.ContainerConfiguration)) : Config.ContainerMap :=
  {| Config._name := name; Config._extended := extended;
     Config._containers := list_to_map containers;
     Config._networks := ∅; Config.repository := None; Config.host := ∅;
     Config.volumes := ∅; Config.map_clients := []; Config.groups := ∅;
     Config.default_domain := None; Config.set_hostname := true;
     Config.use_attached_parent_name := false; Config.default_tag := "latest" |}.

(** Unit [app] with instances [1] and [2]. *)
Definition app_map : Config.ContainerMap :=
  map_of "m" true [("app", unit_with ["1"; "2"])].

Definition app (i : option string) : MapConfigId (option string) :=
  Build_MapConfigId "m" "app" i.

Definition app_nested (t : list (option string))
  : MapConfigId (list (option string)) :=
  Build_MapConfigId "m" "app" t.

(** A unit that only names its parents. *)
Definition unit_extending (parents : list string) : Config.ContainerConfiguration :=
  {| Config.extends := parents; Config.abstract := false; Config.instances := [];
     Config.shares := []; Config.binds := []; Config.uses := [];
     Config.attaches := []; Config.links := []; Config.network := Config.NetUnset;
     Config.persistent := false; Config.clients := [] |}.

(** [a] extends [b] and [b] extends [a]. *)
Definition two_cycle_map : Config.ContainerMap :=
  map_of "m" false [("a", unit_extending ["b"]); ("b", unit_extending ["a"])].

(** [a] extends a unit that does not exist and then itself. *)
Definition broken_cycle_map : Config.ContainerMap :=
  map_of "m" false [("a", unit_extending ["missing"; "a"])].

(** [base] is abstract; [web] extends it. *)
Definition abstract_base : Config.ContainerConfiguration :=
  {| Config.extends := []; Config.abstract := true; Config.instances := [];
     Config.shares := ["/var/log"]; Config.binds := []; Config.uses := [];
     Config.attaches := []; Config.links := []; Config.network := Config.NetUnset;
     Config.persistent := false; Config.clients := [] |}.

Definition inheriting_map : Config.ContainerMap :=
  map_of "m" false [("base", abstract_base); ("web", unit_extending ["base"])].

(** A container that was created and never started, with the exit code
    [-1] of a failed start. *)
Definition never_started : State.container_status :=
  {| State.Running := false; State.StartedAt := "0001-01-01T00:00:00Z";
     State.ExitCode := (-1)%Z; State.Restarting := false |}.

Definition web_state (opts : State.options) (d : State.detail) : State.ContainerBaseState :=
  {| State.state_options := opts; State.map_name := "m"; State.config_name := "web";
     State.instance_name := Some "1"; State.config_flags := 0%Z;
     State.state_detail := d |}.

Definition force_web : State.options :=
  {| State.nonrecoverable_exit_codes := [-127; -1]%Z;
     State.force_update := [(State.ITEM_TYPE_CONTAINER, "m", "web", Some "1")] |}.

(** Map [m] names the client [m1]; its unit [web] names the client [c1]. *)
Definition web_with_client : Config.ContainerConfiguration :=
  {| Config.extends := []; Config.abstract := false; Config.instances := [];
     Config.shares := []; Config.binds := []; Config.uses := [];
     Config.attaches := []; Config.links := []; Config.network := Config.NetUnset;
     Config.persistent := false; Config.clients := ["c1"] |}.

Definition clients_map : Config.ContainerMap :=
  {| Config._name := "m"; Config._extended := true;
     Config._containers := {["web" := web_with_client]};
     Config._networks := ∅; Config.repository := None; Config.host := ∅;
     Config.volumes := ∅; Config.map_clients := ["m1"]; Config.groups := ∅;
     Config.default_domain := None; Config.set_hostname := true;
     Config.use_attached_parent_name := false; Config.default_tag := "latest" |}.

Definition clients_policy : State.BasePolicy :=
  {| State.container_maps := {["m" := clients_map]};
     State._clients :=
       list_to_map [("__default__", {| State.get_client := 0 |});
                    ("m1", {| State.get_client := 1 |});
                    ("c1", {| State.get_client := 2 |})];
     State.container_names := fun _ => [];
     State.inspect_container := fun _ _ => never_started |}.

(** Unit [web] uses the volumes of unit [data], which shares [/data]. *)
Definition data_unit : Config.ContainerConfiguration :=
  {| Config.extends := []; Config.abstract := false; Config.instances := [];
     Config.shares := ["/data"]; Config.binds := []; Config.uses := [];
     Config.attaches := []; Config.links := []; Config.network := Config.NetUnset;
     Config.persistent := false; Config.clients := [] |}.

Definition web_using (target : string) : Config.ContainerConfiguration :=
  {| Config.extends := []; Config.abstract := false; Config.instances := [];
     Config.shares := []; Config.binds := [];
     Config.uses := [{| Config.volume := target; Config.readonly := false |}];
     Config.attaches := []; Config.links := []; Config.network := Config.NetUnset;
     Config.persistent := false; Config.clients := [] |}.

Definition uses_map : Config.ContainerMap :=
  map_of "m" true [("data", data_unit); ("web", web_using "data")].

(** An extended map on which unit [web] uses the attached volume
    [data-vol]; unit [data] attaches it, or not; [web] may also be the name
    of a group. *)
Definition attaching (aliases : list string) : Config.ContainerConfiguration :=
  {| Config.extends := []; Config.abstract := false; Config.instances := [];
     Config.shares := []; Config.binds := []; Config.uses := [];
     Config.attaches := aliases; Config.links := []; Config.network := Config.NetUnset;
     Config.persistent := false; Config.clients := [] |}.

Definition volume_map (attached : list string) (groups : list (string * list string))
  : Config.ContainerMap :=
  {| Config._name := "m"; Config._extended := true;
     Config._containers :=
       list_to_map [("data", attaching attached); ("web", web_using "data-vol")];
     Config._networks := ∅; Config.repository := None; Config.host := ∅;
     Config.volumes := {["data-vol" := "/data"]}; Config.map_clients := [];
     Config.groups := list_to_map (prod_map id (map Config.MemberName) <$> groups);
     Config.default_domain := None; Config.set_hostname := true;
     Config.use_attached_parent_name := false; Config.default_tag := "latest" |}.

(** Unit [web] uses the volumes of unit [data]; [data] shares [/data], or
    has nothing to share. *)
Definition plain_unit : Config.ContainerConfiguration := unit_with [].

Definition sharing_map (shares_data : bool) : Config.ContainerMap :=
  map_of "m" true [("data", if shares_data then data_unit else plain_unit);
                   ("web", web_using "data")].

(** The map on which [web] uses [data-vol] and nobody attaches it, with a
    group [all] that holds a [MapConfigId] tuple. *)
Definition tuple_group_map : Config.ContainerMap :=
  {| Config._name := "m"; Config._extended := true;
     Config._containers :=
       list_to_map [("data", attaching []); ("web", web_using "data-vol")];
     Config._networks := ∅; Config.repository := None; Config.host := ∅;
     Config.volumes := {["data-vol" := "/data"]}; Config.map_clients := [];
     Config.groups := {["all" := [Config.MemberId "m" "web" [None]]]};
     Config.default_domain := None; Config.set_hostname := true;
     Config.use_attached_parent_name := false; Config.default_tag := "latest" |}.

(** A store for [update_kwargs]: [kwargs] at 0 is
    [{'name': 'web', 'ports': [80]}] with the list at 1; the update at 2 is
    [{'name': None, 'ports': [], 'user': 'root'}] with the empty list
    at 3. *)
Definition kw_heap : Kwargs.heap :=
  [Kwargs.ODict [("name", Kwargs.VStr "web"); ("ports", Kwargs.VRef 1)];
   Kwargs.OList [Kwargs.VInt 80];
   Kwargs.ODict [("name", Kwargs.VNone); ("ports", Kwargs.VRef 3);
                 ("user", Kwargs.VStr "root")];
   Kwargs.OList []].

(** A store in which [kwargs], at 0, holds itself:
    [kwargs = {'a': 1, 'env': {'DEBUG': '1'}}; kwargs['me'] = kwargs], with
    the dict of [env] at 1; the update at 2 is
    [{'me': {'a': None}, 'env': {'DEBUG': ''}}] with its dicts at 3
    and 4. *)
Definition nested_heap : Kwargs.heap :=
  [Kwargs.ODict [("a", Kwargs.VInt 1); ("env", Kwargs.VRef 1); ("me", Kwargs.VRef 0)];
   Kwargs.ODict [("DEBUG", Kwargs.VStr "1")];
   Kwargs.ODict [("me", Kwargs.VRef 3); ("env", Kwargs.VRef 4)];
   Kwargs.ODict [("a", Kwargs.VNone)];
   Kwargs.ODict [("DEBUG", Kwargs.VStr "")]].

End Scenarios.

(** ** Group expansion and persistent items ([config/main.py]) *)

Module Groups.
Import Input Instances.

(** [for x in l: <body x>] where the body is itself a generator: what was
    yielded before an exception stays yielded. *)
Fixpoint gen_chain {A B : Type} (body : A -> gen B) (l : list A) : gen B :=
  match l with
  | [] => Gen [] None
  | x :: r =>
      let g := body x in
      match raised g with
      | Some e => Gen (yielded g) (Some e)
      | None => let g' := gen_chain body r in Gen (yielded g ++ yielded g') (raised g')
      end
  end.

(** An element of a group: a [MapConfigId], a string, or a value of
    another type, of which only the type name is read. *)
Inductive group_item : Type :=
| GroupId (id : MapConfigId (list instance))
| GroupName (name : string)
| GroupOther (type_name : string).

Definition invalid_group_item (type_name : string) : exn :=
  ValueError ("Invalid group item. Must be string or MapConfigId tuple; found "
              +:+ type_name +:+ ".").

(** The body of the loop over the items of a group. *)
Definition expand_group_item (config_id : MapConfigId (list instance))
  (item : group_item) : gen (MapConfigId (list instance)) :=
  match item with
  | GroupId id => Gen [id] None
  | GroupName name =>
      let '(config_name, _, instance) := partition_dot name in
      Gen [Build_MapConfigId (map_name config_id) config_name
             (if bool_decide (instance = "") then instances config_id
              else [Some instance])] None
  | GroupOther type_name => Gen [] (Some (invalid_group_item type_name))
  end.

(** [expand_groups]. *)
Definition expand_groups (config_ids : list (MapConfigId (list instance)))
  (groups : gmap string (gmap string (list group_item)))
  : gen (MapConfigId (list instance)) :=
  gen_chain
    (fun config_id =>
       match groups !! map_name config_id with
       | None => Gen [] (Some (KeyError [map_name config_id]))
       | Some map_groups =>
           match map_groups !! config_name config_id with
           | Some group => gen_chain (expand_group_item config_id) group
           | None => Gen [config_id] None
           end
       end)
    config_ids.

(** [config.instances or [None]]. *)
Definition instances_or_None (config : Config.ContainerConfiguration)
  : list instance :=
  match Config.instances config with
  | [] => [None]
  | l => map Some l
  end.

(** [ContainerMap.get_persistent_items]. *)
Definition get_persistent_items (self : Config.ContainerMap)
  : list (string * string) * list (string * instance) :=
  (flat_map (fun kv => map (fun ac => (kv.1, ac)) (Config.attaches kv.2))
     (Config.iter_map self),
   flat_map (fun kv => map (fun ci => (kv.1, ci)) (instances_or_None kv.2))
     (filter (fun kv => Config.persistent kv.2 = true) (Config.iter_map self))).

End Groups.

(** ** Names of containers and images ([policy/base.py]) *)

Module Names.

(** [c in s]. *)
Fixpoint has_char (c : ascii) (s : string) : bool :=
  match s with
  | EmptyString => false
  | String c' r => Ascii.eqb c' c || has_char c r
  end.

(** [BasePolicy.resolve_cname]; the result has no map name when
    [includes_map] is false. *)
Definition resolve_cname (container_name : string) (includes_map : bool)
  : result (option string * string * option string) :=
  if includes_map then
    let '(map_name, _, ci_name) := partition_dot container_name in
    if bool_decide (ci_name = "")
    then Raise (ValueError ("Invalid container name: " +:+ container_name))
    else
      let '(c_name, _, i_name) := partition_dot ci_name in
      Ok (Some map_name, c_name, or_None i_name)
  else
    let '(c_name, _, i_name) := partition_dot container_name in
    Ok (None, c_name, or_None i_name).

(** Whether a name starts with a slash ([image[0] == '/']). *)
Definition leading_slash (s : string) : bool :=
  match s with
  | String c _ => Ascii.eqb c "/"
  | EmptyString => false
  end.

(** [BasePolicy.iname]. [resolve_value] of the module [functional], which
    is not among the sources, is taken to return the repository string as
    it is. *)
Definition iname (container_map : Config.ContainerMap) (image : string) : string :=
  if has_char "/" image then
    match image with
    | String c rest => if Ascii.eqb c "/" then rest else image
    | EmptyString => image
    end
  else
    match Config.repository container_map with
    | Some repository =>
        if bool_decide (repository = "") then image
        else repository +:+ "/" +:+ image
    | None => image
    end.

End Names.

(** ** The user of a container ([policy/utils.py]) *)

Module Utils.

(** A value that [extract_user] is given or returns: [None], a string,
    an integer, a tuple or a list. *)
#[warnings="-register-all"] Inductive user_val : Type :=
| UNone
| UStr (s : string)
| UInt (n : Z)
| UTuple (items : list user_val)
| UList (items : list user_val).

(** [s.partition(c)[0]]. *)
Fixpoint before_char (c : ascii) (s : string) : string :=
  match s with
  | EmptyString => EmptyString
  | String c' r => if Ascii.eqb c' c then EmptyString else String c' (before_char c r)
  end.

(** [extract_user], by the kind of its argument. The first test,
    [not user and user != 0 and user != '0'], holds of [None], the empty
    string, the empty tuple and the empty list, and not of the integer
    [0]; a tuple that is not empty gives its first item as it is, [None]
    included; the text of an integer is its decimal notation; a list that
    is not empty has no [partition]. *)
Definition extract_user (user : user_val) : result user_val :=
  match user with
  | UNone => Ok UNone
  | UStr s =>
      if bool_decide (s = "") then Ok UNone else Ok (UStr (before_char ":" s))
  | UInt n => Ok (UStr (pretty n))
  | UTuple [] => Ok UNone
  | UTuple (first :: _) => Ok first
  | UList [] => Ok UNone
  | UList (_ :: _) =>
      Raise (AttributeError "'list' object has no attribute 'partition'")
  end.

End Utils.

(** ** State generators ([state/base.py]) *)

Module StateGenerators.
Import State.

Section GetStates.
Context {K : Constants}.

(** [SingleStateGenerator.get_states]: the states of every address, one
    address after the other. *)
Definition get_states (policy : BasePolicy) (opts : options)
  (config_ids : list address) : gen ConfigState :=
  Groups.gen_chain
    (fun config_id : address =>
       let '(config_type, map_name, config_name, instance_name) := config_id in
       generate_config_states policy opts config_type map_name config_name
         instance_name false)
    config_ids.

(** [AbstractDependencyStateGenerator._get_all_states]: the states of the
    addresses on the dependency path, flagged as dependencies, and then
    the states of the address itself. *)
Definition _get_all_states (policy : BasePolicy) (opts : options)
  (config_id : address) (dependency_path : list address) : gen ConfigState :=
  let deps :=
    Groups.gen_chain
      (fun d : address =>
         let '(d_type, d_map_name, d_config_name, d_instance) := d in
         generate_config_states policy opts d_type d_map_name d_config_name
           d_instance true)
      dependency_path in
  match raised deps with
  | Some e => deps
  | None =>
      let '(config_type, map_name, config_name, instance_name) := config_id in
      let own := generate_config_states policy opts config_type map_name
                   config_name instance_name false in
      Gen (yielded deps ++ yielded own) (raised own)
  end.

End GetStates.

End StateGenerators.

(** ** Keyword arguments of the runner ([runner/base.py],
    [runner/signal_stop.py]) *)

Module Runner.
Import Kwargs.

(** A timeout as the configuration holds it: [None] or a number. *)
Definition timeout_val (t : option Z) : val :=
  match t with
  | Some n => VInt n
  | None => VNone
  end.

(** What the keyword builders read of an [ActionConfig]: the
    [stop_timeout] and [stop_signal] of the container configuration
    ([stop_timeout] is [None] here when it is [NotSet]) and the
    [stop_timeout] and [wait_timeout] entries of the client configuration
    ([None] here when [get] returns [None]). *)
Record ActionConfig : Type := {
  stop_timeout : option (option Z);
  stop_signal : val;
  client_stop_timeout : option Z;
  client_wait_timeout : option Z
}.

(** [c_kwargs['timeout'] = t], when there is a value to set, on the
    entries of the new dict. *)
Definition with_timeout (timeout : option val) (entries : list (string * val))
  : list (string * val) :=
  match timeout with
  | Some t => entries_set "timeout" t entries
  | None => entries
  end.

(** A call [update_kwargs(c_kwargs, kwargs)] on a new dict [c_kwargs]
    with the given entries, followed by [return c_kwargs]: the store, the
    location of [c_kwargs] and the exception that ended the call, if
    any. *)
Definition build_kwargs (h : heap) (entries : list (string * val)) (kwargs : val)
  : heap * loc * option exn :=
  let '(h1, c_kwargs) := alloc h (ODict entries) in
  let '(h2, e) := update_kwargs h1 c_kwargs [kwargs] in
  (h2, c_kwargs, e).

(** The value that [get_stop_kwargs] and [get_restart_kwargs] set for
    [timeout] before the update, if they set one. *)
Definition configured_timeout (config : ActionConfig) : option val :=
  match stop_timeout config with
  | None => VInt <$> client_stop_timeout config
  | Some t => Some (timeout_val t)
  end.

(** [DockerClientRunner.get_stop_kwargs] (and [get_restart_kwargs], whose
    body is the same). *)
Definition get_stop_kwargs (h : heap) (config : ActionConfig)
  (container_name : string) (kwargs : val) : heap * loc * option exn :=
  build_kwargs h
    (with_timeout (configured_timeout config) [("container", VStr container_name)])
    kwargs.

(** [DockerClientRunner.get_wait_kwargs]. *)
Definition get_wait_kwargs (h : heap) (config : ActionConfig)
  (container_name : string) (kwargs : val) : heap * loc * option exn :=
  build_kwargs h
    (with_timeout (VInt <$> client_wait_timeout config)
       [("container", VStr container_name)])
    kwargs.

(** [DockerClientRunner.get_remove_kwargs]. *)
Definition get_remove_kwargs (h : heap) (config : ActionConfig)
  (container_name : string) (kwargs : val) : heap * loc * option exn :=
  build_kwargs h [("container", VStr container_name)] kwargs.

(** A call of a method of the Docker client. *)
Inductive client_call : Type :=
| Stop (stop_kwargs : loc)
| Kill (container : string) (signal : val)
| Wait (container : string) (timeout : val).

(** [not sig or sig == 'SIGTERM' or sig == signal.SIGTERM]; the number of
    [signal.SIGTERM] is 15. *)
Definition default_signal (h : heap) (sig : val) : bool :=
  falsy h sig || bool_decide (sig = VStr "SIGTERM") || bool_decide (sig = VInt 15).

(** [SignalMixin.signal_stop]: the store, the calls made on the client
    and the exception that ended the method, if any. [kwargs] is the dict
    of the keyword arguments of the call. *)
Definition signal_stop (h : heap) (config : ActionConfig) (c_name : string)
  (kwargs : loc) : heap * list client_call * option exn :=
  let sig := stop_signal config in
  let '(h', stop_kwargs, e) := get_stop_kwargs h config c_name (VRef kwargs) in
  match e with
  | Some e => (h', [], Some e)
  | None =>
      if default_signal h' sig then (h', [Stop stop_kwargs], None)
      else (h', [Kill c_name sig;
                 Wait c_name (default (VInt 10) (lookup_key h' stop_kwargs "timeout"))],
            None)
  end.

End Runner.

(** * Theorems *)

(** ** Sorting and grouping a batch that addresses one unit *)

Module PyFacts.

Lemma pair_leb_refl (k : string * string) : pair_leb k k = true.
Proof.
  unfold pair_leb.
  assert (H : String.compare k.1 k.1 = Eq).
  { pose proof (String.compare_antisym k.1 k.1) as Ha.
    destruct (String.compare k.1 k.1); simpl in Ha; congruence. }
  rewrite H. destruct (String.leb_total k.2 k.2); assumption.
Qed.

Lemma sorted_same_key {A : Type} (key : A -> string * string) (k : string * string)
  (l : list A) :
  Forall (fun x => key x = k) l -> sorted key l = l.
Proof.
  induction 1 as [|x l Hx Hl IH]; [reflexivity|].
  unfold sorted in *. simpl. rewrite IH.
  destruct Hl as [|y l' Hy Hl']; [reflexivity|].
  simpl. rewrite Hx, Hy, pair_leb_refl. reflexivity.
Qed.

Lemma groupby_same_key {A : Type} (key : A -> string * string) (k : string * string)
  (l : list A) :
  l <> [] -> Forall (fun x => key x = k) l -> groupby key l = [(k, l)].
Proof.
  intros Hne Hall. induction Hall as [|x l Hx Hl IH]; [congruence|].
  simpl. destruct Hl as [|y l' Hy Hl'].
  - simpl. rewrite Hx. reflexivity.
  - rewrite IH by discriminate. rewrite bool_decide_eq_true_2 by exact Hx.
    reflexivity.
Qed.

(** Every group of [groupby] is a non-empty run of the list and carries
    the key of its members. *)
Lemma groupby_members {A : Type} (key : A -> string * string) (l : list A) :
  Forall (fun kg => kg.2 <> [] /\ Forall (fun x => key x = kg.1 /\ x ∈ l) kg.2)
         (groupby key l).
Proof.
  induction l as [|x l IH]; simpl; [constructor|].
  assert (IH' : Forall (fun kg => kg.2 <> [] /\
                          Forall (fun y => key y = kg.1 /\ y ∈ x :: l) kg.2)
                  (groupby key l)).
  { eapply Forall_impl; [exact IH|]. intros kg [Hne Hall]. split; [exact Hne|].
    eapply Forall_impl; [exact Hall|]. intros y [Hk Hin]. split; [exact Hk|].
    by apply list_elem_of_further. }
  destruct (groupby key l) as [|[k g] gs].
  - constructor; [|constructor]. simpl. split; [discriminate|].
    constructor; [|constructor]. split; [reflexivity|apply list_elem_of_here].
  - apply Forall_cons in IH' as [[Hne Hall] Hrest].
    case_bool_decide as Hk.
    + constructor; [|exact Hrest]. simpl in *. split; [discriminate|].
      constructor; [|exact Hall]. split; [exact Hk|apply list_elem_of_here].
    + constructor; [|constructor; [split; assumption|exact Hrest]].
      simpl. split; [discriminate|].
      constructor; [|constructor]. split; [reflexivity|apply list_elem_of_here].
Qed.

Lemma insert_by_elem {A : Type} (key : A -> string * string) (x y : A) (l : list A) :
  y ∈ insert_by key x l <-> y = x \/ y ∈ l.
Proof.
  induction l as [|z l IH]; simpl.
  - rewrite list_elem_of_singleton, elem_of_nil. tauto.
  - destruct (pair_leb (key x) (key z)).
    + rewrite elem_of_cons. tauto.
    + rewrite !elem_of_cons, IH. tauto.
Qed.

Lemma sorted_elem {A : Type} (key : A -> string * string) (y : A) (l : list A) :
  y ∈ sorted key l <-> y ∈ l.
Proof.
  induction l as [|x l IH]; [reflexivity|].
  unfold sorted in *. simpl. rewrite insert_by_elem, IH, elem_of_cons. tauto.
Qed.

End PyFacts.

(** ** Instance-set algebra *)

Module InstancesFacts.
Import Input Instances PyFacts.

(** The set handed to the filter of [_get_nested_instances] never grows,
    so the filter keeps every element. *)
Lemma nested_filter_nil (l : list (option string)) : nested_filter [] l = l.
Proof.
  induction l as [|ni l IH]; [reflexivity|].
  cbn [nested_filter].
  rewrite bool_decide_eq_true_2 by apply not_elem_of_nil. by rewrite IH.
Qed.

Section OneUnit.

Variables (m : Config.ContainerMap) (map_name config_name : string).
Variable config : Config.ContainerConfiguration.
Hypothesis Hconfig : Config.get_existing m config_name = Some config.

Lemma group_one_unit (single_instances : bool)
  (items : list (MapConfigId (item_ty single_instances))) :
  items <> [] ->
  Forall (fun di => get_map_config di = (map_name, config_name)) items ->
  group_instances items (Some m) ∅
  = Gen [Build_MapConfigId map_name config_name
           (if covers_all config (_get_instances single_instances items)
            then [None] else _get_instances single_instances items)] None.
Proof.
  intros Hne Hall. unfold group_instances.
  replace (no_map_given (Some m) ∅) with false by reflexivity.
  rewrite (sorted_same_key _ _ _ Hall), (groupby_same_key _ _ _ Hne Hall).
  simpl. rewrite Hconfig.
  destruct (covers_all config _); reflexivity.
Qed.

Lemma expand_one_unit (single_instances : bool)
  (items : list (MapConfigId (item_ty single_instances))) :
  items <> [] ->
  Forall (fun di => get_map_config di = (map_name, config_name)) items ->
  expand_instances items (Some m) ∅
  = Gen (if bool_decide (Config.instances config <> [])
            && bool_decide (None ∈ _get_instances single_instances items)
         then map (fun i => Build_MapConfigId map_name config_name (Some i))
                (Config.instances config)
         else map (fun i => Build_MapConfigId map_name config_name i)
                (_get_instances single_instances items)) None.
Proof.
  intros Hne Hall. unfold expand_instances.
  replace (no_map_given (Some m) ∅) with false by reflexivity.
  rewrite (sorted_same_key _ _ _ Hall), (groupby_same_key _ _ _ Hne Hall).
  simpl. rewrite Hconfig.
  destruct (_ && _); simpl; rewrite app_nil_r; reflexivity.
Qed.

End OneUnit.

(** What [_get_instances] makes of a batch: the requested instances with
    their repetitions. *)
Lemma get_instances_requested (single_instances : bool)
  (items : list (MapConfigId (item_ty single_instances))) :
  _get_instances single_instances items = requested single_instances items.
Proof.
  destruct single_instances; [reflexivity|].
  cbn [_get_instances requested]. unfold _get_nested_instances.
  rewrite nested_filter_nil. induction items as [|di items IH]; [reflexivity|].
  cbn [flat_map]. rewrite IH. unfold or_wildcard.
  destruct di as [mn cn t]. cbn [instances]. by destruct t.
Qed.

Lemma remove_dups_NoDup {A : Type} `{EqDecision A} (l : list A) :
  NoDup l -> remove_dups l = l.
Proof.
  induction 1 as [|x l Hx Hl IH]; [reflexivity|].
  cbn [remove_dups]. destruct (decide_rel elem_of x l) as [?|_]; [done|].
  by rewrite IH.
Qed.




Lemma same_unit_rebuild (map_name config_name : string)
  (ids : list (MapConfigId (option string))) :
  Forall (fun di => get_map_config di = (map_name, config_name)) ids ->
  map (fun i => Build_MapConfigId map_name config_name i) (map instances ids) = ids.
Proof.
  induction 1 as [|[mn cn i] ids Hk _ IH]; [reflexivity|].
  simpl. rewrite IH. unfold get_map_config in Hk. simpl in Hk.
  by inversion Hk.
Qed.

Lemma same_unit_NoDup (map_name config_name : string)
  (ids : list (MapConfigId (option string))) :
  Forall (fun di => get_map_config di = (map_name, config_name)) ids ->
  NoDup ids -> NoDup (map instances ids).
Proof.
  intros Hall Hnd. rewrite <- (same_unit_rebuild _ _ _ Hall) in Hnd.
  eapply NoDup_fmap_1. exact Hnd.
Qed.

(** Grouping and expanding a batch that addresses one unit with declared
    instances: every declared instance when the grouped tuple is the
    wildcard, the batch itself otherwise. *)
Lemma group_then_expand_one_unit (m : Config.ContainerMap)
  (map_name config_name : string) (config : Config.ContainerConfiguration)
  (ids : list (MapConfigId (option string))) :
  Config.get_existing m config_name = Some config ->
  Config.instances config <> [] ->
  ids <> [] ->
  Forall (fun di => get_map_config di = (map_name, config_name)) ids ->
  group_then_expand ids (Some m) ∅
  = Ok (if covers_all config (map instances ids)
        then map (fun d => Build_MapConfigId map_name config_name (Some d))
               (Config.instances config)
        else ids).
Proof.
  intros Hc Hdecl Hne Hall. unfold group_then_expand.
  rewrite (group_one_unit m map_name config_name config Hc true _ Hne Hall).
  cbn [_get_instances]. unfold _get_single_instances, consume. cbn [raised yielded].
  unfold mbind, result_bind.
  set (out := if covers_all config (map instances ids) then [None]
              else map instances ids).
  assert (Hout : out <> []).
  { unfold out. destruct (covers_all _ _); [discriminate|].
    destruct ids; [congruence|discriminate]. }
  rewrite (expand_one_unit m map_name config_name config Hc false
             [Build_MapConfigId map_name config_name out])
    by (try discriminate; repeat constructor).
  cbn [_get_instances raised yielded]. unfold _get_nested_instances.
  cbn [flat_map instances]. rewrite app_nil_r, nested_filter_nil.
  replace (or_wildcard out) with out by (destruct out; [congruence|reflexivity]).
  unfold out. unfold covers_all.
  rewrite (bool_decide_eq_true_2 _ Hdecl). cbn [andb].
  destruct (bool_decide (None ∈ map instances ids)) eqn:Hnone; cbn [orb].
  - rewrite bool_decide_eq_true_2 by apply list_elem_of_here. reflexivity.
  - destruct (bool_decide (length (map instances ids)
                           = length (Config.instances config))).
    + rewrite bool_decide_eq_true_2 by apply list_elem_of_here. reflexivity.
    + rewrite Hnone. f_equal. apply (same_unit_rebuild _ _ _ Hall).
Qed.



(** For [app] with instances [1] and [2]: the wildcard and the full set
    both come back as the declared instances. *)
Example group_then_expand_scenario :
  group_then_expand [Scenarios.app None] (Some Scenarios.app_map) ∅
  = Ok [Scenarios.app (Some "1"); Scenarios.app (Some "2")]
  /\ group_then_expand [Scenarios.app (Some "2"); Scenarios.app (Some "1")]
       (Some Scenarios.app_map) ∅
     = Ok [Scenarios.app (Some "1"); Scenarios.app (Some "2")].
Proof. split; vm_compute; reflexivity. Qed.

End InstancesFacts.

(** ** Extension resolver *)

Module ConfigFacts.
Import Config.

Lemma for_each_Ok_inv {A S : Type} (body : S -> A -> result S) (l : list A) :
  forall s s', for_each body s l = Ok s' ->
    forall x, x ∈ l -> exists s1 s2, body s1 x = Ok s2.
Proof.
  induction l as [|y l IH]; intros s s' Hrun x Hx.
  - by apply elem_of_nil in Hx.
  - simpl in Hrun. destruct (body s y) as [s1|e] eqn:Hy; [|discriminate].
    apply elem_of_cons in Hx as [->|Hx]; [eauto|].
    eapply IH; eassumption.
Qed.

Lemma for_each_Raise_inv {A S : Type} (body : S -> A -> result S) (l : list A) :
  forall s e, for_each body s l = Raise e ->
    exists x s1, x ∈ l /\ body s1 x = Raise e.
Proof.
  induction l as [|y l IH]; intros s e Hrun; [discriminate|].
  simpl in Hrun. destruct (body s y) as [s1|e'] eqn:Hy.
  - destruct (IH _ _ Hrun) as (x & s2 & Hx & Hb).
    exists x, s2. split; [by apply list_elem_of_further|exact Hb].
  - inversion Hrun; subst. exists y, s. split; [apply list_elem_of_here|exact Hy].
Qed.

Lemma on_cycle_step (self : ContainerMap) (c : ContainerConfiguration) :
  on_cycle self c ->
  exists c', extends_step self c c' /\ on_cycle self c'.
Proof.
  unfold on_cycle. intros Hc. inversion Hc as [? ? Hs|? c' ? Hs Ht]; subst.
  - exists c. split; [exact Hs|exact Hc].
  - exists c'. split; [exact Hs|]. eapply tc_r; eassumption.
Qed.

Section Resolver.

Variable merge_from_obj :
  ContainerConfiguration -> ContainerConfiguration -> ContainerConfiguration.

Local Abbreviation get_extended := (get_extended merge_from_obj).
Local Abbreviation get_extended_map := (get_extended_map merge_from_obj).
Local Abbreviation extend_all := (extend_all merge_from_obj).

(** The only exceptions [get_extended] raises are the recursion limit and
    the [KeyError] of a parent that is not on the map. *)
Lemma get_extended_raises (self : ContainerMap) (depth : nat) :
  forall config e, get_extended depth self config = Raise e ->
    e = RecursionError
    \/ exists ext_name, e = KeyError [ext_name] /\ _containers self !! ext_name = None.
Proof.
  induction depth as [|d IH]; intros config e Hrun; simpl in Hrun.
  - left. congruence.
  - destruct (_ || _); [discriminate|].
    destruct (for_each _ _ _) as [acc|e'] eqn:Hloop; simpl in Hrun; [discriminate|].
    inversion Hrun; subst e'. clear Hrun.
    apply for_each_Raise_inv in Hloop as (ext_name & acc & _ & Hbody).
    destruct (_containers self !! ext_name) as [base|] eqn:Hlook.
    + destruct (get_extended d self base) as [r|e'] eqn:Hrec; simpl in Hbody;
        [discriminate|].
      inversion Hbody; subst e'. eapply IH. exact Hrec.
    + right. exists ext_name. split; [congruence|exact Hlook].
Qed.

(** Resolving a unit on a cycle never returns. *)
Lemma get_extended_cycle_not_Ok (self : ContainerMap) (depth : nat) :
  _extended self = false ->
  forall config r, on_cycle self config -> get_extended depth self config <> Ok r.
Proof.
  intros Hraw. induction depth as [|d IH]; intros config r Hcyc Hrun;
    simpl in Hrun; [discriminate|].
  destruct (on_cycle_step _ _ Hcyc) as (c' & (ext_name & Hin & Hlook) & Hcyc').
  rewrite Hraw, orb_false_r in Hrun.
  rewrite bool_decide_eq_false_2 in Hrun
    by (intros Hnil; rewrite Hnil in Hin; by apply elem_of_nil in Hin).
  destruct (for_each _ _ _) as [acc|e] eqn:Hloop; [|discriminate].
  destruct (for_each_Ok_inv _ _ _ _ Hloop _ Hin) as (s1 & s2 & Hbody).
  rewrite Hlook in Hbody.
  destruct (get_extended d self c') as [r'|e] eqn:Hrec; [|discriminate].
  exact (IH _ _ Hcyc' Hrec).
Qed.

(** C2 (amended). On a map that is not flagged as extended, resolving a
    unit that lies on a cycle of [extends] never returns a configuration:
    for every recursion limit it ends with the interpreter's
    [RecursionError], or with the [KeyError] of a parent that is not on the
    map when such a parent is met first; when every parent named on the map
    exists, it is the [RecursionError]. *)
Theorem get_extended_cycle_raises (self : ContainerMap) (depth : nat)
  (config : ContainerConfiguration) :
  _extended self = false ->
  on_cycle self config ->
  (exists e, get_extended depth self config = Raise e
     /\ (e = RecursionError
         \/ exists ext_name,
              e = KeyError [ext_name] /\ _containers self !! ext_name = None))
  /\ ((forall ext_name, ext_name ∈ extends config
                        -> is_Some (_containers self !! ext_name))
      -> parents_exist self
      -> get_extended depth self config = Raise RecursionError).
Proof.
  intros Hraw Hcyc.
  assert (H1 : exists e, get_extended depth self config = Raise e
     /\ (e = RecursionError
         \/ exists ext_name,
              e = KeyError [ext_name] /\ _containers self !! ext_name = None)).
  { destruct (get_extended depth self config) as [r|e] eqn:Hrun.
    - exfalso. exact (get_extended_cycle_not_Ok _ _ Hraw _ _ Hcyc Hrun).
    - exists e. split; [reflexivity|]. eapply get_extended_raises. exact Hrun. }
  split; [exact H1|].
  intros Hown Hclosed. destruct H1 as (e & Hrun & [->|(ext_name & -> & Hmiss)]);
    [exact Hrun|].
  exfalso.
  (* the missing name is listed by the unit itself or by a unit of the map *)
  assert (Hgen : forall d c, (forall n, n ∈ extends c -> is_Some (_containers self !! n))
            -> get_extended d self c <> Raise (KeyError [ext_name])).
  { clear -Hclosed Hmiss. induction d as [|d IH]; intros c Hc Hr; simpl in Hr;
      [discriminate|].
    destruct (_ || _); [discriminate|].
    destruct (for_each _ _ _) as [acc|e'] eqn:Hloop; simpl in Hr; [discriminate|].
    inversion Hr; subst e'. clear Hr.
    apply for_each_Raise_inv in Hloop as (n & acc & Hn & Hbody).
    destruct (_containers self !! n) as [base|] eqn:Hlook.
    - destruct (get_extended d self base) as [r|e'] eqn:Hrec; simpl in Hbody;
        [discriminate|].
      inversion Hbody; subst e'. eapply (IH base); [|exact Hrec].
      intros n' Hn'. eapply Hclosed; eassumption.
    - destruct (Hc _ Hn) as [? Hsome]. congruence. }
  exact (Hgen _ _ Hown Hrun).
Qed.

(** What the loop of [get_extended_map] leaves in [map_copy._containers]. *)
Lemma fill_lookup (f : ContainerConfiguration -> result ContainerConfiguration)
  (l : list (string * ContainerConfiguration)) :
  NoDup l.*1 ->
  forall acc cs : gmap string ContainerConfiguration,
    for_each (fun acc kv => f kv.2 ≫= fun ext => Ok (<[kv.1 := ext]> acc)) acc l
    = Ok cs ->
    forall c_name c',
      cs !! c_name = Some c'
      <-> (exists c, (c_name, c) ∈ l /\ f c = Ok c')
          \/ ((c_name ∉ l.*1) /\ acc !! c_name = Some c').
Proof.
  induction l as [|[n c] l IH]; intros Hnd acc cs Hrun c_name c'.
  - simpl in Hrun. inversion Hrun; subst. split.
    + intros Hl. right. split; [apply not_elem_of_nil|exact Hl].
    + intros [(c & Hin & _)|[_ Hl]]; [by apply elem_of_nil in Hin|exact Hl].
  - simpl in Hnd. apply NoDup_cons in Hnd as [Hn Hnd].
    cbn [for_each] in Hrun. simpl in Hrun.
    destruct (f c) as [ext|e] eqn:Hf; simpl in Hrun; [|discriminate].
    rewrite (IH Hnd _ _ Hrun c_name c'). simpl. split.
    + intros [(c0 & Hin & Hc0)|[Hnot Hl]].
      * left. exists c0. split; [by apply list_elem_of_further|exact Hc0].
      * destruct (decide (n = c_name)) as [->|Hne].
        -- rewrite lookup_insert_eq in Hl. inversion Hl; subst.
           left. exists c. split; [apply list_elem_of_here|exact Hf].
        -- rewrite lookup_insert_ne in Hl by exact Hne.
           right. split; [|exact Hl]. rewrite not_elem_of_cons.
           split; [intros ->; by apply Hne|exact Hnot].
    + intros [(c0 & Hin & Hc0)|[Hnot Hl]].
      * apply elem_of_cons in Hin as [Heq|Hin].
        -- inversion Heq; subst. right. split; [exact Hn|].
           rewrite lookup_insert_eq. congruence.
        -- left. eauto.
      * apply not_elem_of_cons in Hnot as [Hne Hnot].
        right. split; [exact Hnot|]. rewrite lookup_insert_ne by congruence. exact Hl.
Qed.

Lemma iter_map_NoDup (self : ContainerMap) : NoDup (iter_map self).*1.
Proof.
  unfold iter_map. eapply NoDup_fmap_fst.
  - intros x y1 y2 [_ H1]%list_elem_of_filter [_ H2]%list_elem_of_filter.
    apply elem_of_map_to_list in H1, H2. congruence.
  - apply NoDup_filter, NoDup_map_to_list.
Qed.

Lemma iter_map_elem (self : ContainerMap) (c_name : string)
  (c : ContainerConfiguration) :
  (c_name, c) ∈ iter_map self
  <-> _containers self !! c_name = Some c /\ abstract c = false.
Proof.
  unfold iter_map. rewrite list_elem_of_filter, elem_of_map_to_list. simpl. tauto.
Qed.

(** The units of the extended map: the resolved non-abstract units. *)
Lemma extend_all_lookup (depth : nat) (self : ContainerMap)
  (cs : gmap string ContainerConfiguration) :
  extend_all depth self = Ok cs ->
  forall c_name c',
    cs !! c_name = Some c'
    <-> exists c, _containers self !! c_name = Some c /\ abstract c = false
                  /\ get_extended depth self c = Ok c'.
Proof.
  intros Hrun c_name c'. unfold Config.extend_all in Hrun.
  rewrite (fill_lookup _ _ (iter_map_NoDup self) _ _ Hrun c_name c'). split.
  - intros [(c & Hin & Hc)|[_ Hl]]; [|by rewrite lookup_empty in Hl].
    apply iter_map_elem in Hin as [? ?]. eauto.
  - intros (c & Hl & Ha & Hc). left. exists c. split; [|exact Hc].
    apply iter_map_elem. auto.
Qed.

(** On a map flagged as extended, [get_extended] returns its argument. *)
Lemma get_extended_on_extended (self : ContainerMap) (d : nat)
  (config : ContainerConfiguration) :
  _extended self = true -> get_extended (S d) self config = Ok config.
Proof. intros He. simpl. rewrite He, orb_true_r. reflexivity. Qed.

Section Idempotence.

(** What the theorem needs of the merge that is not among the sources:
    the [abstract] flag of a merged configuration is the flag of the merged
    object (scalars are overridden) or the flag of the receiver (the flag
    is not inherited at all). *)
Hypothesis merge_abstract :
  (forall self obj, abstract (merge_from_obj self obj) = abstract obj)
  \/ (forall self obj, abstract (merge_from_obj self obj) = abstract self).

Lemma get_extended_concrete (depth : nat) (self : ContainerMap)
  (config r : ContainerConfiguration) :
  get_extended depth self config = Ok r -> abstract config = false
  -> abstract r = false.
Proof.
  destruct depth as [|d]; simpl; [discriminate|].
  destruct (_ || _); [congruence|].
  destruct (for_each _ _ _) as [acc|e] eqn:Hloop; simpl; [|discriminate].
  intros Hr Hc. injection Hr as <-.
  destruct merge_abstract as [Hobj|Hself]; [by rewrite Hobj|].
  rewrite Hself.
  assert (Hinv : forall l a a',
             for_each
               (fun acc ext_name =>
                  match _containers self !! ext_name with
                  | Some ext_cfg_base =>
                      get_extended d self ext_cfg_base
                      ≫= fun ext_cfg => Ok (merge_from_obj acc ext_cfg)
                  | None => Raise (KeyError [ext_name])
                  end) a l = Ok a'
             -> abstract a' = abstract a).
  { clear -Hself. induction l as [|n l IH]; intros a a' Hrun; simpl in Hrun.
    - congruence.
    - destruct (_containers self !! n); [|discriminate].
      destruct (get_extended d self _); simpl in Hrun; [|discriminate].
      rewrite (IH _ _ Hrun). apply Hself. }
  rewrite (Hinv _ _ _ Hloop). reflexivity.
Qed.

Lemma get_extended_map_fixed (depth : nat) (self m1 : ContainerMap) :
  get_extended_map depth self = Ok m1 ->
  get_extended_map depth m1 = Ok m1
  /\ _extended m1 = true
  /\ (forall c_name c',
        _containers m1 !! c_name = Some c'
        <-> exists c, _containers self !! c_name = Some c /\ abstract c = false
                      /\ get_extended depth self c = Ok c').
Proof.
  unfold Config.get_extended_map at 1. intros Hrun.
  destruct (extend_all depth self) as [cs|e] eqn:Hall; simpl in Hrun; [|discriminate].
  injection Hrun as Hm1.
  pose proof (extend_all_lookup _ _ _ Hall) as Hunits.
  assert (Hext : _extended m1 = true) by (rewrite <- Hm1; reflexivity).
  assert (Hcs : _containers m1 = cs) by (rewrite <- Hm1; reflexivity).
  split; [|split; [exact Hext|rewrite Hcs; exact Hunits]].
  assert (Hsecond : extend_all depth m1 = Ok cs).
  { destruct (extend_all depth m1) as [cs2|e] eqn:Hall2.
    - f_equal. apply map_eq. intros c_name. apply option_eq. intros c'.
      rewrite (extend_all_lookup _ _ _ Hall2 c_name c'), Hcs. split.
      + intros (c & Hl & _ & Hc).
        destruct depth as [|d]; [discriminate|].
        rewrite (get_extended_on_extended _ _ _ Hext) in Hc. congruence.
      + intros Hl. exists c'. split; [exact Hl|].
        pose proof Hl as (c & _ & Ha & Hc)%Hunits.
        split; [exact (get_extended_concrete _ _ _ _ Hc Ha)|].
        destruct depth as [|d]; [discriminate|].
        by apply get_extended_on_extended.
    - exfalso. unfold Config.extend_all in Hall2.
      apply for_each_Raise_inv in Hall2 as ([n c] & acc & Hin & Hbody).
      simpl in Hbody. apply iter_map_elem in Hin as [Hl _]. rewrite Hcs in Hl.
      destruct depth as [|d].
      + apply Hunits in Hl as (c0 & _ & _ & Hc). discriminate.
      + rewrite (get_extended_on_extended _ _ _ Hext) in Hbody. discriminate. }
  unfold Config.get_extended_map. rewrite Hsecond. simpl.
  f_equal. rewrite <- Hm1. reflexivity.
Qed.

(** What the loop over the parents leaves in the accumulator. *)
Lemma parents_loop (d : nat) (self : ContainerMap) (l : list string) :
  forall init acc,
    for_each
      (fun acc ext_name =>
         match _containers self !! ext_name with
         | None => Raise (KeyError [ext_name])
         | Some ext_cfg_base =>
             get_extended d self ext_cfg_base
             ≫= fun ext_cfg => Ok (merge_from_obj acc ext_cfg)
         end) init l = Ok acc ->
    exists rs,
      Forall2 (fun ext_name r =>
                 exists base, _containers self !! ext_name = Some base
                              /\ get_extended d self base = Ok r) l rs
      /\ acc = foldl merge_from_obj init rs.
Proof.
  induction l as [|n l IH]; intros init acc Hrun; cbn [for_each] in Hrun.
  - injection Hrun as <-. exists []. split; [constructor|reflexivity].
  - destruct (_containers self !! n) as [base|] eqn:Hn; [|done].
    destruct (get_extended d self base) as [r|e] eqn:Hr;
      cbn [mbind result_bind] in Hrun; [|done].
    destruct (IH _ _ Hrun) as (rs & Hall & ->). exists (r :: rs).
    split; [|reflexivity]. constructor; [by exists base|exact Hall].
Qed.

(** The two ways in which [get_extended] returns. *)
Lemma get_extended_cases (depth : nat) (self : ContainerMap)
  (config form : ContainerConfiguration) :
  get_extended depth self config = Ok form ->
  ((extends config = [] \/ _extended self = true) /\ form = config)
  \/ (extends config <> [] /\ _extended self = false
      /\ exists d rs,
           depth = S d
           /\ Forall2 (fun ext_name r =>
                         exists base, _containers self !! ext_name = Some base
                                      /\ get_extended d self base = Ok r)
                (extends config) rs
           /\ form = merge_from_obj (foldl merge_from_obj new_config rs) config).
Proof.
  destruct depth as [|d]; [done|]. cbn [Config.get_extended].
  destruct (bool_decide (extends config = []) || _extended self) eqn:Hcond.
  - intros [= <-]. left. split; [|done].
    apply orb_true_iff in Hcond as [Hc%bool_decide_eq_true|Hc]; [by left|by right].
  - apply orb_false_iff in Hcond as [Hc%bool_decide_eq_false Hraw].
    destruct (for_each _ _ _) as [acc|e] eqn:Hloop; cbn [mbind result_bind]; [|done].
    intros [= <-]. destruct (parents_loop _ _ _ _ _ Hloop) as (rs & Hall & ->).
    right. do 2 (split; [done|]). by exists d, rs.
Qed.

(** [get_extended] returns the self-contained form. *)
Lemma get_extended_form (self : ContainerMap) (depth : nat) :
  forall config form,
    get_extended depth self config = Ok form ->
    self_contained merge_from_obj self config form.
Proof.
  induction depth as [|d IH]; intros config form Hrun; [done|].
  destruct (get_extended_cases _ _ _ _ Hrun)
    as [[Hown ->]|(Hext & Hraw & d' & rs & [= <-] & Hall & ->)].
  - by apply form_own.
  - apply form_merged; [done|done|].
    eapply Forall2_impl; [exact Hall|].
    intros ext_name r (base & Hbase & Hr). exists base. split; [done|by apply IH].
Qed.

Lemma foldl_keeps_init (init : ContainerConfiguration)
  (rs : list ContainerConfiguration) (e : entry) :
  extends_lists merge_from_obj -> has_entry init e ->
  has_entry (foldl merge_from_obj init rs) e.
Proof.
  intros Hk. revert init. induction rs as [|r rs IH]; intros init Hi; [exact Hi|].
  cbn [foldl]. apply IH, Hk. by left.
Qed.

Lemma foldl_keeps_elem (init r : ContainerConfiguration)
  (rs : list ContainerConfiguration) (e : entry) :
  extends_lists merge_from_obj -> r ∈ rs -> has_entry r e ->
  has_entry (foldl merge_from_obj init rs) e.
Proof.
  intros Hk Hr He. revert init. induction rs as [|r' rs IH]; intros init;
    [by apply elem_of_nil in Hr|].
  cbn [foldl]. apply elem_of_cons in Hr as [->|Hr].
  - apply foldl_keeps_init; [exact Hk|]. apply Hk. by right.
  - by apply IH.
Qed.

(** A form carries the entries of the unit and of all its ancestors. *)
Lemma get_extended_inherits (self : ContainerMap) :
  extends_lists merge_from_obj -> _extended self = false ->
  forall depth config form, get_extended depth self config = Ok form ->
    forall a, rtc (extends_step self) config a ->
      forall e, has_entry a e -> has_entry form e.
Proof.
  intros Hk Hraw. induction depth as [|d IH]; intros config form Hrun a Hreach e He;
    [done|].
  destruct (get_extended_cases _ _ _ _ Hrun)
    as [[[Hext|Hext] ->]|(Hext & _ & d' & rs & [= <-] & Hall & ->)].
  - destruct Hreach as [|c b a (n & Hn & _) _]; [exact He|].
    rewrite Hext in Hn. by apply elem_of_nil in Hn.
  - congruence.
  - destruct Hreach as [|c b a (n & Hn & Hb) Hreach]; [apply Hk; by right|].
    apply Hk. left.
    apply list_elem_of_lookup in Hn as [i Hi].
    destruct (Forall2_lookup_l _ _ _ _ _ Hall Hi) as (r & Hr & base & Hbase & Hrec).
    rewrite Hb in Hbase. injection Hbase as <-.
    apply (foldl_keeps_elem _ r); [exact Hk|by eapply list_elem_of_lookup_2|].
    by apply (IH b r Hrec a).
Qed.

(** C5. Applying [get_extended_map] twice is the same as applying it once,
    whether it returns or raises. The map it returns is flagged as
    extended and its units are exactly the non-abstract units of the
    source map, each of them present, not abstract, and in the
    self-contained form of the contract of the resolver: the unit itself
    when it has no parents or the source map is already extended, and
    otherwise the forms of its parents merged in the order of [extends]
    into a new configuration, with the unit merged last. When the merge
    extends lists, a unit of the returned map holds
    every entry of every list attribute of the unit and of all its
    ancestors. On the returned map, [get_extended] returns every
    configuration unchanged. With [web] extending the abstract [base]
    that shares [/var/log], the returned map has no [base] and has [web]
    sharing [/var/log]. *)
Theorem get_extended_map_idempotent (depth : nat) (self : ContainerMap) :
  (get_extended_map depth self ≫= get_extended_map depth)
  = get_extended_map depth self
  /\ (forall m1, get_extended_map depth self = Ok m1 ->
       _extended m1 = true
       /\ (forall c_name c',
             _containers m1 !! c_name = Some c'
             <-> exists c, _containers self !! c_name = Some c /\ abstract c = false
                           /\ get_extended depth self c = Ok c')
       /\ (forall c_name c,
             _containers self !! c_name = Some c -> abstract c = false ->
             exists c',
               _containers m1 !! c_name = Some c' /\ abstract c' = false
               /\ self_contained merge_from_obj self c c'
               /\ (extends_lists merge_from_obj -> _extended self = false ->
                   forall a, rtc (extends_step self) c a ->
                     forall e, has_entry a e -> has_entry c' e))
       /\ (forall d config, get_extended (S d) m1 config = Ok config))
  /\ (exists m1,
        Config.get_extended_map merge_from_obj_spec 10 Scenarios.inheriting_map
        = Ok m1
        /\ _containers m1 !! "base" = None
        /\ shares <$> _containers m1 !! "web" = Some ["/var/log"]).
Proof.
  split; [|split].
  - destruct (get_extended_map depth self) as [m1|e] eqn:Hrun; [|reflexivity].
    exact (proj1 (get_extended_map_fixed _ _ _ Hrun)).
  - intros m1 Hrun. destruct (get_extended_map_fixed _ _ _ Hrun) as (_ & Hext & Hunits).
    split; [exact Hext|]. split; [exact Hunits|]. split.
    + intros c_name c Hc Habs.
      assert (exists c', get_extended depth self c = Ok c') as [c' Hc'].
      { unfold Config.get_extended_map in Hrun.
        destruct (extend_all depth self) as [cs|e] eqn:Hall; [|done].
        unfold Config.extend_all in Hall.
        destruct (for_each_Ok_inv _ _ _ _ Hall (c_name, c)) as (s1 & s2 & Hbody).
        { by apply iter_map_elem. }
        cbn [fst snd] in Hbody.
        destruct (get_extended depth self c) as [c'|e]; [by exists c'|done]. }
      exists c'. split; [apply Hunits; by exists c|].
      split; [by eapply get_extended_concrete|].
      split; [by eapply get_extended_form|].
      intros Hk Hraw a Hreach e He.
      by eapply (get_extended_inherits self Hk Hraw depth c c' Hc' a).
    + intros d config. by apply get_extended_on_extended.
  - eexists. split; [vm_compute; reflexivity|]. split; reflexivity.
Qed.

End Idempotence.

End Resolver.

Lemma merge_from_obj_spec_extends_lists : extends_lists merge_from_obj_spec.
Proof.
  intros self obj [i|p|b|u|a|l|n]; cbn [has_entry merge_from_obj_spec instances
    shares binds uses attaches links clients]; rewrite elem_of_app; tauto.
Qed.

Lemma get_extended_cycle_raises_witness :
  get_extended merge_from_obj_spec 25 Scenarios.two_cycle_map
    (Scenarios.unit_extending ["b"]) = Raise RecursionError.
Proof.
  assert (Hcyc : on_cycle Scenarios.two_cycle_map (Scenarios.unit_extending ["b"])).
  { eapply tc_l; [|apply tc_once].
    - exists "b". split; [apply list_elem_of_here|reflexivity].
    - exists "a". split; [apply list_elem_of_here|reflexivity]. }
  apply (proj2 (get_extended_cycle_raises merge_from_obj_spec Scenarios.two_cycle_map
                  25 (Scenarios.unit_extending ["b"]) eq_refl Hcyc)).
  - intros ext_name Hin. simpl in Hin. apply list_elem_of_singleton in Hin as ->.
    eexists. reflexivity.
  - intros c_name c Hl ext_name Hin.
    unfold Scenarios.two_cycle_map, Scenarios.map_of in Hl. simpl in Hl.
    apply lookup_insert_Some in Hl as [[_ <-]|[_ Hl]].
    + simpl in Hin. apply list_elem_of_singleton in Hin as ->. eexists. reflexivity.
    + apply lookup_insert_Some in Hl as [[_ <-]|[_ Hl]].
      * simpl in Hin. apply list_elem_of_singleton in Hin as ->. eexists. reflexivity.
      * by rewrite lookup_empty in Hl.
Defined.

Lemma get_extended_cycle_counterexample :
  _extended Scenarios.broken_cycle_map = false
  /\ on_cycle Scenarios.broken_cycle_map (Scenarios.unit_extending ["missing"; "a"])
  /\ get_extended merge_from_obj_spec 1000 Scenarios.broken_cycle_map
       (Scenarios.unit_extending ["missing"; "a"]) = Raise (KeyError ["missing"]).
Proof.
  split; [reflexivity|split].
  - apply tc_once. exists "a". split; [|reflexivity].
    apply list_elem_of_further, list_elem_of_here.
  - reflexivity.
Qed.

(** On the map where [web] extends the abstract [base], the unit [web]
    of the extended map is not abstract and shares [/var/log], the entry
    of its parent. *)
Lemma get_extended_map_idempotent_witness :
  exists m1 c',
    get_extended_map merge_from_obj_spec 10 Scenarios.inheriting_map = Ok m1
    /\ _containers m1 !! "web" = Some c' /\ abstract c' = false
    /\ has_entry c' (EShare "/var/log").
Proof.
  assert (exists m1, get_extended_map merge_from_obj_spec 10 Scenarios.inheriting_map
                     = Ok m1) as [m1 Hrun].
  { eexists. vm_compute. reflexivity. }
  destruct (proj1 (proj2 (get_extended_map_idempotent merge_from_obj_spec
                            (or_introl (fun _ _ => eq_refl)) 10
                            Scenarios.inheriting_map)) m1 Hrun)
    as (_ & _ & Hunits & _).
  destruct (Hunits "web" (Scenarios.unit_extending ["base"]) eq_refl eq_refl)
    as (c' & Hc' & Habs & _ & Hinherit).
  exists m1, c'. split; [exact Hrun|]. split; [exact Hc'|]. split; [exact Habs|].
  apply (Hinherit merge_from_obj_spec_extends_lists eq_refl Scenarios.abstract_base).
  - apply rtc_once. exists "base". split; [apply list_elem_of_here|reflexivity].
  - apply list_elem_of_here.
Defined.

End ConfigFacts.

(** ** State classification *)

Module StateFacts.
Import State.

Local Open Scope Z_scope.

Lemma has_flag_bit (x p : Z) : 0 <= p -> has_flag x (2 ^ p) = Z.testbit x p.
Proof.
  intros Hp. unfold has_flag.
  assert (Hbits : forall n, 0 <= n ->
            Z.testbit (Z.land x (2 ^ p)) n = Z.testbit x p && Z.eqb p n).
  { intros n Hn. rewrite Z.land_spec, Z.pow2_bits_eqb by exact Hp.
    destruct (Z.eqb_spec p n) as [->|Hne]; [reflexivity|].
    by rewrite !andb_false_r. }
  destruct (Z.testbit x p) eqn:Hx.
  - apply Z.eqb_eq. apply Z.bits_inj'. intros n Hn.
    rewrite Hbits, Z.pow2_bits_eqb by assumption. reflexivity.
  - apply Z.eqb_neq. intros Heq.
    assert (Hc : Z.testbit (Z.land x (2 ^ p)) p = Z.testbit (2 ^ p) p) by congruence.
    rewrite Hbits, Z.pow2_bits_eqb, Z.eqb_refl in Hc by assumption.
    discriminate.
Qed.

Lemma eqb_ne (a b : Z) : a <> b -> Z.eqb a b = false.
Proof. apply Z.eqb_neq. Qed.

(** Reading one flag out of a word built with [Z.lor] from single bits. *)
Ltac read_flags :=
  repeat first
    [ rewrite Z.lor_spec
    | rewrite Z.pow2_bits_eqb by assumption
    | rewrite Z.bits_0
    | rewrite Z.eqb_refl
    | rewrite eqb_ne by congruence ];
  simpl.

Lemma NoDup_four (a b c d : Z) :
  NoDup [a; b; c; d] -> a <> b /\ a <> c /\ a <> d /\ b <> c /\ b <> d /\ c <> d.
Proof.
  intros Hnd.
  destruct (proj1 (NoDup_cons _ _) Hnd) as [Ha Hnd1].
  destruct (proj1 (NoDup_cons _ _) Hnd1) as [Hb Hnd2].
  destruct (proj1 (NoDup_cons _ _) Hnd2) as [Hc _].
  repeat split; intros ->; set_solver.
Qed.

Section Classification.
Context {K : Constants}.
Hypothesis Hflags : independent_flags K.

Lemma forced_test (self : ContainerBaseState) :
  bool_decide (force_update (state_options self) <> [])
  && bool_decide (forced self) = bool_decide (forced self).
Proof.
  unfold forced. destruct (force_update (state_options self)) as [|a l].
  - rewrite (bool_decide_eq_false_2 (_ ∈ [])) by apply not_elem_of_nil.
    apply andb_false_r.
  - by rewrite bool_decide_eq_true_2.
Qed.

(** C3 (amended). An object that was not found is [ABSENT] with no flag.
    A running container is [RUNNING] and carries none of [INITIAL],
    [NONRECOVERABLE], [RESTARTING]. Any other container is [PRESENT]; it
    carries [INITIAL] exactly when its start time is the sentinel,
    [NONRECOVERABLE] exactly when its start time is not the sentinel and
    its exit code is in the configured set, and [RESTARTING] exactly when
    the runtime reports a restart. Without a matching [force_update] entry
    a running container has no flag at all. *)
Theorem get_state_classification (self : ContainerBaseState) :
  match state_detail self with
  | NOT_FOUND => get_state self = (STATE_ABSENT, 0)
  | Detail st =>
      (get_state self).1 = (if Running st then STATE_RUNNING else STATE_PRESENT)
      /\ (has_flag (get_state self).2 STATE_FLAG_INITIAL = true
          <-> Running st = false /\ StartedAt st = INITIAL_START_TIME)
      /\ (has_flag (get_state self).2 STATE_FLAG_NONRECOVERABLE = true
          <-> Running st = false /\ StartedAt st <> INITIAL_START_TIME
              /\ ExitCode st ∈ nonrecoverable_exit_codes (state_options self))
      /\ (has_flag (get_state self).2 STATE_FLAG_RESTARTING = true
          <-> Running st = false /\ Restarting st = true)
      /\ (Running st = true -> ~ forced self -> (get_state self).2 = 0)
  end.
Proof.
  pose proof Hflags as Hbits. unfold independent_flags in Hbits.
  destruct Hbits as (bi & br & bn & bo & Hpos & Hnd & Ei & Er & En & Eo).
  destruct Hpos as (Hi & Hr & Hn & Ho).
  destruct (NoDup_four _ _ _ _ Hnd) as (? & ? & ? & ? & ? & ?).
  unfold get_state. destruct (state_detail self) as [|st]; [reflexivity|].
  fold (forced self). rewrite forced_test, Ei, Er, En, Eo.
  destruct (Running st);
    destruct (bool_decide (StartedAt st = INITIAL_START_TIME)) eqn:Hs;
    destruct (bool_decide (ExitCode st ∈ nonrecoverable_exit_codes (state_options self)))
      eqn:Hx;
    destruct (Restarting st);
    destruct (bool_decide (forced self)) eqn:Hf;
    try apply bool_decide_eq_true in Hs; try apply bool_decide_eq_false in Hs;
    try apply bool_decide_eq_true in Hx; try apply bool_decide_eq_false in Hx;
    try apply bool_decide_eq_true in Hf; try apply bool_decide_eq_false in Hf;
    cbn [fst snd];
    rewrite !has_flag_bit by assumption; read_flags;
    (split; [reflexivity|]);
    repeat split; try tauto; try congruence; try (intros; discriminate);
    try (intros (? & ? & ?); congruence); try (intros (? & ?); congruence).
Qed.

(** C4 (amended). For a container that was found, [PRESENT] or [RUNNING]
    alike, the [OUTDATED] flag is set exactly when its address is an entry
    of [force_update]; a container that was not found is [ABSENT] with no
    flag, whatever [force_update] holds. *)
Theorem get_state_outdated (self : ContainerBaseState) :
  match state_detail self with
  | NOT_FOUND =>
      get_state self = (STATE_ABSENT, 0)
      /\ has_flag (get_state self).2 STATE_FLAG_OUTDATED = false
  | Detail st =>
      has_flag (get_state self).2 STATE_FLAG_OUTDATED = true <-> forced self
  end.
Proof.
  pose proof Hflags as Hbits. unfold independent_flags in Hbits.
  destruct Hbits as (bi & br & bn & bo & Hpos & Hnd & Ei & Er & En & Eo).
  destruct Hpos as (Hi & Hr & Hn & Ho).
  destruct (NoDup_four _ _ _ _ Hnd) as (? & ? & ? & ? & ? & ?).
  unfold get_state. destruct (state_detail self) as [|st].
  - split; [reflexivity|]. cbn [snd]. rewrite Eo, has_flag_bit by assumption.
    apply Z.bits_0.
  - fold (forced self). rewrite forced_test, Ei, Er, En, Eo.
    destruct (Running st);
      destruct (bool_decide (StartedAt st = INITIAL_START_TIME));
      destruct (bool_decide
                  (ExitCode st ∈ nonrecoverable_exit_codes (state_options self)));
      destruct (Restarting st);
      destruct (bool_decide (forced self)) eqn:Hf;
      try apply bool_decide_eq_true in Hf; try apply bool_decide_eq_false in Hf;
      cbn [fst snd];
      rewrite !has_flag_bit by assumption; read_flags;
      split; try tauto; try congruence; try (intros; discriminate).
Qed.

End Classification.

#[local] Existing Instance spec_constants.

Lemma spec_constants_independent : independent_flags spec_constants.
Proof.
  exists 0, 1, 10, 11. repeat split; try lia; try reflexivity.
  apply (bool_decide_unpack (NoDup [0; 1; 10; 11])). vm_compute. exact I.
Qed.

Lemma get_state_classification_witness :
  (get_state (K := spec_constants)
     (Scenarios.web_state default_options (Detail Scenarios.never_started))).1
  = STATE_PRESENT.
Proof.
  exact (proj1 (get_state_classification (K := spec_constants)
                  spec_constants_independent
                  (Scenarios.web_state default_options
                     (Detail Scenarios.never_started)))).
Defined.

(** The exit code of a container that never started is in the
    non-recoverable set, and the container is not flagged
    [NONRECOVERABLE]. *)
Lemma get_state_nonrecoverable_counterexample :
  ExitCode Scenarios.never_started ∈ nonrecoverable_exit_codes default_options
  /\ Running Scenarios.never_started = false
  /\ get_state (K := spec_constants)
       (Scenarios.web_state default_options (Detail Scenarios.never_started))
     = (STATE_PRESENT, STATE_FLAG_INITIAL)
  /\ has_flag
       (get_state (K := spec_constants)
          (Scenarios.web_state default_options (Detail Scenarios.never_started))).2
       STATE_FLAG_NONRECOVERABLE = false.
Proof.
  split; [|split; [|split]]; try reflexivity.
  simpl. apply list_elem_of_further, list_elem_of_here.
Qed.

Lemma get_state_outdated_witness :
  has_flag
    (get_state (K := spec_constants)
       (Scenarios.web_state Scenarios.force_web (Detail Scenarios.never_started))).2
    STATE_FLAG_OUTDATED = true.
Proof.
  apply (get_state_outdated (K := spec_constants) spec_constants_independent
           (Scenarios.web_state Scenarios.force_web (Detail Scenarios.never_started))).
  apply list_elem_of_here.
Defined.

(** The address of an absent container is an entry of [force_update], and
    the container is not flagged [OUTDATED]. *)
Lemma get_state_outdated_counterexample :
  forced (Scenarios.web_state Scenarios.force_web NOT_FOUND)
  /\ get_state (K := spec_constants) (Scenarios.web_state Scenarios.force_web NOT_FOUND)
     = (STATE_ABSENT, 0)
  /\ has_flag
       (get_state (K := spec_constants)
          (Scenarios.web_state Scenarios.force_web NOT_FOUND)).2
       STATE_FLAG_OUTDATED = false.
Proof.
  split; [apply list_elem_of_here|]. split; reflexivity.
Qed.

(** *** Client selection *)

(** With the arguments in the order of the call, the list of the map is
    read first. *)
Lemma selected_clients_map_first (policy : BasePolicy) (c_map : Config.ContainerMap)
  (config : Config.ContainerConfiguration) :
  Config.map_clients c_map <> [] ->
  selected_clients policy c_map config
  = map_result (_get_client policy) (Config.map_clients c_map).
Proof.
  intros Hm. unfold selected_clients, get_clients, clients_of, map_has_clients.
  by rewrite bool_decide_eq_true_2.
Qed.

(** C1 (the code at the failing input). Map [m] names client [m1] and its
    unit [web] names client [c1]: the clients selected for [web] are those
    of the map, and the loop over them stops with [ValueError] before any
    state is reported. *)
Theorem generate_config_states_clients :
  selected_clients Scenarios.clients_policy Scenarios.clients_map
    Scenarios.web_with_client
  = Ok [[ClientName "m1"; ClientHandle 1; ClientConfig {| get_client := 1 |}]]
  /\ generate_config_states (K := spec_constants) Scenarios.clients_policy
       default_options ITEM_TYPE_CONTAINER "m" "web" None false
     = Gen [] (Some (ValueError "too many values to unpack (expected 2)")).
Proof. split; vm_compute; reflexivity. Qed.

End StateFacts.

(** ** Dependency edges *)

Module DependencyFacts.
Import Input Instances Dependency PyFacts.

(** Two generators over the same list, the second succeeding wherever the
    first does: whatever the first yields is matched by the second. *)
Lemma gen_for_related {A B C : Type} (f : A -> result (list B))
  (g : A -> result (list C)) (R : B -> C -> Prop) (l : list A) :
  (forall a ys, a ∈ l -> f a = Ok ys ->
     exists zs, g a = Ok zs /\ forall y, y ∈ ys -> exists z, z ∈ zs /\ R y z) ->
  forall y, y ∈ yielded (gen_for f l) ->
    exists z, z ∈ yielded (gen_for g l) /\ R y z.
Proof.
  induction l as [|a l IH]; intros Hfg y Hy; simpl in Hy.
  - by apply elem_of_nil in Hy.
  - destruct (f a) as [ys|e] eqn:Hf; simpl in Hy; [|by apply elem_of_nil in Hy].
    destruct (Hfg a ys (list_elem_of_here _ _) Hf) as (zs & Hg & Hrel).
    simpl. rewrite Hg. simpl.
    apply elem_of_app in Hy as [Hy|Hy].
    + destruct (Hrel _ Hy) as (z & Hz & HR). exists z. split; [|exact HR].
      apply elem_of_app. by left.
    + destruct (IH (fun a' ys' Ha' => Hfg a' ys' (list_elem_of_further _ _ _ Ha')) y Hy)
        as (z & Hz & HR).
      exists z. split; [|exact HR]. apply elem_of_app. by right.
Qed.

Lemma gen_for_yielded_from {A B : Type} (f : A -> result (list B)) (l : list A) :
  forall y, y ∈ yielded (gen_for f l) -> exists a ys, a ∈ l /\ f a = Ok ys /\ y ∈ ys.
Proof.
  induction l as [|a l IH]; intros y Hy; simpl in Hy.
  - by apply elem_of_nil in Hy.
  - destruct (f a) as [ys|e] eqn:Hf; simpl in Hy; [|by apply elem_of_nil in Hy].
    apply elem_of_app in Hy as [Hy|Hy].
    + exists a, ys. split; [apply list_elem_of_here|]. split; assumption.
    + destruct (IH _ Hy) as (a' & ys' & Ha' & Hf' & Hy').
      exists a', ys'. split; [by apply list_elem_of_further|]. split; assumption.
Qed.

(** Every address [group_instances] yields is the address of a unit that
    one of the given tuples names. *)
Lemma group_instances_keys {single_instances : bool}
  (config_ids : list (MapConfigId (item_ty single_instances)))
  (ext_map : option Config.ContainerMap) (ext_maps : gmap string Config.ContainerMap)
  (id : MapConfigId (list (option string))) :
  id ∈ yielded (group_instances config_ids ext_map ext_maps) ->
  exists di, di ∈ config_ids /\ get_map_config di = get_map_config id.
Proof.
  unfold group_instances. destruct (no_map_given ext_map ext_maps).
  { simpl. intros Hin. by apply elem_of_nil in Hin. }
  intros Hin. apply gen_for_yielded_from in Hin as ([[mn cn] items] & ys & Hg & Hbody & Hy).
  pose proof (groupby_members get_map_config (sorted get_map_config config_ids)) as Hm.
  rewrite Forall_forall in Hm. destruct (Hm _ Hg) as [Hne Hall]. simpl in Hne, Hall.
  destruct items as [|di items]; [congruence|].
  apply Forall_cons in Hall as [[Hk Hdi] _].
  exists di. split; [by apply sorted_elem in Hdi|].
  rewrite Hk. simpl in Hbody.
  destruct (lookup_map ext_map ext_maps mn) as [c_map|e]; simpl in Hbody; [|discriminate].
  destruct (Config.get_existing c_map cn) as [config|]; [|discriminate].
  destruct (covers_all config _); injection Hbody as <-;
    apply list_elem_of_singleton in Hy as ->; reflexivity.
Qed.

Section Items.

Variable merge_from_obj :
  Config.ContainerConfiguration -> Config.ContainerConfiguration
  -> Config.ContainerConfiguration.
Variable depth : nat.

Local Abbreviation dependency_items := (dependency_items merge_from_obj depth).

(** C8 (amended). Reverse mode does not invert the edges: for every
    forward edge from unit [A] to an address of unit [B], reverse mode
    yields an entry whose key is the address of [A] with the wildcard
    instance tuple and whose set contains the pair [(map, B)]; every key
    of reverse mode carries the wildcard instance tuple and the name of the
    map, and its set holds [(map, unit)] pairs only. *)
Theorem dependency_items_reverse_of_forward (self : Config.ContainerMap) :
  (forall (a : string * string) (ids : list (MapConfigId (list (option string))))
          (b : MapConfigId (list (option string))),
      ((a, ids) : dep_item false) ∈ yielded (dependency_items self false) ->
      b ∈ ids ->
      exists dset : list (string * string),
        ((Build_MapConfigId a.1 a.2 [None], dset) : dep_item true)
          ∈ yielded (dependency_items self true)
        /\ get_map_config b ∈ dset)
  /\ (forall (key : MapConfigId (list (option string))) (dset : list (string * string)),
        ((key, dset) : dep_item true) ∈ yielded (dependency_items self true) ->
        instances key = [None] /\ map_name key = Config._name self).
Proof.
  unfold Dependency.dependency_items.
  destruct (if Config._extended self then _ else _) as [ext_map|e].
  2: { split; simpl; intros; exfalso; eapply elem_of_nil; eassumption. }
  split.
  - intros a ids b Hedge Hb.
    destruct (gen_for_related (forward_item self ext_map) (reverse_item self ext_map)
                (fun (y : dep_item false) (z : dep_item true) =>
                   z.1 = Build_MapConfigId y.1.1 y.1.2 [None]
                   /\ forall b, b ∈ y.2 -> get_map_config b ∈ z.2)
                (Config.iter_map ext_map)) with (y := (a, ids)) as (z & Hz & Hkey & Hset).
    + intros kv ys _ Hf. unfold forward_item, reverse_item in *.
      destruct (_get_dep_set self ext_map kv.2) as [ds|e]; simpl in *; [|discriminate].
      eexists. split; [reflexivity|].
      destruct (consume _) as [gs|e] eqn:Hgs; [|discriminate].
      injection Hf as <-. intros y ->%list_elem_of_singleton.
      eexists. split; [apply list_elem_of_here|]. simpl. split; [reflexivity|].
      intros b' Hb'. unfold pyset in *. rewrite elem_of_remove_dups in Hb'.
      rewrite elem_of_remove_dups.
      unfold consume in Hgs.
      destruct (raised (group_instances (single_instances := true) ds (Some ext_map) ∅))
        eqn:Hr; [discriminate|].
      injection Hgs as <-.
      destruct (group_instances_keys (single_instances := true) _ _ _ _ Hb')
        as (di & Hdi & Hk).
      rewrite <- Hk. apply list_elem_of_fmap. eauto.
    + exact Hedge.
    + destruct z as [key dset]. simpl in Hkey, Hset. subst key.
      exists dset. split; [exact Hz|]. by apply Hset.
  - intros key dset Hin.
    apply gen_for_yielded_from in Hin as (kv & ys & _ & Hbody & Hy).
    unfold reverse_item in Hbody.
    destruct (_get_dep_set self ext_map kv.2); simpl in Hbody; [|discriminate].
    injection Hbody as <-. apply list_elem_of_singleton in Hy.
    injection Hy as -> _. split; reflexivity.
Qed.

End Items.

Lemma dependency_items_reverse_of_forward_witness :
  exists dset : list (string * string),
    ((Build_MapConfigId "m" "web" [None], dset) : dep_item true)
      ∈ yielded (dependency_items Config.merge_from_obj_spec 10 Scenarios.uses_map true)
    /\ ("m", "data") ∈ dset.
Proof.
  apply (proj1 (dependency_items_reverse_of_forward Config.merge_from_obj_spec 10
                  Scenarios.uses_map)
           ("m", "web") [Build_MapConfigId "m" "data" [None]]
           (Build_MapConfigId "m" "data" [None])).
  - vm_compute. apply list_elem_of_here.
  - apply list_elem_of_here.
Defined.

(** Forward mode has the edge from [web] to [data]; no entry of reverse
    mode maps [data] to a set that contains [web]. *)
Lemma dependency_items_reverse_counterexample :
  ((("m", "web"), [Build_MapConfigId "m" "data" [None]]) : dep_item false)
    ∈ yielded (dependency_items Config.merge_from_obj_spec 10 Scenarios.uses_map false)
  /\ forall (key : MapConfigId (list (option string))) (dset : list (string * string)),
       ((key, dset) : dep_item true)
         ∈ yielded (dependency_items Config.merge_from_obj_spec 10 Scenarios.uses_map true) ->
       config_name key = "data" -> ("m", "web") ∉ dset.
Proof.
  split.
  - vm_compute. apply list_elem_of_here.
  - intros key dset Hin Hk.
    vm_compute in Hin.
    apply elem_of_cons in Hin as [Heq|Hin].
    + injection Heq as -> ->. discriminate.
    + apply list_elem_of_singleton in Hin. injection Hin as -> ->.
      apply not_elem_of_nil.
Qed.

End DependencyFacts.

(** ** Integrity check *)

Module IntegrityFacts.
Import Integrity.

Lemma append_cons (c : ascii) (a b : string) : String c a +:+ b = String c (a +:+ b).
Proof. reflexivity. Qed.

Lemma append_nil_r (a : string) : a +:+ "" = a.
Proof. induction a as [|c a IH]; [reflexivity|]. by rewrite append_cons, IH. Qed.

Lemma string_app_assoc (a b c : string) : (a +:+ b) +:+ c = a +:+ (b +:+ c).
Proof.
  induction a as [|x a IH]; [reflexivity|]. by rewrite !append_cons, IH.
Qed.

Lemma prefix_app (x post : string) : String.prefix x (x +:+ post) = true.
Proof.
  induction x as [|c x IH].
  - change ("" +:+ post) with post. destruct post; reflexivity.
  - rewrite append_cons. cbn [String.prefix].
    destruct (Ascii.ascii_dec c c); [exact IH|congruence].
Qed.

Lemma mentions_app (pre x post : string) : mentions (pre +:+ x +:+ post) x = true.
Proof.
  induction pre as [|c pre IH].
  - change ("" +:+ x +:+ post) with (x +:+ post).
    destruct (x +:+ post) eqn:E; cbn [mentions]; rewrite <- E, prefix_app; reflexivity.
  - rewrite append_cons. cbn [mentions]. rewrite IH. apply orb_true_r.
Qed.

Lemma join_mentions (sep x : string) (l : list string) :
  x ∈ l -> exists pre post, join sep l = pre +:+ x +:+ post.
Proof.
  induction l as [|y l IH]; intros Hx; [by apply elem_of_nil in Hx|].
  apply elem_of_cons in Hx as [->|Hx].
  - destruct l as [|z l].
    + exists "", "". change (join sep [y]) with y.
      change ("" +:+ y +:+ "") with (y +:+ ""). by rewrite append_nil_r.
    + exists "", (sep +:+ join sep (z :: l)). reflexivity.
  - destruct (IH Hx) as (pre & post & E). destruct l as [|z l].
    + by apply elem_of_nil in Hx.
    + exists (y +:+ sep +:+ pre), post.
      change (join sep (y :: z :: l)) with (y +:+ sep +:+ join sep (z :: l)).
      rewrite E, !string_app_assoc. reflexivity.
Qed.

(** The message of a rule names every identifier the rule found. *)
Lemma raise_if_mentions (names : list string) (prefix suffix x : string) :
  x ∈ names ->
  exists msg, raise_if names prefix suffix = Raise (MapIntegrityError msg)
              /\ mentions msg x = true.
Proof.
  intros Hx. destruct (join_mentions ", " x names Hx) as (pre & post & E).
  unfold raise_if. destruct names as [|y l]; [by apply elem_of_nil in Hx|].
  eexists. split; [reflexivity|].
  rewrite E.
  replace (prefix +:+ (pre +:+ x +:+ post) +:+ suffix)
    with ((prefix +:+ pre) +:+ x +:+ (post +:+ suffix))
    by (rewrite !string_app_assoc; reflexivity).
  apply mentions_app.
Qed.

Lemma raise_if_cases (names : list string) (prefix suffix : string) :
  (names = [] /\ raise_if names prefix suffix = Ok tt)
  \/ exists msg, raise_if names prefix suffix = Raise (MapIntegrityError msg).
Proof. destruct names; [left; split; reflexivity|right; eexists; reflexivity]. Qed.

Lemma elem_of_flat_map {A B : Type} (f : A -> list B) (l : list A) (y : B) :
  y ∈ flat_map f l <-> exists x, x ∈ l /\ y ∈ f x.
Proof.
  rewrite list_elem_of_In, in_flat_map. split; intros (x & Hx & Hy); exists x;
    by rewrite ?list_elem_of_In in *.
Qed.

Lemma missing_shares_elem (self : Config.ContainerMap) (items : list container_items)
  (x : string) :
  x ∈ missing_shares self items
  <-> (exists it, it ∈ items /\ x ∈ item_uses it) /\ x ∉ volume_shared self items.
Proof.
  unfold missing_shares, set_diff, pyset.
  rewrite list_elem_of_filter, !elem_of_remove_dups, elem_of_flat_map. tauto.
Qed.

Lemma raise_if_Ok (names : list string) (prefix suffix : string) :
  raise_if names prefix suffix = Ok tt <-> names = [].
Proof. by destruct names. Qed.

Lemma set_diff_nil (a b : list string) :
  set_diff a b = [] <-> forall x, x ∈ a -> x ∈ b.
Proof.
  unfold set_diff. induction a as [|y a IH].
  - split; [intros _ x Hx; by apply elem_of_nil in Hx|done].
  - rewrite filter_cons. destruct (decide (y ∉ b)) as [Hy|Hy].
    + split; [done|]. intros H. exfalso. apply Hy, H, list_elem_of_here.
    + rewrite IH. apply dec_stable in Hy. split.
      * intros H x [->|Hx]%elem_of_cons; [done|by apply H].
      * intros H x Hx. apply H. by apply list_elem_of_further.
Qed.

Lemma set_inter_nil (a b : list string) :
  set_inter a b = [] <-> forall x, x ∈ a -> x ∉ b.
Proof.
  unfold set_inter. induction a as [|y a IH].
  - split; [intros _ x Hx; by apply elem_of_nil in Hx|done].
  - rewrite filter_cons. destruct (decide (y ∈ b)) as [Hy|Hy].
    + split; [done|]. intros H. exfalso. by apply (H y (list_elem_of_here _ _)).
    + rewrite IH. split.
      * intros H x [->|Hx]%elem_of_cons; [done|by apply H].
      * intros H x Hx. apply H. by apply list_elem_of_further.
Qed.

Lemma elem_of_concat {A : Type} (x : A) (ls : list (list A)) :
  x ∈ concat ls <-> exists l, x ∈ l /\ l ∈ ls.
Proof.
  induction ls as [|l ls IH]; cbn [concat].
  - split; [by intros ?%elem_of_nil|by intros (l & _ & ?%elem_of_nil)].
  - rewrite elem_of_app, IH. split.
    + intros [H|(l' & H1 & H2)]; [exists l; split; [done|apply list_elem_of_here]|].
      exists l'. split; [done|by apply list_elem_of_further].
    + intros (l' & H1 & [->|H2]%elem_of_cons); [by left|]. right. by exists l'.
Qed.

Lemma bind_Ok_tt (r k : result unit) : (r ≫= fun _ => k) = Ok tt -> r = Ok tt /\ k = Ok tt.
Proof. destruct r as [[]|e]; [by split|done]. Qed.

Lemma raise_if_members_Ok (l : list Config.group_member) (prefix suffix : string) :
  raise_if_members l prefix suffix = Ok tt <-> l = [].
Proof.
  destruct l as [|m l]; [done|]. unfold raise_if_members.
  by destruct (first_tuple (m :: l)).
Qed.

Lemma iter_map_unit (self : Config.ContainerMap) (c_name : string)
  (c : Config.ContainerConfiguration) :
  (c_name, c) ∈ Config.iter_map self
  <-> Config._containers self !! c_name = Some c /\ Config.abstract c = false.
Proof.
  unfold Config.iter_map. rewrite list_elem_of_filter, elem_of_map_to_list.
  cbn [fst snd]. tauto.
Qed.

Lemma instance_names_elem (c_name t : string) (l : list string) :
  t ∈ _get_instance_names c_name l
  <-> (l = [] /\ t = c_name) \/ exists i, i ∈ l /\ t = c_name +:+ "." +:+ i.
Proof.
  unfold _get_instance_names. destruct l as [|i0 l].
  - rewrite list_elem_of_singleton. split; [by left|].
    intros [[_ ->]|(i & []%elem_of_nil & _)]; done.
  - rewrite list_elem_of_fmap. split.
    + intros (i & -> & Hi). right. by exists i.
    + intros [[? _]|(i & Hi & ->)]; [done|]. by exists i.
Qed.

Lemma volume_sharing_test (c : Config.ContainerConfiguration) :
  bool_decide (Config.shares c ≠ []) || bool_decide (Config.binds c ≠ [])
  || bool_decide (Config.uses c ≠ []) = true
  <-> volume_sharing c.
Proof.
  unfold volume_sharing. rewrite !orb_true_iff, !bool_decide_eq_true. tauto.
Qed.

(** The names [check_integrity] collects as shared or attached are the
    targets that resolve. *)
Lemma volume_shared_resolved (self ext_map : Config.ContainerMap) (target : string) :
  target ∈ volume_shared self (all_items self ext_map)
  <-> uses_resolved self ext_map target.
Proof.
  unfold volume_shared, all_items, uses_resolved. rewrite elem_of_app. split.
  - intros [Hs|Ha].
    + apply elem_of_flat_map in Hs as (it & Hit & Ht).
      apply list_elem_of_fmap in Hit as ([c_name c] & -> & Hkv).
      apply iter_map_unit in Hkv as [Hc Habs]. exists c_name, c.
      do 2 (split; [done|]). left. cbn [shared _get_container_items fst snd] in Ht.
      destruct (_ || _) eqn:Hsh; [|by apply elem_of_nil in Ht].
      split; [by apply volume_sharing_test|]. by apply instance_names_elem.
    + unfold attached_names in Ha.
      assert (exists c_name a, (c_name, a)
                ∈ flat_map item_attaches
                    (map (fun kv => _get_container_items self kv.1 kv.2)
                       (Config.iter_map ext_map))
              /\ target = if Config.use_attached_parent_name self
                          then c_name +:+ "." +:+ a else a) as (c_name & a & Hin & Ht).
      { destruct (Config.use_attached_parent_name self);
          apply list_elem_of_fmap in Ha as ([c_name a] & -> & Hin);
          by exists c_name, a. }
      apply elem_of_flat_map in Hin as (it & Hit & Hin).
      apply list_elem_of_fmap in Hit as ([c_name' c] & -> & Hkv).
      cbn [item_attaches _get_container_items fst snd] in Hin.
      apply list_elem_of_fmap in Hin as (a' & [= -> ->] & Ha').
      apply iter_map_unit in Hkv as [Hc Habs]. exists c_name', c.
      do 2 (split; [done|]). right. by exists a'.
  - intros (c_name & c & Hc & Habs & [[Hsh Ht]|(a & Ha & Ht)]).
    + left. apply elem_of_flat_map. exists (_get_container_items self c_name c).
      split; [apply list_elem_of_fmap; exists (c_name, c); split;
              [done|by apply iter_map_unit]|].
      cbn [shared _get_container_items]. apply volume_sharing_test in Hsh.
      rewrite Hsh. by apply instance_names_elem.
    + right. unfold attached_names.
      assert ((c_name, a)
              ∈ flat_map item_attaches
                  (map (fun kv => _get_container_items self kv.1 kv.2)
                     (Config.iter_map ext_map))) as Hin.
      { apply elem_of_flat_map. exists (_get_container_items self c_name c).
        split; [apply list_elem_of_fmap; exists (c_name, c); split;
                [done|by apply iter_map_unit]|].
        cbn [item_attaches _get_container_items]. apply list_elem_of_fmap.
        by exists a. }
      destruct (Config.use_attached_parent_name self); apply list_elem_of_fmap;
        by exists (c_name, a).
Qed.

(** A rule that raises says which rule it is. *)
Lemma raise_if_prefix (names : list string) (prefix suffix : string) (e : exn) :
  raise_if names prefix suffix = Raise e ->
  exists msg, e = MapIntegrityError msg /\ String.prefix prefix msg = true.
Proof.
  destruct names as [|y l]; [done|]. intros [= <-]. eexists. split; [done|].
  apply prefix_app.
Qed.

Lemma first_tuple_elem (l : list Config.group_member) (i : nat) :
  first_tuple l = Some i -> exists m, m ∈ l /\ is_tuple m = true.
Proof.
  revert i. induction l as [|m l IH]; intros i; cbn [first_tuple]; [done|].
  destruct (is_tuple m) eqn:Hm.
  - intros _. exists m. split; [apply list_elem_of_here|done].
  - destruct (first_tuple l) as [j|]; [|done]. intros _.
    destruct (IH j eq_refl) as (m' & Hin & Hm'). exists m'.
    split; [by apply list_elem_of_further|done].
Qed.

Lemma raise_if_members_cases (l : list Config.group_member) (prefix suffix : string) :
  (l = [] /\ raise_if_members l prefix suffix = Ok tt)
  \/ (exists msg, raise_if_members l prefix suffix = Raise (MapIntegrityError msg)
                  /\ String.prefix prefix msg = true)
  \/ (exists msg m, raise_if_members l prefix suffix = Raise (TypeError msg)
                    /\ m ∈ l /\ is_tuple m = true).
Proof.
  destruct l as [|m0 l]; [by left|]. right. unfold raise_if_members.
  destruct (first_tuple (m0 :: l)) as [i|] eqn:Hi.
  - right. destruct (first_tuple_elem _ _ Hi) as (m & Hin & Hm). by eexists _, m.
  - left. eexists. split; [done|]. apply prefix_app.
Qed.

(** A member of [missing_refs] is a member of a group of the map. *)
Lemma missing_refs_member (self : Config.ContainerMap) (items : list container_items)
  (m : Config.group_member) :
  m ∈ missing_refs self items ->
  exists g members, Config.groups self !! g = Some members /\ m ∈ members.
Proof.
  unfold missing_refs, pyset.
  rewrite list_elem_of_filter, elem_of_remove_dups, elem_of_concat.
  intros (_ & members & Hm & Hin).
  apply list_elem_of_fmap in Hin as ([g members'] & -> & Hin).
  apply elem_of_map_to_list in Hin. by exists g, members'.
Qed.

Lemma no_groups_rules (self : Config.ContainerMap) (items : list container_items) :
  Config.groups self = ∅ ->
  ambiguous_names self items = [] /\ missing_refs self items = [].
Proof.
  intros Hg. unfold ambiguous_names, missing_refs, map_keys.
  by rewrite Hg, map_to_list_empty.
Qed.

Lemma count_of_NoDup (x : string) (l : list string) : NoDup l -> count_of x l <= 1.
Proof.
  unfold count_of. induction 1 as [|y l Hy Hl IH]; [cbn; lia|].
  rewrite filter_cons. destruct (decide (y = x)) as [->|Hne]; [|exact IH].
  cbn [length].
  assert (filter (fun y => y = x) l = []) as ->; [|cbn; lia].
  destruct (filter (fun y => y = x) l) as [|z r] eqn:E; [done|].
  assert (z ∈ filter (fun y => y = x) l) as Hz by (rewrite E; apply list_elem_of_here).
  apply list_elem_of_filter in Hz as [-> Hz]. done.
Qed.

Lemma duplicated_names_NoDup (l : list string) : NoDup l -> duplicated_names l = [].
Proof.
  intros Hnd. unfold duplicated_names.
  destruct (filter (fun x => 1 < count_of x l) (pyset l)) as [|z r] eqn:E; [done|].
  assert (z ∈ filter (fun x => 1 < count_of x l) (pyset l)) as Hz
    by (rewrite E; apply list_elem_of_here).
  apply list_elem_of_filter in Hz as [Hz _].
  pose proof (count_of_NoDup z l Hnd). lia.
Qed.

Section Check.

Variable merge_from_obj :
  Config.ContainerConfiguration -> Config.ContainerConfiguration
  -> Config.ContainerConfiguration.
Variable depth : nat.

Local Abbreviation check_integrity := (check_integrity merge_from_obj depth).

Variables (self ext_map : Config.ContainerMap) (check_duplicates : bool).
Hypothesis Hext : Config.get_extended_map merge_from_obj depth self = Ok ext_map.

Local Abbreviation items := (all_items self ext_map).

(** A [uses] target of a unit that does not resolve. *)
Local Abbreviation unresolved c_name c u :=
  ((c_name, c) ∈ Config.iter_map ext_map /\ u ∈ Config.uses c
   /\ ~ uses_resolved self ext_map (Config.volume u)).

Lemma check_integrity_items :
  Config.iter_map ext_map <> [] ->
  check_integrity self check_duplicates = check_items self check_duplicates items.
Proof.
  intros Hne. unfold Integrity.check_integrity, all_items. rewrite Hext.
  cbn [mbind result_bind]. by destruct (Config.iter_map ext_map).
Qed.

Lemma unresolved_missing (c_name : string) (c : Config.ContainerConfiguration)
  (u : Config.SharedVolume) :
  unresolved c_name c u -> Config.volume u ∈ missing_shares self items.
Proof.
  intros (Hkv & Hu & Hun). apply missing_shares_elem. split.
  - exists (_get_container_items self c_name c). split.
    + apply list_elem_of_fmap. by exists (c_name, c).
    + cbn [item_uses _get_container_items]. apply list_elem_of_fmap. by exists u.
  - by rewrite volume_shared_resolved.
Qed.

(** A passed check leaves no [uses] target unresolved. *)
Lemma check_integrity_resolved :
  check_integrity self check_duplicates = Ok tt ->
  forall c_name c u, (c_name, c) ∈ Config.iter_map ext_map -> u ∈ Config.uses c ->
    uses_resolved self ext_map (Config.volume u).
Proof.
  intros Hrun c_name c u Hkv Hu.
  destruct (decide (Config.volume u ∈ volume_shared self items)) as [Hin|Hnot];
    [by apply volume_shared_resolved|].
  exfalso. rewrite check_integrity_items in Hrun
    by (intros E; rewrite E in Hkv; by apply elem_of_nil in Hkv).
  unfold check_items in Hrun.
  apply bind_Ok_tt in Hrun as [_ Hrun]. apply bind_Ok_tt in Hrun as [_ Hrun].
  apply bind_Ok_tt in Hrun as [_ Hrun].
  apply bind_Ok_tt in Hrun as [Hsh%raise_if_Ok _].
  assert (Config.volume u ∈ missing_shares self items) as Hm.
  { apply (unresolved_missing c_name c u). split; [done|]. split; [done|].
    by rewrite <- volume_shared_resolved. }
  rewrite Hsh in Hm. by apply elem_of_nil in Hm.
Qed.

(** With an unresolved target the check raises, and the exception is
    that of the first rule that finds something. *)
Lemma check_integrity_unresolved_raises :
  (exists c_name c u, unresolved c_name c u) ->
  exists e,
    check_integrity self check_duplicates = Raise e
    /\ ((exists msg, e = MapIntegrityError msg
           /\ (String.prefix ambiguous_msg msg = true
               \/ String.prefix missing_ref_msg msg = true
               \/ String.prefix duplicate_msg msg = true
               \/ String.prefix missing_share_msg msg = true))
        \/ (exists msg g members m,
              e = TypeError msg /\ Config.groups self !! g = Some members
              /\ m ∈ members /\ is_tuple m = true)).
Proof.
  intros (c_name & c & u & Hun).
  pose proof (unresolved_missing _ _ _ Hun) as Hm. destruct Hun as (Hkv & _ & _).
  rewrite check_integrity_items
    by (intros E; rewrite E in Hkv; by apply elem_of_nil in Hkv).
  unfold check_items.
  destruct (raise_if (ambiguous_names self items) ambiguous_msg ".") as [[]|e1] eqn:H1.
  2:{ destruct (raise_if_prefix _ _ _ _ H1) as (msg & -> & Hp).
      eexists. split; [done|]. left. exists msg. split; [done|]. by left. }
  cbn [mbind result_bind].
  destruct (raise_if_members_cases (missing_refs self items) missing_ref_msg ".")
    as [[_ ->]|[(msg & -> & Hp)|(msg & m & -> & Hin & Hm')]].
  2:{ eexists. split; [done|]. left. exists msg. split; [done|]. right. by left. }
  2:{ eexists. split; [done|]. right.
      destruct (missing_refs_member _ _ _ Hin) as (g & members & Hg & Hmem).
      by exists msg, g, members, m. }
  cbn [mbind result_bind].
  destruct (if check_duplicates
            then raise_if (duplicated_names (volume_shared self items)) duplicate_msg "."
            else Ok tt) as [[]|e3] eqn:H3.
  2:{ destruct check_duplicates; [|done].
      destruct (raise_if_prefix _ _ _ _ H3) as (msg & -> & Hp).
      eexists. split; [done|]. left. exists msg. split; [done|].
      right. right. by left. }
  cbn [mbind result_bind].
  destruct (raise_if_mentions _ missing_share_msg "." _ Hm) as (msg & Hr & _).
  rewrite Hr. cbn [mbind result_bind]. eexists. split; [done|].
  left. exists msg. split; [done|]. do 3 right.
  by destruct (raise_if_prefix _ _ _ _ Hr) as (msg' & [= <-] & Hp).
Qed.

(** On a map without groups, and without a volume shared or attached
    twice when duplicates are checked, the exception is the one of the
    [uses] rule and names every unresolved target. *)
Lemma check_integrity_unresolved_named :
  Config.groups self = ∅ ->
  (check_duplicates = true -> NoDup (volume_shared self items)) ->
  (exists c_name c u, unresolved c_name c u) ->
  exists msg,
    check_integrity self check_duplicates = Raise (MapIntegrityError msg)
    /\ String.prefix missing_share_msg msg = true
    /\ forall c_name c u, unresolved c_name c u ->
         mentions msg (Config.volume u) = true.
Proof.
  intros Hg Hdup (c_name0 & c0 & u0 & Hun0).
  pose proof (unresolved_missing _ _ _ Hun0) as Hm0.
  rewrite check_integrity_items
    by (destruct Hun0 as (Hkv & _); intros E; rewrite E in Hkv;
        by apply elem_of_nil in Hkv).
  unfold check_items. destruct (no_groups_rules self items Hg) as [-> ->].
  cbn [raise_if raise_if_members mbind result_bind].
  replace (if check_duplicates
           then raise_if (duplicated_names (volume_shared self items)) duplicate_msg "."
           else Ok tt) with (Ok tt : result unit)
    by (destruct check_duplicates; [|done];
        by rewrite (duplicated_names_NoDup _ (Hdup eq_refl))).
  cbn [mbind result_bind].
  destruct (raise_if_mentions _ missing_share_msg "." _ Hm0) as (msg & Hr & _).
  rewrite Hr. cbn [mbind result_bind]. exists msg. split; [done|]. split.
  - by destruct (raise_if_prefix _ _ _ _ Hr) as (msg' & [= <-] & Hp).
  - intros c_name c u Hun.
    destruct (raise_if_mentions _ missing_share_msg "." _
                (unresolved_missing _ _ _ Hun)) as (msg' & Hr' & Hmen).
    congruence.
Qed.

End Check.




End IntegrityFacts.

(** ** Merging keyword arguments *)

Module KwargsFacts.
Import Kwargs.

Lemma entries_get_set (k k' : string) (v : val) (es : list (string * val)) :
  entries_get k (entries_set k' v es)
  = if bool_decide (k' = k) then Some v else entries_get k es.
Proof.
  induction es as [|[k0 v0] es IH]; simpl.
  - reflexivity.
  - destruct (bool_decide (k0 = k')) eqn:E0; simpl.
    + apply bool_decide_eq_true in E0 as ->.
      destruct (bool_decide (k' = k)); reflexivity.
    + apply bool_decide_eq_false in E0. rewrite IH.
      destruct (bool_decide (k0 = k)) eqn:E1; [|reflexivity].
      apply bool_decide_eq_true in E1 as ->.
      by rewrite bool_decide_eq_false_2 by congruence.
Qed.

Lemma entries_set_keeps (k k' : string) (v : val) (es : list (string * val)) :
  is_Some (entries_get k es) -> is_Some (entries_get k (entries_set k' v es)).
Proof. rewrite entries_get_set. case_bool_decide; eauto. Qed.

Lemma entries_update_keeps (k : string) (other es : list (string * val)) :
  is_Some (entries_get k es) -> is_Some (entries_get k (entries_update es other)).
Proof.
  unfold entries_update. revert es.
  induction other as [|[k' v] other IH]; intros es Hes; simpl; [exact Hes|].
  apply IH. by apply entries_set_keeps.
Qed.

Lemma kept_refl (h : heap) : kept h h.
Proof. intros l es Hl. eauto. Qed.

Lemma kept_trans (h1 h2 h3 : heap) : kept h1 h2 -> kept h2 h3 -> kept h1 h3.
Proof.
  intros H12 H23 l es Hl. destruct (H12 _ _ Hl) as (es2 & Hl2 & Hk2).
  destruct (H23 _ _ Hl2) as (es3 & Hl3 & Hk3). eauto.
Qed.

(** Replacing the object at [l] by one that keeps its keys. *)
Lemma kept_insert (h : heap) (l : loc) (o o' : obj) :
  h !! l = Some o ->
  (forall es, o = ODict es ->
     exists es', o' = ODict es'
                 /\ forall k, is_Some (entries_get k es) -> is_Some (entries_get k es')) ->
  kept h (<[l := o']> h).
Proof.
  intros Hl Ho l' es Hl'. destruct (decide (l' = l)) as [Heq|Hne].
  - subst l'. rewrite Hl in Hl'. injection Hl' as ->.
    destruct (Ho _ eq_refl) as (es' & -> & Hk). exists es'. split; [|exact Hk].
    apply list_lookup_insert_eq. eapply lookup_lt_Some. exact Hl.
  - exists es. split; [|auto]. by rewrite list_lookup_insert_ne.
Qed.

Lemma kept_alloc (h : heap) (o : obj) : kept h (alloc h o).1.
Proof.
  intros l es Hl. exists es. split; [|auto]. simpl.
  rewrite lookup_app_l; [exact Hl|]. eapply lookup_lt_Some. exact Hl.
Qed.

Lemma kept_setitem (h : heap) (kw : loc) (key : string) (v : val) :
  kept h (setitem h kw key v).
Proof.
  unfold setitem. destruct (h !! kw) as [[| |es]|] eqn:Hkw; try apply kept_refl.
  eapply kept_insert; [exact Hkw|]. intros es0 [= <-].
  eexists. split; [reflexivity|]. intros k. apply entries_set_keeps.
Qed.

Lemma kept_extend (h : heap) (kw_item : val) (items : list val) :
  kept h (extend h kw_item items).1.
Proof.
  unfold extend. destruct kw_item as [| | | |kl]; try apply kept_refl.
  destruct (h !! kl) as [[|ys|]|] eqn:Hkl; try apply kept_refl. simpl.
  eapply kept_insert; [exact Hkl|]. intros es [=].
Qed.

Lemma kept_update (h : heap) (kw_item : val) (entries : list (string * val)) :
  kept h (update h kw_item entries).1.
Proof.
  unfold update. destruct kw_item as [| | | |kl]; try apply kept_refl.
  destruct (h !! kl) as [[| |ks]|] eqn:Hkl; try apply kept_refl. simpl.
  eapply kept_insert; [exact Hkl|]. intros es [= <-].
  eexists. split; [reflexivity|]. intros k. apply entries_update_keeps.
Qed.

Lemma kept_update_item (kw : loc) (key : string) (u_item : val) (h : heap) :
  kept h (update_item kw key u_item h).1.
Proof.
  unfold update_item. destruct (falsy h u_item); [apply kept_refl|].
  destruct (h !! kw) as [[| |kwargs]|]; try apply kept_refl.
  destruct u_item as [| | | |l]; try apply kept_setitem.
  destruct (h !! l) as [[xs|xs|es]|]; try apply kept_setitem.
  - destruct (falsy h _); [apply kept_setitem|apply kept_extend].
  - destruct (falsy h _); [|apply kept_extend]. simpl.
    eapply kept_trans; [apply (kept_alloc h (OList xs))|apply kept_setitem].
  - destruct (falsy h _); [|apply kept_update]. simpl.
    eapply kept_trans; [apply (kept_alloc h (ODict es))|apply kept_setitem].
Qed.

Lemma kept_update_items (kw d : loc) (size : nat) (n : nat) :
  forall i h, kept h (update_items kw d size i n h).1.
Proof.
  induction n as [|n IH]; intros i h; simpl.
  - destruct (h !! d) as [[| |es]|]; try apply kept_refl.
    case_bool_decide; apply kept_refl.
  - destruct (h !! d) as [[| |es]|]; try apply kept_refl.
    case_bool_decide; [apply kept_refl|].
    destruct (es !! i) as [[key u_item]|]; [|apply kept_refl].
    pose proof (kept_update_item kw key u_item h) as Hstep.
    destruct (update_item kw key u_item h) as [h' [e|]]; [exact Hstep|].
    eapply kept_trans; [exact Hstep|apply IH].
Qed.

Lemma kept_update_kwargs (kw : loc) (updates : list val) :
  forall h, kept h (update_kwargs h kw updates).1.
Proof.
  induction updates as [|upd rest IH]; intros h; simpl; [apply kept_refl|].
  destruct (falsy h upd); [apply IH|].
  destruct upd as [| | | |d]; try apply kept_refl.
  destruct (h !! d) as [[| |es]|]; try apply kept_refl.
  pose proof (kept_update_items kw d (length es) (length es) 0 h) as Hloop.
  destruct (update_items kw d (length es) 0 (length es) h) as [h' [e|]]; [exact Hloop|].
  eapply kept_trans; [exact Hloop|apply IH].
Qed.

Lemma entries_get_elem (k : string) (v : val) (es : list (string * val)) :
  entries_get k es = Some v -> (k, v) ∈ es.
Proof.
  induction es as [|[k' v'] es IH]; simpl; [discriminate|].
  case_bool_decide as Hk.
  - intros [= ->]. subst k'. apply list_elem_of_here.
  - intros Hg. apply list_elem_of_further. by apply IH.
Qed.

Lemma entries_set_elem (k k' : string) (v v' : val) (es : list (string * val)) :
  (k', v') ∈ entries_set k v es -> (k', v') = (k, v) \/ (k', v') ∈ es.
Proof.
  induction es as [|[k0 v0] es IH]; simpl.
  - intros Hin%list_elem_of_singleton. by left.
  - case_bool_decide as Hk.
    + intros [Heq|Hin]%elem_of_cons; [by left|]. right. by apply list_elem_of_further.
    + intros [Heq|Hin]%elem_of_cons.
      * right. rewrite Heq. apply list_elem_of_here.
      * destruct (IH Hin) as [Heq|Hin']; [by left|].
        right. by apply list_elem_of_further.
Qed.

Section Separate.

Variables (h0 : heap) (kw : loc) (updates : list val) (k : string).
Hypothesis Hsep : separate h0 kw updates.
Hypothesis Hfalsy : only_falsy h0 kw updates k.

Local Abbreviation inv := (update_inv h0 kw updates k).
Local Abbreviation storable := (storable h0 kw updates).

Lemma inv_start : inv h0.
Proof.
  destruct Hsep as [[es Hkw] Hvalid Hupd Hvals]. split.
  - exists es. split; [exact Hkw|]. split.
    + unfold lookup_key. by rewrite Hkw.
    + intros key' l Hin. destruct (Hvals _ _ _ Hkw Hin) as [Hne Hnot].
      split; [exact Hne|]. intros d es_d Hd _ ->. by apply Hnot.
  - auto.
  - auto.
  - eauto.
Qed.

Lemma falsy_stable (h : heap) (v : val) :
  inv h -> falsy h0 v = true -> v <> VRef kw -> falsy h v = true.
Proof.
  intros Hinv Hv Hne. destruct v as [| | | |l]; try exact Hv.
  simpl in Hv. destruct (h0 !! l) as [o|] eqn:Hl; [|discriminate].
  simpl. rewrite (inv_empty _ _ _ _ _ Hinv l o); [exact Hv| |exact Hl|exact Hv].
  congruence.
Qed.

Lemma kw_not_update : forall d es_d,
  VRef d ∈ updates -> h0 !! d = Some (ODict es_d) -> d <> kw.
Proof. intros d es_d Hd _ ->. by apply (sep_updates _ _ _ Hsep). Qed.

Lemma setitem_inv (h : heap) (key : string) (v : val) :
  inv h -> key <> k -> storable v -> inv (setitem h kw key v).
Proof.
  intros [(es & Hkw & Hk & Hvals) Hupd Hemp Hkind] Hne Hv.
  unfold setitem. rewrite Hkw.
  assert (Hlt : kw < length h) by (eapply lookup_lt_Some; exact Hkw).
  split.
  - exists (entries_set key v es). split; [by apply list_lookup_insert_eq|]. split.
    + rewrite entries_get_set, bool_decide_eq_false_2 by exact Hne. exact Hk.
    + intros key' l [Heq|Hin]%entries_set_elem; [|eauto].
      injection Heq as _ Heq. by apply Hv.
  - intros d es_d Hd H0d. rewrite list_lookup_insert_ne; [eauto|].
    intros <-. by apply (kw_not_update _ _ Hd H0d).
  - intros l o Hl H0l Ho. rewrite list_lookup_insert_ne by congruence. eauto.
  - intros l o H0l. destruct (decide (l = kw)) as [->|Hl].
    + rewrite list_lookup_insert_eq by exact Hlt.
      destruct (Hkind _ _ H0l) as (o' & Ho' & Hd). rewrite Hkw in Ho'.
      injection Ho' as <-. eauto.
    + rewrite list_lookup_insert_ne by congruence. eauto.
Qed.

Lemma alloc_inv (h : heap) (o : obj) : inv h -> inv (h ++ [o]).
Proof.
  intros [(es & Hkw & Hk & Hvals) Hupd Hemp Hkind].
  assert (Hold : forall l x, h !! l = Some x -> (h ++ [o]) !! l = Some x).
  { intros l x Hl. rewrite lookup_app_l; [exact Hl|]. eapply lookup_lt_Some. exact Hl. }
  split.
  - exists es. auto.
  - eauto.
  - eauto.
  - intros l x H0l. destruct (Hkind _ _ H0l) as (o' & Ho' & Hd). eauto.
Qed.

(** Changing in place an object that is not empty, is not [kwargs] and is
    not an update dict. *)
Lemma mutate_inv (h : heap) (kl : loc) (o o' : obj) :
  inv h -> h !! kl = Some o -> empty_obj o = false -> is_dict o' = is_dict o ->
  storable (VRef kl) -> inv (<[kl := o']> h).
Proof.
  intros [(es & Hkw & Hk & Hvals) Hupd Hemp Hkind] Hkl Ho Hd Hst.
  destruct (Hst kl eq_refl) as [Hne Hnot].
  assert (Hlt : kl < length h) by (eapply lookup_lt_Some; exact Hkl).
  split.
  - exists es. split; [|auto]. by rewrite list_lookup_insert_ne.
  - intros d es_d Hin H0d. rewrite list_lookup_insert_ne; [eauto|].
    intros <-. by apply (Hnot _ _ Hin H0d).
  - intros l x Hl H0l Hx. destruct (decide (l = kl)) as [->|Hl'].
    + rewrite (Hemp _ _ Hl H0l Hx) in Hkl. injection Hkl as <-. congruence.
    + rewrite list_lookup_insert_ne by congruence. eauto.
  - intros l x H0l. destruct (Hkind _ _ H0l) as (x' & Hx' & Hdx).
    destruct (decide (l = kl)) as [->|Hl'].
    + rewrite list_lookup_insert_eq by exact Hlt. rewrite Hkl in Hx'.
      injection Hx' as <-. exists o'. split; [reflexivity|congruence].
    + rewrite list_lookup_insert_ne by congruence. eauto.
Qed.

(** The value [kwargs] binds to a key may be stored again. *)
Lemma kw_item_storable (h : heap) (es : list (string * val)) (key : string) :
  inv h -> h !! kw = Some (ODict es) ->
  storable (default VNone (entries_get key es)).
Proof.
  intros [(es' & Hkw & _ & Hvals) _ _ _] Hes. rewrite Hkw in Hes.
  injection Hes as ->. intros l Hl.
  destruct (entries_get key es) as [v|] eqn:Hg; simpl in Hl; [|discriminate].
  subst v. apply entries_get_elem in Hg. eauto.
Qed.

Lemma extend_inv (h : heap) (kw_item : val) (xs : list val) :
  inv h -> falsy h kw_item = false -> storable kw_item ->
  inv (extend h kw_item xs).1.
Proof.
  intros Hinv Hf Hst. unfold extend.
  destruct kw_item as [| | | |kl]; try exact Hinv.
  simpl in Hf. destruct (h !! kl) as [[|ys|]|] eqn:Hkl; try exact Hinv. simpl.
  eapply mutate_inv; eauto.
Qed.

Lemma update_inv_step (h : heap) (kw_item : val) (es : list (string * val)) :
  inv h -> falsy h kw_item = false -> storable kw_item ->
  inv (update h kw_item es).1.
Proof.
  intros Hinv Hf Hst. unfold update.
  destruct kw_item as [| | | |kl]; try exact Hinv.
  simpl in Hf. destruct (h !! kl) as [[| |ks]|] eqn:Hkl; try exact Hinv. simpl.
  eapply mutate_inv; eauto.
Qed.

Lemma fresh_storable (h : heap) : inv h -> storable (VRef (length h)).
Proof.
  intros [(es & Hkw & _) Hupd _ _] l [= <-]. split.
  - intros Heq. apply lookup_lt_Some in Hkw. lia.
  - intros d es_d Hd H0d Heq. apply (Hupd _ _ Hd), lookup_lt_Some in H0d. lia.
Qed.

Lemma update_item_inv (h : heap) (d : loc) (es_d : list (string * val))
  (key : string) (v : val) :
  inv h -> VRef d ∈ updates -> h0 !! d = Some (ODict es_d) -> (key, v) ∈ es_d ->
  inv (update_item kw key v h).1.
Proof.
  intros Hinv Hd H0d Hin. unfold update_item.
  destruct (falsy h v) eqn:Hv; [exact Hinv|].
  assert (Hne : key <> k).
  { intros ->. destruct (Hfalsy _ _ _ Hd H0d Hin) as [Hf Hnkw].
    rewrite (falsy_stable _ _ Hinv Hf Hnkw) in Hv. discriminate. }
  destruct (h !! kw) as [[| |es]|] eqn:Hkw; try exact Hinv.
  pose proof (kw_item_storable h es key Hinv Hkw) as Hitem.
  pose proof (inv_updates _ _ _ _ _ Hinv) as Hupd.
  set (kw_item := default VNone (entries_get key es)) in *.
  assert (Hother : forall l, (forall xs, h !! l <> Some (ODict xs)) -> storable (VRef l)).
  { intros l Hl ? [= <-]. split.
    - intros ->. by apply (Hl es).
    - intros d' es_d' Hd' H0d' ->. by apply (Hl es_d'), Hupd. }
  destruct v as [| | | |l]; try (apply setitem_inv; [exact Hinv|exact Hne|by intros ? [=]]).
  destruct (h !! l) as [[xs|xs|es_l]|] eqn:Hl.
  - destruct (falsy h kw_item) eqn:Hi; [|by apply extend_inv].
    apply setitem_inv; [exact Hinv|exact Hne|]. apply Hother. intros ?. congruence.
  - destruct (falsy h kw_item) eqn:Hi; [|by apply extend_inv]. simpl.
    apply setitem_inv; [by apply alloc_inv|exact Hne|by apply fresh_storable].
  - destruct (falsy h kw_item) eqn:Hi; [|by apply update_inv_step]. simpl.
    apply setitem_inv; [by apply alloc_inv|exact Hne|by apply fresh_storable].
  - apply setitem_inv; [exact Hinv|exact Hne|]. apply Hother. intros ?. congruence.
Qed.

Lemma update_items_inv (d : loc) (es_d : list (string * val)) (size n : nat) :
  VRef d ∈ updates -> h0 !! d = Some (ODict es_d) ->
  forall i h, inv h -> inv (update_items kw d size i n h).1.
Proof.
  intros Hd H0d. induction n as [|n IH]; intros i h Hinv; simpl.
  - destruct (h !! d) as [[| |es]|]; try exact Hinv. by case_bool_decide.
  - rewrite (inv_updates _ _ _ _ _ Hinv _ _ Hd H0d).
    case_bool_decide; [exact Hinv|].
    destruct (es_d !! i) as [[key v]|] eqn:Hi; [|exact Hinv].
    pose proof (update_item_inv h d es_d key v Hinv Hd H0d
                  (proj2 (list_elem_of_lookup _ _) (ex_intro _ i Hi))) as Hstep.
    destruct (update_item kw key v h) as [h' [e|]]; [exact Hstep|].
    by apply IH.
Qed.

Lemma update_kwargs_inv (rest : list val) :
  (forall u, u ∈ rest -> u ∈ updates) ->
  forall h, inv h -> inv (update_kwargs h kw rest).1.
Proof.
  induction rest as [|upd rest IH]; intros Hsub h Hinv; simpl; [exact Hinv|].
  assert (Hrest : forall u, u ∈ rest -> u ∈ updates)
    by (intros u Hu; apply Hsub; by apply list_elem_of_further).
  destruct (falsy h upd); [by apply IH|].
  destruct upd as [| | | |d]; try exact Hinv.
  assert (Hd : VRef d ∈ updates) by (apply Hsub, list_elem_of_here).
  destruct (h !! d) as [[| |es]|] eqn:Hl; try exact Hinv.
  destruct (sep_valid _ _ _ Hsep _ Hd) as [o0 H0d].
  destruct (inv_kind _ _ _ _ _ Hinv _ _ H0d) as (o' & Ho' & Hdict).
  rewrite Hl in Ho'. injection Ho' as <-.
  destruct o0 as [| |es_d]; try discriminate.
  pose proof (inv_updates _ _ _ _ _ Hinv _ _ Hd H0d) as Hsame.
  rewrite Hl in Hsame. injection Hsame as ->.
  pose proof (update_items_inv d es_d (length es_d) (length es_d) Hd H0d 0 h Hinv)
    as Hloop.
  destruct (update_items kw d (length es_d) 0 (length es_d) h) as [h' [e|]];
    [exact Hloop|].
  by apply IH.
Qed.

(** With separate arguments, a key for which every update dict holds a
    falsy value is bound after the call as it was before. *)
Lemma update_kwargs_falsy_unchanged :
  lookup_key (update_kwargs h0 kw updates).1 kw k = lookup_key h0 kw k.
Proof.
  pose proof (update_kwargs_inv updates (fun _ H => H) h0 inv_start) as Hinv.
  destruct (inv_kwargs _ _ _ _ _ Hinv) as (es & Hkw & Hk & _).
  unfold lookup_key at 1. rewrite Hkw. exact Hk.
Qed.

End Separate.

(** The update [{'name': None, 'ports': [], 'user': 'root'}] adds [user]
    and leaves [name] and [ports] alone. *)
Example update_kwargs_scenario :
  update_kwargs Scenarios.kw_heap 0 [VRef 2]
  = ([ODict [("name", VStr "web"); ("ports", VRef 1); ("user", VStr "root")];
      OList [VInt 80];
      ODict [("name", VNone); ("ports", VRef 3); ("user", VStr "root")];
      OList []], None).
Proof. reflexivity. Qed.

(** C10 (amended). The body of the loop of [update_kwargs] leaves the
    store alone when the value of the item is falsy; a call never removes a
    key from [kwargs], however it ends; and when [kwargs], the updates and
    the values of [kwargs] are distinct objects, a key for which every
    update dict has a falsy value is bound after the call to what it was
    bound before. *)
Theorem update_kwargs_skips_falsy :
  (forall (kw : loc) (key : string) (u_item : val) (h : heap),
      falsy h u_item = true -> update_item kw key u_item h = (h, None))
  /\ (forall (h : heap) (kw : loc) (updates : list val) (key : string),
        is_Some (lookup_key h kw key) ->
        is_Some (lookup_key (update_kwargs h kw updates).1 kw key))
  /\ (forall (h : heap) (kw : loc) (updates : list val) (key : string),
        separate h kw updates -> only_falsy h kw updates key ->
        lookup_key (update_kwargs h kw updates).1 kw key = lookup_key h kw key).
Proof.
  split; [|split].
  - intros kw key u_item h Hf. unfold update_item. by rewrite Hf.
  - intros h kw updates key. unfold lookup_key.
    destruct (h !! kw) as [[xs|xs|es]|] eqn:Hkw;
      [intros [? [=]]|intros [? [=]]| |intros [? [=]]].
    intros Hk. destruct (kept_update_kwargs kw updates h _ _ Hkw) as (es' & -> & Hkeys).
    by apply Hkeys.
  - intros h kw updates key Hsep Hfalsy.
    by apply update_kwargs_falsy_unchanged.
Qed.

Lemma update_kwargs_skips_falsy_witness :
  is_Some (lookup_key (update_kwargs Scenarios.kw_heap 0 [VRef 2]).1 0 "ports")
  /\ lookup_key (update_kwargs Scenarios.kw_heap 0 [VRef 2]).1 0 "name"
     = Some (VStr "web").
Proof.
  destruct update_kwargs_skips_falsy as (_ & Hkeys & Hsame). split.
  - apply Hkeys. eexists. reflexivity.
  - apply (Hsame Scenarios.kw_heap 0 [VRef 2] "name").
    + split.
      * eexists. reflexivity.
      * intros d [= ->]%list_elem_of_singleton. eexists. reflexivity.
      * intros [=]%list_elem_of_singleton.
      * intros es key l [= <-] Hin.
        apply elem_of_cons in Hin as [[=]|Hin].
        apply list_elem_of_singleton in Hin as [= -> ->].
        split; [discriminate|]. intros [=]%list_elem_of_singleton.
    + intros d es v [= ->]%list_elem_of_singleton [= <-] Hin.
      apply elem_of_cons in Hin as [[= ->]|Hin]; [split; [reflexivity|discriminate]|].
      apply elem_of_cons in Hin as [[=]|Hin].
      apply list_elem_of_singleton in Hin as [=].
Defined.

(** [dict.update] on a dict value writes the falsy values of the update:
    the entry [DEBUG] of [kwargs['env']] becomes the empty string, and, as
    [kwargs] holds itself under [me], its own entry [a] becomes [None]. *)
Lemma update_kwargs_falsy_override_counterexample :
  lookup_key Scenarios.nested_heap 0 "a" = Some (VInt 1)
  /\ lookup_key Scenarios.nested_heap 1 "DEBUG" = Some (VStr "1")
  /\ (update_kwargs Scenarios.nested_heap 0 [VRef 2]).2 = None
  /\ lookup_key (update_kwargs Scenarios.nested_heap 0 [VRef 2]).1 0 "a" = Some VNone
  /\ lookup_key (update_kwargs Scenarios.nested_heap 0 [VRef 2]).1 1 "DEBUG"
     = Some (VStr "")
  /\ falsy (update_kwargs Scenarios.nested_heap 0 [VRef 2]).1 VNone = true
  /\ falsy (update_kwargs Scenarios.nested_heap 0 [VRef 2]).1 (VStr "") = true.
Proof. repeat split; reflexivity. Qed.

End KwargsFacts.

(** * Further properties of the code *)

(** ** Container and image names *)

Module NamesFacts.
Import Names State IntegrityFacts.

Lemma partition_dot_app (a b : string) :
  has_char "." a = false -> partition_dot (a +:+ "." +:+ b) = (a, ".", b).
Proof.
  induction a as [|c a IH]; intros Ha.
  - reflexivity.
  - cbn [has_char] in Ha. apply orb_false_elim in Ha as [Hc Ha].
    rewrite append_cons. cbn [partition_dot]. rewrite Hc, (IH Ha). reflexivity.
Qed.

Lemma partition_dot_plain (a : string) :
  has_char "." a = false -> partition_dot a = (a, "", "").
Proof.
  induction a as [|c a IH]; intros Ha.
  - reflexivity.
  - cbn [has_char] in Ha. apply orb_false_elim in Ha as [Hc Ha].
    cbn [partition_dot]. rewrite Hc, (IH Ha). reflexivity.
Qed.

(** What [partition] returns, whatever the string. *)
Lemma partition_dot_spec (s a sep b : string) :
  partition_dot s = (a, sep, b) ->
  has_char "." a = false
  /\ ((sep = "." /\ s = a +:+ "." +:+ b) \/ (sep = "" /\ b = "" /\ s = a)).
Proof.
  revert a sep b. induction s as [|c s IH]; intros a sep b H.
  - cbn in H. injection H as <- <- <-. split; [reflexivity|]. by right.
  - cbn [partition_dot] in H. destruct (Ascii.eqb c ".") eqn:Hc.
    + injection H as <- <- <-. split; [reflexivity|]. left.
      apply Ascii.eqb_eq in Hc as ->. by split.
    + destruct (partition_dot s) as [[a' sep'] b'] eqn:Hs.
      injection H as <- <- <-. destruct (IH _ _ _ eq_refl) as [Ha Hcase].
      split; [cbn [has_char]; by rewrite Hc, Ha|].
      destruct Hcase as [[-> ->]|(-> & -> & ->)].
      * left. split; [done|]. by rewrite append_cons.
      * right. done.
Qed.

(** The part of a container name after the map name. *)
Lemma cname_tail (m c : string) (i : option string) :
  cname m c i
  = m +:+ "." +:+ match i ≫= or_None with Some x => dotted c x | None => c end.
Proof.
  unfold cname, or_None. destruct i as [x|]; [|reflexivity]. cbn.
  destruct (bool_decide (x = "")); reflexivity.
Qed.

Lemma has_char_app (ch : ascii) (a b : string) :
  has_char ch (a +:+ String ch b) = true.
Proof.
  induction a as [|c a IH].
  - change ("" +:+ String ch b) with (String ch b). cbn [has_char].
    by rewrite Ascii.eqb_refl.
  - rewrite append_cons. cbn [has_char]. rewrite IH. apply orb_true_r.
Qed.

Lemma app_nonempty (a b : string) : b <> "" -> a +:+ b <> "".
Proof. destruct a; [done|]. by rewrite append_cons. Qed.

(** X1. [resolve_cname] undoes [cname]: when neither the map name nor the
    unit name contains a dot and the name has something after the map
    name, resolving the generated container name gives back the map name,
    the unit name and the instance, an empty instance read as none. The
    instance name may itself contain dots. *)
Theorem resolve_cname_cname (m c : string) (i : option string) :
  has_char "." m = false -> has_char "." c = false ->
  (c <> "" \/ exists x, i = Some x /\ x <> "") ->
  resolve_cname (cname m c i) true = Ok (Some m, c, i ≫= or_None).
Proof.
  intros Hm Hc Hne. rewrite cname_tail. unfold resolve_cname.
  rewrite (partition_dot_app _ _ Hm).
  destruct (i ≫= or_None) as [x|] eqn:Hi.
  - assert (x <> "") as Hx.
    { destruct i as [y|]; [|done]. cbn in Hi. unfold or_None in Hi.
      case_bool_decide; [done|]. by injection Hi as <-. }
    rewrite bool_decide_false by (unfold dotted; apply app_nonempty; done).
    unfold dotted. rewrite (partition_dot_app _ _ Hc).
    unfold or_None. by rewrite bool_decide_false.
  - destruct Hne as [Hne|(x & -> & Hx)].
    + rewrite bool_decide_false by done.
      by rewrite (partition_dot_plain _ Hc).
    + cbn in Hi. unfold or_None in Hi. by rewrite bool_decide_false in Hi.
Qed.

Lemma resolve_cname_cname_witness :
  resolve_cname (cname "app" "web" (Some "a.b")) true
  = Ok (Some "app", "web", Some "a.b").
Proof.
  apply (resolve_cname_cname "app" "web" (Some "a.b"));
    [reflexivity | reflexivity | left; discriminate].
Defined.

(** X2. [cname] is injective on names without dots: two addresses whose
    map and unit names contain no dot get the same container name only if
    they are the same address, an empty instance read as none. *)
Theorem cname_injective (m c m' c' : string) (i i' : option string) :
  has_char "." m = false -> has_char "." c = false ->
  has_char "." m' = false -> has_char "." c' = false ->
  cname m c i = cname m' c' i' ->
  m = m' /\ c = c' /\ i ≫= or_None = i' ≫= or_None.
Proof.
  intros Hm Hc Hm' Hc' H. rewrite !cname_tail in H.
  apply (f_equal partition_dot) in H.
  rewrite (partition_dot_app _ _ Hm), (partition_dot_app _ _ Hm') in H.
  injection H as -> H. split; [done|].
  apply (f_equal partition_dot) in H.
  destruct (i ≫= or_None) as [x|], (i' ≫= or_None) as [x'|];
    unfold dotted in H;
    rewrite ?(partition_dot_app _ _ Hc), ?(partition_dot_app _ _ Hc'),
      ?(partition_dot_plain _ Hc), ?(partition_dot_plain _ Hc') in H;
    by simplify_eq.
Qed.

Lemma cname_injective_witness :
  "app" = "app" /\ "web" = "web" /\ Some "a" ≫= or_None = Some "a" ≫= or_None.
Proof.
  apply (cname_injective "app" "web" "app" "web" (Some "a") (Some "a"));
    reflexivity.
Defined.

(** X3. [resolve_cname] with a map name accepts exactly the names that
    have something after their first dot; every other name, one without
    a dot included, raises [ValueError]. *)
Theorem resolve_cname_accepts (name : string) :
  ((exists r, resolve_cname name true = Ok r)
   <-> exists m rest, has_char "." m = false /\ rest <> ""
                      /\ name = m +:+ "." +:+ rest)
  /\ (forall e, resolve_cname name true = Raise e ->
                e = ValueError ("Invalid container name: " +:+ name)).
Proof.
  unfold resolve_cname. split; [split|].
  - intros [r H]. destruct (partition_dot name) as [[m sep] rest] eqn:Hp.
    case_bool_decide as Hrest; [done|].
    destruct (partition_dot_spec _ _ _ _ Hp) as [Hm [[_ ->]|(_ & -> & _)]];
      [|done].
    by exists m, rest.
  - intros (m & rest & Hm & Hrest & ->). rewrite (partition_dot_app _ _ Hm).
    rewrite bool_decide_false by done.
    destruct (partition_dot rest) as [[c sep] x]. by eexists.
  - intros e. destruct (partition_dot name) as [[m sep] rest].
    case_bool_decide; [by intros [= <-]|].
    by destruct (partition_dot rest) as [[c sep'] x].
Qed.

(** X4. [iname] adds the repository prefix at most once: on an image name
    that does not start with a slash, under a repository that does not
    start with one either, naming the result again changes nothing. *)
Theorem iname_idempotent (container_map : Config.ContainerMap) (image : string) :
  leading_slash image = false ->
  leading_slash (default "" (Config.repository container_map)) = false ->
  iname container_map (iname container_map image) = iname container_map image.
Proof.
  intros Hi Hr.
  assert (forall s, has_char "/" s = true -> leading_slash s = false ->
                    iname container_map s = s) as Hfix.
  { intros s Hs Hl. unfold iname. rewrite Hs. destruct s as [|c s]; [done|].
    cbn in Hl. by rewrite Hl. }
  destruct (has_char "/" image) eqn:Hs.
  - by rewrite !(Hfix image).
  - destruct (Config.repository container_map) as [r|] eqn:Hrepo.
    + destruct (decide (r = "")) as [->|Hre].
      * assert (iname container_map image = image) as E; [|by rewrite !E].
        unfold iname. by rewrite Hs, Hrepo.
      * assert (iname container_map image = r +:+ "/" +:+ image) as ->.
        { unfold iname. by rewrite Hs, Hrepo, bool_decide_false. }
        apply Hfix; [apply has_char_app|].
        cbn in Hr. destruct r as [|c r]; [done|]. by rewrite append_cons.
    + assert (iname container_map image = image) as E; [|by rewrite !E].
      unfold iname. by rewrite Hs, Hrepo.
Qed.

Lemma iname_idempotent_witness :
  iname Scenarios.app_map (iname Scenarios.app_map "web")
  = iname Scenarios.app_map "web".
Proof. apply (iname_idempotent Scenarios.app_map "web"); reflexivity. Defined.

Lemma resolve_cname_accepts_witness :
  ValueError "Invalid container name: web"
  = ValueError ("Invalid container name: " +:+ "web").
Proof.
  apply (proj2 (resolve_cname_accepts "web")
           (ValueError "Invalid container name: web")).
  reflexivity.
Defined.

End NamesFacts.

(** ** Inheritance: recursion limit, termination, maps without parents *)

Module ExtensionFacts.
Import Config ConfigFacts.

Lemma for_each_agree {A S : Type} (f g : S -> A -> result S) (l : list A) :
  (forall s x, x ∈ l -> f s x <> Raise RecursionError -> g s x = f s x) ->
  forall s, for_each f s l <> Raise RecursionError ->
            for_each g s l = for_each f s l.
Proof.
  induction l as [|y l IH]; intros Hfg s Hne; [reflexivity|].
  cbn [for_each] in *.
  assert (f s y <> Raise RecursionError) as Hy.
  { intros E. rewrite E in Hne. by apply Hne. }
  rewrite (Hfg s y (list_elem_of_here _ _) Hy).
  destruct (f s y) as [s'|e]; [|reflexivity].
  apply IH; [|exact Hne].
  intros s0 x Hx. apply Hfg. by apply list_elem_of_further.
Qed.

Lemma for_each_Ok {A S : Type} (f : S -> A -> result S) (l : list A) :
  (forall s x, x ∈ l -> exists s', f s x = Ok s') ->
  forall s, exists s', for_each f s l = Ok s'.
Proof.
  induction l as [|y l IH]; intros Hf s; [by eexists|].
  cbn [for_each]. destruct (Hf s y (list_elem_of_here _ _)) as [s' ->].
  apply IH. intros s0 x Hx. apply Hf. by apply list_elem_of_further.
Qed.

Lemma bind_not_recursion {A B : Type} (r : result A) (k : A -> result B) :
  (r ≫= k) <> Raise RecursionError -> r <> Raise RecursionError.
Proof. intros H E. rewrite E in H. by apply H. Qed.

Section Depth.

Variable merge_from_obj :
  ContainerConfiguration -> ContainerConfiguration -> ContainerConfiguration.

Local Abbreviation get_extended := (get_extended merge_from_obj).
Local Abbreviation get_extended_map := (get_extended_map merge_from_obj).
Local Abbreviation extend_all := (extend_all merge_from_obj).

Lemma get_extended_deeper (self : ContainerMap) (d : nat) :
  forall d' config, d <= d' ->
    get_extended d self config <> Raise RecursionError ->
    get_extended d' self config = get_extended d self config.
Proof.
  induction d as [|d IH]; intros d' config Hle Hne; [done|].
  destruct d' as [|d']; [lia|]. cbn [Config.get_extended] in *.
  destruct (_ || _); [reflexivity|].
  apply bind_not_recursion in Hne.
  match goal with
  | |- (?a ≫= _) = (?b ≫= _) => assert (a = b) as ->; [|reflexivity]
  end.
  apply for_each_agree; [|exact Hne].
  intros s x _ Hx. cbn beta in *.
  destruct (_containers self !! x) as [base|]; [|reflexivity].
  apply bind_not_recursion in Hx. rewrite (IH d' base); [reflexivity|lia|exact Hx].
Qed.

(** X5. The recursion limit matters only when it is hit: what
    [get_extended] and [get_extended_map] return or raise under one limit,
    unless it is the [RecursionError], is what they return or raise under
    every larger limit. *)
Theorem get_extended_map_deeper (self : ContainerMap) (d d' : nat) :
  d <= d' ->
  (forall config, get_extended d self config <> Raise RecursionError ->
                  get_extended d' self config = get_extended d self config)
  /\ (get_extended_map d self <> Raise RecursionError ->
      get_extended_map d' self = get_extended_map d self).
Proof.
  intros Hle. split; [intros config; by apply get_extended_deeper|].
  intros Hne. unfold Config.get_extended_map in *.
  apply bind_not_recursion in Hne. unfold Config.extend_all in *.
  match goal with
  | |- (?a ≫= _) = (?b ≫= _) => assert (a = b) as ->; [|reflexivity]
  end.
  apply for_each_agree; [|exact Hne].
  intros s x _ Hx. cbn beta in *. apply bind_not_recursion in Hx.
  by rewrite (get_extended_deeper self d d' _ Hle Hx).
Qed.

(** X6. Inheritance terminates on well-founded maps: when every parent
    named by a unit of the map is on the map and some rank decreases from
    every unit to each of its parents, [get_extended] returns a
    configuration for every unit under every recursion limit above the
    rank of the unit, and [get_extended_map] returns a map under every
    limit above the ranks of all units. *)
Theorem get_extended_returns (self : ContainerMap)
  (rank : ContainerConfiguration -> nat) :
  parents_exist self ->
  (forall c_name c c', _containers self !! c_name = Some c ->
                       extends_step self c c' -> rank c' < rank c) ->
  forall depth,
    (forall c_name c, _containers self !! c_name = Some c -> rank c < depth ->
                      exists r, get_extended depth self c = Ok r)
    /\ ((forall c_name c, _containers self !! c_name = Some c -> rank c < depth)
        -> exists m1, get_extended_map depth self = Ok m1).
Proof.
  intros Hclosed Hrank.
  assert (forall depth c_name c, _containers self !! c_name = Some c ->
            rank c < depth -> exists r, get_extended depth self c = Ok r) as Hunit.
  { induction depth as [|d IH]; intros c_name c Hc Hlt; [lia|].
    cbn [Config.get_extended]. destruct (_ || _); [by eexists|].
    destruct (for_each_Ok
                (fun acc ext_name =>
                   match _containers self !! ext_name with
                   | None => Raise (KeyError [ext_name])
                   | Some ext_cfg_base =>
                       get_extended d self ext_cfg_base
                       ≫= fun ext_cfg => Ok (merge_from_obj acc ext_cfg)
                   end) (extends c)) with new_config as [acc Hacc].
    - intros s ext_name Hin.
      destruct (Hclosed _ _ Hc _ Hin) as [base Hbase]. rewrite Hbase.
      assert (rank base < rank c) as Hlt'
        by (apply (Hrank c_name); [exact Hc|by exists ext_name]).
      destruct (IH ext_name base Hbase) as [r ->]; [lia|]. by eexists.
    - rewrite Hacc. by eexists. }
  intros depth. split; [apply Hunit|].
  intros Hall. unfold Config.get_extended_map, Config.extend_all.
  destruct (for_each_Ok
              (fun (acc : gmap string ContainerConfiguration)
                   (kv : string * ContainerConfiguration) =>
                 get_extended depth self kv.2
                 ≫= fun ext => Ok (<[kv.1 := ext]> acc))
              (iter_map self)) with (∅ : gmap string ContainerConfiguration)
    as [cs Hcs].
  - intros s [c_name c] [Hc _]%(iter_map_elem merge_from_obj).
    destruct (Hunit depth c_name c Hc (Hall _ _ Hc)) as [r Hr].
    cbn [snd fst]. rewrite Hr. by eexists.
  - rewrite Hcs. by eexists.
Qed.

(** X7. A map on which no unit that is not abstract names a parent is
    extended to itself without its abstract units, under every recursion
    limit of at least one and whatever the merge does: the returned map
    holds exactly the units that are not abstract, each unchanged, and is
    flagged as extended. *)
Theorem get_extended_map_without_parents (self : ContainerMap) (d : nat) :
  (forall c_name c, _containers self !! c_name = Some c -> abstract c = false ->
                    extends c = []) ->
  exists m1,
    get_extended_map (S d) self = Ok m1
    /\ _extended m1 = true
    /\ forall c_name c,
         _containers m1 !! c_name = Some c
         <-> _containers self !! c_name = Some c /\ abstract c = false.
Proof.
  intros Hplain.
  assert (forall c_name c, _containers self !! c_name = Some c ->
            abstract c = false -> get_extended (S d) self c = Ok c) as Hsame.
  { intros c_name c Hc Ha. cbn [Config.get_extended].
    by rewrite (Hplain _ _ Hc Ha), bool_decide_true. }
  destruct (for_each_Ok
              (fun (acc : gmap string ContainerConfiguration)
                   (kv : string * ContainerConfiguration) =>
                 get_extended (S d) self kv.2
                 ≫= fun ext => Ok (<[kv.1 := ext]> acc))
              (iter_map self)) with (∅ : gmap string ContainerConfiguration)
    as [cs Hcs].
  { intros s [c_name c] [Hc Ha]%(iter_map_elem merge_from_obj). cbn [snd fst].
    rewrite (Hsame _ _ Hc Ha). by eexists. }
  eexists. split; [|split].
  - unfold Config.get_extended_map, Config.extend_all. rewrite Hcs. reflexivity.
  - reflexivity.
  - intros c_name c. cbn [_containers].
    rewrite (extend_all_lookup merge_from_obj (S d) self cs Hcs). split.
    + intros (c0 & Hc0 & Ha & Hr). rewrite (Hsame _ _ Hc0 Ha) in Hr.
      by simplify_eq.
    + intros [Hc Ha]. exists c. split; [done|]. split; [done|by eapply Hsame].
Qed.

End Depth.

Lemma get_extended_map_deeper_witness :
  get_extended_map merge_from_obj_spec 7 Scenarios.inheriting_map
  = get_extended_map merge_from_obj_spec 2 Scenarios.inheriting_map.
Proof.
  apply (get_extended_map_deeper merge_from_obj_spec Scenarios.inheriting_map 2 7);
    [lia|]. vm_compute. discriminate.
Defined.

Lemma get_extended_returns_witness :
  exists m1, get_extended_map merge_from_obj_spec 2 Scenarios.inheriting_map = Ok m1.
Proof.
  assert (forall c_name c,
            _containers Scenarios.inheriting_map !! c_name = Some c ->
            (c_name = "base" /\ c = Scenarios.abstract_base)
            \/ (c_name = "web" /\ c = Scenarios.unit_extending ["base"])) as Hunits.
  { intros c_name c Hc.
    unfold Scenarios.inheriting_map, Scenarios.map_of in Hc. simpl in Hc.
    apply lookup_insert_Some in Hc as [[<- <-]|[_ Hc]]; [by left|].
    apply lookup_insert_Some in Hc as [[<- <-]|[_ Hc]]; [by right|].
    by rewrite lookup_empty in Hc. }
  apply (get_extended_returns merge_from_obj_spec Scenarios.inheriting_map
           (fun c => length (extends c))).
  - intros c_name c Hc ext_name Hin.
    destruct (Hunits _ _ Hc) as [[_ ->]|[_ ->]]; simpl in Hin.
    + by apply elem_of_nil in Hin.
    + apply list_elem_of_singleton in Hin as ->. by eexists.
  - intros c_name c c' Hc (ext_name & Hin & Hc').
    destruct (Hunits _ _ Hc) as [[_ ->]|[_ ->]]; simpl in Hin.
    + by apply elem_of_nil in Hin.
    + apply list_elem_of_singleton in Hin as ->.
      destruct (Hunits _ _ Hc') as [[_ ->]|[? _]]; [simpl; lia|done].
  - intros c_name c Hc.
    destruct (Hunits _ _ Hc) as [[_ ->]|[_ ->]]; simpl; lia.
Defined.

Lemma get_extended_map_without_parents_witness :
  exists m1,
    get_extended_map merge_from_obj_spec 1 Scenarios.uses_map = Ok m1
    /\ _extended m1 = true
    /\ forall c_name c,
         _containers m1 !! c_name = Some c
         <-> _containers Scenarios.uses_map !! c_name = Some c /\ abstract c = false.
Proof.
  apply (get_extended_map_without_parents merge_from_obj_spec Scenarios.uses_map 0).
  intros c_name c Hc _.
  unfold Scenarios.uses_map, Scenarios.map_of in Hc. simpl in Hc.
  apply lookup_insert_Some in Hc as [[_ <-]|[_ Hc]]; [done|].
  apply lookup_insert_Some in Hc as [[_ <-]|[_ Hc]]; [done|].
  by rewrite lookup_empty in Hc.
Defined.

End ExtensionFacts.

(** ** Grouping: one address per unit *)

Module GroupingFacts.
Import Input Instances PyFacts DependencyFacts.

Lemma compare_cases (a b : string) :
  (String.compare a b = Lt /\ String.compare b a = Gt)
  \/ (String.compare a b = Eq /\ a = b)
  \/ (String.compare a b = Gt /\ String.compare b a = Lt).
Proof.
  pose proof (String.compare_antisym a b) as Ha.
  destruct (String.compare a b) eqn:Hab.
  - right. left. split; [reflexivity|]. by apply String.compare_eq_iff.
  - left. split; [reflexivity|]. destruct (String.compare b a); by simplify_eq/=.
  - right. right. split; [reflexivity|].
    destruct (String.compare b a); by simplify_eq/=.
Qed.

Lemma compare_refl (a : string) : String.compare a a = Eq.
Proof. by apply String_as_OT.cmp_eq. Qed.

Lemma compare_lt_trans (a b c : string) :
  String.compare a b = Lt -> String.compare b c = Lt -> String.compare a c = Lt.
Proof.
  intros Hab Hbc. apply String_as_OT.cmp_lt.
  eapply String_as_OT.lt_trans; apply String_as_OT.cmp_lt; eassumption.
Qed.

(** Tuples of two strings compare by the first component, then by the
    second. *)
Lemma pair_leb_spec (k1 k2 : string * string) :
  pair_leb k1 k2 = true
  <-> String.compare k1.1 k2.1 = Lt
      \/ (k1.1 = k2.1 /\ String.compare k1.2 k2.2 <> Gt).
Proof.
  unfold pair_leb, String.leb.
  destruct (compare_cases k1.1 k2.1) as [[H1 _]|[[H1 E]|[H1 _]]]; rewrite H1.
  - split; [by left|done].
  - split.
    + intros H. right. split; [done|]. by destruct (String.compare k1.2 k2.2).
    + intros [?|[_ H]]; [done|]. by destruct (String.compare k1.2 k2.2).
  - split; [done|]. intros [?|[E _]]; [done|].
    rewrite E, compare_refl in H1. done.
Qed.

Lemma pair_leb_total (k1 k2 : string * string) :
  pair_leb k1 k2 = false -> pair_leb k2 k1 = true.
Proof.
  intros H. apply pair_leb_spec.
  assert (~ (String.compare k1.1 k2.1 = Lt
             \/ (k1.1 = k2.1 /\ String.compare k1.2 k2.2 <> Gt))) as Hn.
  { rewrite <- pair_leb_spec. by rewrite H. }
  destruct (compare_cases k1.1 k2.1) as [[E _]|[[_ E]|[_ E]]].
  - exfalso. apply Hn. by left.
  - right. split; [done|].
    destruct (compare_cases k1.2 k2.2) as [[E2 _]|[[E2 _]|[_ E2]]].
    + exfalso. apply Hn. right. split; [done|]. by rewrite E2.
    + exfalso. apply Hn. right. split; [done|]. by rewrite E2.
    + by rewrite E2.
  - by left.
Qed.

Lemma pair_leb_trans (k1 k2 k3 : string * string) :
  pair_leb k1 k2 = true -> pair_leb k2 k3 = true -> pair_leb k1 k3 = true.
Proof.
  rewrite !pair_leb_spec. intros [H12|[E12 H12]] [H23|[E23 H23]].
  - left. by eapply compare_lt_trans.
  - left. by rewrite <- E23.
  - left. by rewrite E12.
  - right. split; [congruence|].
    destruct (compare_cases k1.2 k2.2) as [[Ea _]|[[_ Ea]|[Ea _]]]; [| |done].
    + destruct (compare_cases k2.2 k3.2) as [[Eb _]|[[_ Eb]|[Eb _]]]; [| |done].
      * by rewrite (compare_lt_trans _ _ _ Ea Eb).
      * by rewrite <- Eb, Ea.
    + by rewrite Ea.
Qed.

Lemma pair_leb_antisym (k1 k2 : string * string) :
  pair_leb k1 k2 = true -> pair_leb k2 k1 = true -> k1 = k2.
Proof.
  rewrite !pair_leb_spec. destruct k1 as [a1 a2], k2 as [b1 b2]. cbn [fst snd].
  intros [H12|[E12 H12]] [H21|[E21 H21]].
  - destruct (compare_cases a1 b1) as [[_ E]|[[E _]|[E _]]]; congruence.
  - subst. by rewrite compare_refl in H12.
  - subst. by rewrite compare_refl in H21.
  - subst. f_equal.
    destruct (compare_cases a2 b2) as [[_ E]|[[_ E]|[E _]]]; congruence.
Qed.

(** The order of the batch after [sorted]. *)
Lemma insert_by_sorted {A : Type} (key : A -> string * string) (x : A) (l : list A) :
  StronglySorted (fun a b => pair_leb (key a) (key b) = true) l ->
  StronglySorted (fun a b => pair_leb (key a) (key b) = true) (insert_by key x l).
Proof.
  induction 1 as [|y r Hr IH Hy]; cbn [insert_by].
  - repeat constructor.
  - destruct (pair_leb (key x) (key y)) eqn:Hxy.
    + constructor; [by constructor|]. constructor; [exact Hxy|].
      eapply Forall_impl; [exact Hy|]. intros z Hz. cbn beta in *.
      by eapply pair_leb_trans.
    + constructor; [exact IH|]. apply Forall_forall. intros z Hz.
      apply insert_by_elem in Hz as [->|Hz]; [by apply pair_leb_total|].
      rewrite Forall_forall in Hy. by apply Hy.
Qed.

Lemma sorted_sorted {A : Type} (key : A -> string * string) (l : list A) :
  StronglySorted (fun a b => pair_leb (key a) (key b) = true) (sorted key l).
Proof.
  induction l as [|x l IH]; [constructor|].
  unfold sorted in *. cbn [foldr]. by apply insert_by_sorted.
Qed.

Lemma groupby_head {A : Type} (key : A -> string * string) (x : A) (l : list A) :
  exists g gs, groupby key (x :: l) = (key x, g) :: gs
               /\ (groupby key l).*1 ⊆ key x :: gs.*1.
Proof.
  cbn [groupby]. destruct (groupby key l) as [|[k g] gs].
  { do 2 eexists. split; [done|]. intros k Hk. by apply elem_of_nil in Hk. }
  case_bool_decide as Hk.
  - exists (x :: g), gs. rewrite Hk. split; [done|]. intros y Hy. exact Hy.
  - exists [x], ((k, g) :: gs). split; [done|]. intros y Hy.
    by apply list_elem_of_further.
Qed.

Lemma groupby_key_from {A : Type} (key : A -> string * string) (l : list A)
  (k : string * string) :
  k ∈ (groupby key l).*1 <-> exists x, x ∈ l /\ key x = k.
Proof.
  split.
  - intros ([k' g] & -> & Hin)%list_elem_of_fmap.
    pose proof (groupby_members key l) as Hm. rewrite Forall_forall in Hm.
    destruct (Hm _ Hin) as [Hne Hall]. cbn [fst snd] in *.
    destruct g as [|y g]; [done|]. apply Forall_cons in Hall as [[Hk Hy] _].
    by exists y.
  - intros (x & Hx & <-). induction l as [|y l IH]; [by apply elem_of_nil in Hx|].
    destruct (groupby_head key y l) as (g & gs & -> & Hsub).
    apply elem_of_cons in Hx as [->|Hx]; [cbn; apply list_elem_of_here|].
    cbn [fmap list_fmap fst]. apply Hsub. by apply IH.
Qed.

(** On a sorted list, no two groups of [groupby] have the same key. *)
Lemma groupby_keys_NoDup {A : Type} (key : A -> string * string) (l : list A) :
  StronglySorted (fun a b => pair_leb (key a) (key b) = true) l ->
  NoDup (groupby key l).*1.
Proof.
  induction 1 as [|x r Hr IH Hx]; [constructor|].
  cbn [groupby]. destruct (groupby key r) as [|[k g] gs] eqn:Hg.
  - cbn. apply NoDup_singleton.
  - case_bool_decide as Hk; [exact IH|].
    cbn [fmap list_fmap fst] in *. apply NoDup_cons. split; [|exact IH].
    intros Hin.
    assert (key x ∈ (groupby key r).*1) as Hin' by (by rewrite Hg).
    apply groupby_key_from in Hin' as (y & Hy & Hyx).
    destruct r as [|h r']; [done|].
    destruct (groupby_head key h r') as (g' & gs' & Hh & _).
    rewrite Hg in Hh. injection Hh as -> _ _.
    apply Hk. rewrite Forall_forall in Hx.
    apply pair_leb_antisym; [apply Hx, list_elem_of_here|].
    apply elem_of_cons in Hy as [->|Hy]; [by rewrite Hyx, pair_leb_refl|].
    rewrite <- Hyx. apply StronglySorted_inv in Hr as [_ Hh].
    rewrite Forall_forall in Hh. by apply Hh.
Qed.

(** A loop that yields one item per element: the keys of what it yields
    are the keys of the elements it got through. *)
Lemma gen_for_keys {A B K : Type} (f : A -> result (list B)) (ka : A -> K)
  (kb : B -> K) (l : list A) :
  (forall a ys, f a = Ok ys -> kb <$> ys = [ka a]) ->
  (exists rest, ka <$> l = (kb <$> yielded (gen_for f l)) ++ rest)
  /\ (raised (gen_for f l) = None -> kb <$> yielded (gen_for f l) = ka <$> l).
Proof.
  intros Hf. induction l as [|a l [[rest IH1] IH2]].
  - split; [by exists []|done].
  - cbn [gen_for]. destruct (f a) as [ys|e] eqn:Ha; cbn [yielded raised].
    + rewrite fmap_app, (Hf _ _ Ha). split.
      * exists rest. cbn. by rewrite IH1.
      * intros Hr. cbn. by rewrite (IH2 Hr).
    + split; [by eexists|done].
Qed.

Lemma gen_for_raised {A B : Type} (f : A -> result (list B)) (l : list A) :
  (raised (gen_for f l) = None <-> forall a, a ∈ l -> exists ys, f a = Ok ys)
  /\ (forall e, raised (gen_for f l) = Some e -> exists a, a ∈ l /\ f a = Raise e).
Proof.
  induction l as [|a l [IH1 IH2]].
  - split; [split; [intros _ a Ha; by apply elem_of_nil in Ha|done]|done].
  - cbn [gen_for]. destruct (f a) as [ys|e] eqn:Ha; cbn [raised].
    + split.
      * rewrite IH1. split.
        -- intros H a' [->|Ha']%elem_of_cons; [by eexists|by apply H].
        -- intros H a' Ha'. apply H. by apply list_elem_of_further.
      * intros e He. destruct (IH2 e He) as (a' & Ha' & Hf).
        exists a'. split; [by apply list_elem_of_further|done].
    + split.
      * split; [done|]. intros H.
        destruct (H a (list_elem_of_here _ _)) as [ys Hys]. congruence.
      * intros e' [= <-]. exists a. split; [apply list_elem_of_here|done].
Qed.

(** The body of the loop of [group_instances], by cases. *)
Lemma group_body_Ok {single_instances : bool}
  (ext_map : option Config.ContainerMap) (ext_maps : gmap string Config.ContainerMap)
  (mn cn : string) (items : list (MapConfigId (item_ty single_instances)))
  (r : result (list (MapConfigId (list instance)))) :
  r = (c_map ← lookup_map ext_map ext_maps mn;
       match Config.get_existing c_map cn with
       | None => Raise (KeyError [mn; cn])
       | Some config =>
           if covers_all config (_get_instances single_instances items)
           then Ok [Build_MapConfigId mn cn [None]]
           else Ok [Build_MapConfigId mn cn
                      (_get_instances single_instances items)]
       end) ->
  ((exists ys, r = Ok ys)
   <-> exists c_map, lookup_map ext_map ext_maps mn = Ok c_map
                     /\ is_Some (Config.get_existing c_map cn))
  /\ (forall ys, r = Ok ys -> get_map_config <$> ys = [(mn, cn)])
  /\ (forall e, r = Raise e -> exists args, e = KeyError args).
Proof.
  intros ->. destruct (lookup_map ext_map ext_maps mn) as [c_map|e] eqn:Hm;
    cbn [mbind result_bind].
  - destruct (Config.get_existing c_map cn) as [config|] eqn:Hc.
    + split; [|split].
      * split; [intros _; by exists c_map|].
        intros _. destruct (covers_all _ _); by eexists.
      * intros ys. destruct (covers_all _ _); by intros [= <-].
      * intros e. by destruct (covers_all _ _).
    + split; [|split].
      * split; [by intros [? ?]|]. intros (c & [= <-] & [? ?]). congruence.
      * done.
      * intros e [= <-]. by eexists.
  - split; [|split].
    + split; [by intros [? ?]|]. by intros (c & ? & _).
    + done.
    + intros e' [= <-]. unfold lookup_map in Hm.
      destruct ext_map; [done|]. destruct (ext_maps !! mn); [done|].
      injection Hm as <-. by eexists.
Qed.

(** X8. [group_instances] yields one address per unit: no two yielded
    addresses name the same map and unit, and when the generator ends
    without an exception, the unit of every given tuple has its
    address. *)
Theorem group_instances_one_per_unit {single_instances : bool}
  (config_ids : list (MapConfigId (item_ty single_instances)))
  (ext_map : option Config.ContainerMap)
  (ext_maps : gmap string Config.ContainerMap) :
  NoDup (get_map_config <$> yielded (group_instances config_ids ext_map ext_maps))
  /\ (raised (group_instances config_ids ext_map ext_maps) = None ->
      forall di, di ∈ config_ids ->
        get_map_config di
        ∈ get_map_config <$> yielded (group_instances config_ids ext_map ext_maps)).
Proof.
  unfold group_instances. destruct (no_map_given ext_map ext_maps).
  { split; [constructor|done]. }
  match goal with
  | |- context [gen_for ?f ?l] =>
      destruct (gen_for_keys f fst get_map_config l) as [[rest Hpre] Hall]
  end.
  { intros [[mn cn] items] ys Hys.
    by apply (proj1 (proj2 (group_body_Ok ext_map ext_maps mn cn items _ eq_refl))). }
  pose proof (groupby_keys_NoDup get_map_config _
                (sorted_sorted get_map_config config_ids)) as Hnd.
  split.
  - rewrite Hpre in Hnd. by apply NoDup_app in Hnd as [Hnd _].
  - intros Hr di Hdi. rewrite (Hall Hr). apply groupby_key_from.
    exists di. split; [by apply sorted_elem|done].
Qed.

(** X9. [group_instances] ends without an exception exactly when a map
    or a dict of maps is given and the unit of every given tuple is found
    on the map the tuple is resolved on; otherwise it ends with the
    [ValueError] of the missing maps or with a [KeyError]. With a single
    map, the map name of a tuple is not looked at. *)
Theorem group_instances_raises {single_instances : bool}
  (config_ids : list (MapConfigId (item_ty single_instances)))
  (ext_map : option Config.ContainerMap)
  (ext_maps : gmap string Config.ContainerMap) :
  (raised (group_instances config_ids ext_map ext_maps) = None
   <-> no_map_given ext_map ext_maps = false
       /\ forall di, di ∈ config_ids ->
            exists c_map,
              lookup_map ext_map ext_maps (map_name di) = Ok c_map
              /\ is_Some (Config.get_existing c_map (config_name di)))
  /\ (forall e, raised (group_instances config_ids ext_map ext_maps) = Some e ->
        e = no_map_error \/ exists args, e = KeyError args)
  /\ (forall c_map, ext_map = Some c_map ->
        (raised (group_instances config_ids ext_map ext_maps) = None
         <-> forall di, di ∈ config_ids ->
               is_Some (Config.get_existing c_map (config_name di)))).
Proof.
  assert (raised (group_instances config_ids ext_map ext_maps) = None
          <-> no_map_given ext_map ext_maps = false
              /\ forall di, di ∈ config_ids ->
                   exists c_map,
                     lookup_map ext_map ext_maps (map_name di) = Ok c_map
                     /\ is_Some (Config.get_existing c_map (config_name di)))
    as Hiff.
  { unfold group_instances. destruct (no_map_given ext_map ext_maps).
    { split; [done|]. by intros [? _]. }
    match goal with
    | |- context [gen_for ?f ?l] => rewrite (proj1 (gen_for_raised f l))
    end.
    split.
    - intros H. split; [done|]. intros di Hdi.
      assert (get_map_config di
              ∈ (groupby get_map_config (sorted get_map_config config_ids)).*1)
        as Hk.
      { apply groupby_key_from. exists di. split; [by apply sorted_elem|done]. }
      apply list_elem_of_fmap in Hk as ([[mn cn] items] & Hkey & Hin).
      cbn in Hkey. injection Hkey as Hm Hc. rewrite Hm, Hc.
      apply (proj1 (group_body_Ok ext_map ext_maps mn cn items _ eq_refl)).
      exact (H _ Hin).
    - intros [_ H] [[mn cn] items] Hin.
      apply (proj1 (group_body_Ok ext_map ext_maps mn cn items _ eq_refl)).
      assert ((mn, cn)
              ∈ (groupby get_map_config (sorted get_map_config config_ids)).*1)
        as Hk.
      { apply list_elem_of_fmap. by exists (mn, cn, items). }
      apply groupby_key_from in Hk as (di & Hdi & Hkey).
      apply sorted_elem in Hdi. injection Hkey as <- <-. by apply H. }
  split; [exact Hiff|]. split.
  - unfold group_instances. destruct (no_map_given ext_map ext_maps).
    { intros e [= <-]. by left. }
    intros e He. right.
    match type of He with
    | context [gen_for ?f ?l] =>
        destruct (proj2 (gen_for_raised f l) e He) as ([[mn cn] items] & _ & Hb)
    end.
    exact (proj2 (proj2 (group_body_Ok ext_map ext_maps mn cn items _ eq_refl))
             e Hb).
  - intros c_map ->. rewrite Hiff. split.
    + intros [_ H] di Hdi. destruct (H di Hdi) as (c & [= <-] & Hc). exact Hc.
    + intros H. split; [done|]. intros di Hdi. exists c_map. split; [done|].
      by apply H.
Qed.

(** X10. [expand_instances] never yields the wildcard for a unit that
    declares instances: every yielded tuple of such a unit names an
    instance, whether the unit was requested by instance, by the wildcard
    or, with nested tuples, by an empty tuple. *)
Theorem expand_instances_named {single_instances : bool}
  (config_ids : list (MapConfigId (item_ty single_instances)))
  (ext_map : option Config.ContainerMap)
  (ext_maps : gmap string Config.ContainerMap)
  (id : MapConfigId instance) (c_map : Config.ContainerMap)
  (config : Config.ContainerConfiguration) :
  id ∈ yielded (expand_instances config_ids ext_map ext_maps) ->
  lookup_map ext_map ext_maps (map_name id) = Ok c_map ->
  Config.get_existing c_map (config_name id) = Some config ->
  Config.instances config <> [] ->
  is_Some (instances id).
Proof.
  unfold expand_instances. destruct (no_map_given ext_map ext_maps).
  { intros Hin. by apply elem_of_nil in Hin. }
  intros Hin Hmap Hcfg Hdecl.
  apply gen_for_yielded_from in Hin as ([[mn cn] items] & ys & _ & Hbody & Hy).
  cbn beta iota in Hbody.
  destruct (lookup_map ext_map ext_maps mn) as [c_map'|e] eqn:Hm';
    cbn [mbind result_bind] in Hbody; [|done].
  destruct (Config.get_existing c_map' cn) as [config'|] eqn:Hc'; [|done].
  assert (map_name id = mn /\ config_name id = cn) as [Hmn Hcn].
  { destruct (_ && _); injection Hbody as <-;
      apply list_elem_of_fmap in Hy as (i & -> & _); done. }
  subst mn cn. rewrite Hmap in Hm'. injection Hm' as <-.
  rewrite Hcfg in Hc'. injection Hc' as <-.
  rewrite (bool_decide_true _ Hdecl) in Hbody. cbn [andb] in Hbody.
  case_bool_decide as Hwild; injection Hbody as <-;
    apply list_elem_of_fmap in Hy as (i & -> & Hi); cbn [instances].
  - by eexists.
  - destruct i as [i|]; [by eexists|done].
Qed.

Lemma expand_instances_named_witness :
  is_Some (instances (Scenarios.app (Some "1"))).
Proof.
  apply (expand_instances_named (single_instances := true)
           [Scenarios.app None] (Some Scenarios.app_map) ∅
           (Scenarios.app (Some "1")) Scenarios.app_map
           (Scenarios.unit_with ["1"; "2"])).
  - vm_compute. apply list_elem_of_here.
  - reflexivity.
  - reflexivity.
  - discriminate.
Defined.

Lemma group_instances_one_per_unit_witness :
  get_map_config (Scenarios.app (Some "1"))
  ∈ get_map_config
      <$> yielded (group_instances (single_instances := true)
                     [Scenarios.app (Some "1")] (Some Scenarios.app_map) ∅).
Proof.
  apply (proj2 (group_instances_one_per_unit (single_instances := true)
                  [Scenarios.app (Some "1")] (Some Scenarios.app_map) ∅)).
  - vm_compute. reflexivity.
  - apply list_elem_of_here.
Defined.

Lemma group_instances_raises_witness :
  raised (group_instances (single_instances := true)
            [Scenarios.app (Some "1")] (Some Scenarios.app_map) ∅) = None.
Proof.
  apply (proj2 (proj2 (group_instances_raises (single_instances := true)
                         [Scenarios.app (Some "1")] (Some Scenarios.app_map) ∅))
           Scenarios.app_map eq_refl).
  intros di ->%list_elem_of_singleton. by eexists.
Defined.

End GroupingFacts.

(** ** Group expansion, persistent items, users *)

Module GroupsFacts.
Import Input Instances Groups Utils IntegrityFacts.

Lemma iter_map_units (self : Config.ContainerMap) (c_name : string)
  (c : Config.ContainerConfiguration) :
  (c_name, c) ∈ Config.iter_map self
  <-> Config._containers self !! c_name = Some c /\ Config.abstract c = false.
Proof.
  unfold Config.iter_map. rewrite list_elem_of_filter, elem_of_map_to_list.
  cbn [fst snd]. tauto.
Qed.

Lemma gen_chain_singletons {A : Type} (body : A -> gen A) (l : list A) :
  (forall x, x ∈ l -> body x = Gen [x] None) -> gen_chain body l = Gen l None.
Proof.
  induction l as [|x l IH]; intros Hb; [reflexivity|].
  cbn [gen_chain]. rewrite (Hb x (list_elem_of_here _ _)). cbn [raised yielded].
  rewrite IH; [reflexivity|]. intros y Hy. apply Hb. by apply list_elem_of_further.
Qed.

(** X11. [expand_groups] passes a batch that names no group through
    unchanged: when the map of every tuple has its entry in the groups and
    no tuple names a group of its map, exactly the given tuples are
    yielded, in their order, and nothing is raised. *)
Theorem expand_groups_without_groups
  (config_ids : list (MapConfigId (list instance)))
  (groups : gmap string (gmap string (list group_item))) :
  (forall config_id, config_id ∈ config_ids ->
     exists map_groups, groups !! map_name config_id = Some map_groups
                        /\ map_groups !! config_name config_id = None) ->
  expand_groups config_ids groups = Gen config_ids None.
Proof.
  intros Hno. unfold expand_groups. apply gen_chain_singletons.
  intros config_id Hin. destruct (Hno _ Hin) as (map_groups & -> & ->).
  reflexivity.
Qed.

Lemma expand_groups_without_groups_witness :
  expand_groups [Build_MapConfigId "m" "web" [Some "1"]]
    {["m" := {["all" := [GroupName "web"; GroupName "db.main"]]}]}
  = Gen [Build_MapConfigId "m" "web" [Some "1"]] None.
Proof.
  apply expand_groups_without_groups.
  intros config_id ->%list_elem_of_singleton. eexists. split; reflexivity.
Defined.

(** X12. What [get_persistent_items] lists: an attached volume for every
    alias that a unit which is not abstract attaches, and for every unit
    that is persistent and not abstract one entry per declared instance,
    or the single entry without instance when it declares none. Abstract
    units contribute nothing. *)
Theorem get_persistent_items_spec (self : Config.ContainerMap)
  (c_name : string) :
  (forall ac, (c_name, ac) ∈ (get_persistent_items self).1
     <-> exists config, Config._containers self !! c_name = Some config
                        /\ Config.abstract config = false
                        /\ ac ∈ Config.attaches config)
  /\ (forall ci, (c_name, ci) ∈ (get_persistent_items self).2
        <-> exists config, Config._containers self !! c_name = Some config
                           /\ Config.abstract config = false
                           /\ Config.persistent config = true
                           /\ (Config.instances config = [] /\ ci = None
                               \/ exists i, ci = Some i
                                            /\ i ∈ Config.instances config)).
Proof.
  unfold get_persistent_items. cbn [fst snd]. split.
  - intros ac. rewrite elem_of_flat_map. split.
    + intros ([n config] & Hkv & Hac). cbn [fst snd] in Hac.
      apply list_elem_of_fmap in Hac as (ac' & [= <- <-] & Hac).
      apply iter_map_units in Hkv
        as [Hc Ha].
      by exists config.
    + intros (config & Hc & Ha & Hac). exists (c_name, config). split.
      * by apply iter_map_units.
      * cbn [fst snd]. apply list_elem_of_fmap. by exists ac.
  - intros ci. rewrite elem_of_flat_map. split.
    + intros ([n config] & [Hp Hkv]%list_elem_of_filter & Hci).
      cbn [fst snd] in Hci, Hp.
      apply list_elem_of_fmap in Hci as (ci' & [= <- <-] & Hci).
      apply iter_map_units in Hkv
        as [Hc Ha].
      exists config. do 3 (split; [done|]).
      unfold instances_or_None in Hci. destruct (Config.instances config) as [|i l].
      * left. by apply list_elem_of_singleton in Hci.
      * right. apply list_elem_of_fmap in Hci as (i' & -> & Hi'). by exists i'.
    + intros (config & Hc & Ha & Hp & Hci). exists (c_name, config). split.
      * apply list_elem_of_filter. split; [done|].
        by apply iter_map_units.
      * cbn [fst snd]. apply list_elem_of_fmap. exists ci. split; [done|].
        unfold instances_or_None.
        destruct Hci as [[-> ->]|(i & -> & Hi)]; [apply list_elem_of_here|].
        destruct (Config.instances config) as [|i0 l]; [by apply elem_of_nil in Hi|].
        apply list_elem_of_fmap. by exists i.
Qed.

Lemma before_char_spec (c : ascii) (s : string) :
  Names.has_char c (before_char c s) = false
  /\ (s = before_char c s
      \/ exists rest, s = before_char c s +:+ String c rest).
Proof.
  induction s as [|c' s [IH1 IH2]]; [split; [done|by left]|].
  cbn [before_char]. destruct (Ascii.eqb c' c) eqn:Hc.
  - split; [done|]. right. apply Ascii.eqb_eq in Hc as ->. by exists s.
  - split; [cbn [Names.has_char]; by rewrite Hc, IH1|].
    destruct IH2 as [IH2|[rest IH2]].
    + left. by rewrite <- IH2.
    + right. exists rest. by rewrite append_cons, <- IH2.
Qed.

Lemma before_char_plain (c : ascii) (s : string) :
  Names.has_char c s = false -> before_char c s = s.
Proof.
  induction s as [|c' s IH]; [done|]. cbn [Names.has_char before_char].
  intros [Hc Hs]%orb_false_elim. by rewrite Hc, (IH Hs).
Qed.

Lemma before_char_app (c : ascii) (s rest : string) :
  Names.has_char c s = false -> before_char c (s +:+ String c rest) = s.
Proof.
  induction s as [|c' s IH].
  - intros _. change ("" +:+ String c rest) with (String c rest).
    cbn [before_char]. by rewrite Ascii.eqb_refl.
  - cbn [Names.has_char]. intros [Hc Hs]%orb_false_elim.
    rewrite append_cons. cbn [before_char]. by rewrite Hc, (IH Hs).
Qed.

(** X13. The ways of naming a user agree: for a user name that is not
    empty and holds no colon, the string [user:group], the tuple
    [(user, group)] and the name alone all give the name. *)
Theorem extract_user_formats (user group : string) :
  user <> "" -> Names.has_char ":" user = false ->
  extract_user (UStr (user +:+ ":" +:+ group)) = Ok (UStr user)
  /\ extract_user (UTuple [UStr user; UStr group]) = Ok (UStr user)
  /\ extract_user (UStr user) = Ok (UStr user).
Proof.
  intros Hne Hcolon. cbn [extract_user]. split; [|split; [done|]].
  - rewrite bool_decide_false by (destruct user; [done|by rewrite append_cons]).
    change (":" +:+ group) with (String ":" group).
    by rewrite (before_char_app _ _ _ Hcolon).
  - rewrite bool_decide_false by done. by rewrite (before_char_plain _ _ Hcolon).
Qed.

Lemma extract_user_formats_witness :
  extract_user (UStr ("www" +:+ ":" +:+ "adm")) = Ok (UStr "www")
  /\ extract_user (UTuple [UStr "www"; UStr "adm"]) = Ok (UStr "www")
  /\ extract_user (UStr "www") = Ok (UStr "www").
Proof. apply (extract_user_formats "www" "adm"); [discriminate|reflexivity]. Defined.

(** X14. The user that [extract_user] takes from a string holds no colon
    and is the string itself or its part before the first colon. *)
Theorem extract_user_name (s : string) :
  s <> "" ->
  exists name,
    extract_user (UStr s) = Ok (UStr name)
    /\ Names.has_char ":" name = false
    /\ (s = name \/ exists group, s = name +:+ ":" +:+ group).
Proof.
  intros Hs. exists (before_char ":" s). cbn [extract_user].
  rewrite bool_decide_false by done. split; [done|].
  destruct (before_char_spec ":" s) as [H1 H2]. split; [exact H1|].
  destruct H2 as [H2|[rest H2]]; [by left|]. right. by exists rest.
Qed.

Lemma extract_user_name_witness :
  exists name,
    extract_user (UStr "www:adm") = Ok (UStr name)
    /\ Names.has_char ":" name = false
    /\ ("www:adm" = name \/ exists group, "www:adm" = name +:+ ":" +:+ group).
Proof. apply (extract_user_name "www:adm"). discriminate. Defined.

End GroupsFacts.

(** ** What a passed integrity check guarantees *)

Module IntegrityRulesFacts.
Import Integrity IntegrityFacts.

(** What the rules after the fourth leave when they pass. *)
Lemma check_remaining_Ok (self : Config.ContainerMap) (items : list container_items) :
  check_remaining self items = Ok tt ->
  (forall a, a ∈ flat_map bind items -> is_Some (Config.host self !! a))
  /\ (forall a, a ∈ flat_map bind items \/ a ∈ map snd (flat_map item_attaches items)
                -> is_Some (Config.volumes self !! a))
  /\ (forall l, l ∈ flat_map link items -> l ∈ flat_map instance_names items).
Proof.
  unfold check_remaining. cbv zeta.
  intros (Hb%raise_if_Ok & (Hn%raise_if_Ok & (Hl%raise_if_Ok & _)%bind_Ok_tt)
            %bind_Ok_tt)%bind_Ok_tt.
  rewrite set_diff_nil in Hb, Hn, Hl. unfold pyset, map_keys in *.
  split; [|split].
  - intros a Ha.
    assert (a ∈ remove_dups (map_to_list (Config.host self)).*1) as Hin
      by (by apply Hb, elem_of_remove_dups).
    apply elem_of_remove_dups, list_elem_of_fmap in Hin as ([a' p] & -> & Hin).
    apply elem_of_map_to_list in Hin. by eexists.
  - intros a Ha.
    assert (a ∈ remove_dups (map_to_list (Config.volumes self)).*1) as Hin.
    { apply Hn. unfold attached_names.
      destruct (Config.use_attached_parent_name self);
        rewrite elem_of_remove_dups, elem_of_app, elem_of_remove_dups; exact Ha. }
    apply elem_of_remove_dups, list_elem_of_fmap in Hin as ([a' p] & -> & Hin).
    apply elem_of_map_to_list in Hin. by eexists.
  - intros l Hl'. by apply elem_of_remove_dups, Hl, elem_of_remove_dups.
Qed.

Section Check.

Variable merge_from_obj :
  Config.ContainerConfiguration -> Config.ContainerConfiguration
  -> Config.ContainerConfiguration.
Variable depth : nat.

Local Abbreviation check_integrity := (check_integrity merge_from_obj depth).

(** X15. What a passed check guarantees. When [check_integrity] returns,
    the extended map has a unit, and for every unit on it: each host-bind
    alias is a key of [host] and has a path in [volumes]; each attached
    alias has a path in [volumes]; each link names a unit of the extended
    map without instances or an instance [unit.instance] of one. Moreover
    no group has the name of a unit or of an instance, and every member
    of a group is the name of a unit or of an instance of one (and so not
    a [MapConfigId] tuple). *)
Theorem check_integrity_sound (self : Config.ContainerMap) (check_duplicates : bool) :
  check_integrity self check_duplicates = Ok tt ->
  exists ext_map,
    Config.get_extended_map merge_from_obj depth self = Ok ext_map
    /\ Config.iter_map ext_map <> []
    /\ (forall c_name c, (c_name, c) ∈ Config.iter_map ext_map ->
          (forall b a, b ∈ Config.binds c -> Config.bind_target b = Config.BindAlias a ->
                       is_Some (Config.host self !! a)
                       /\ is_Some (Config.volumes self !! a))
          /\ (forall a, a ∈ Config.attaches c -> is_Some (Config.volumes self !! a))
          /\ (forall l, l ∈ Config.links c ->
                exists c_name' c', (c_name', c') ∈ Config.iter_map ext_map
                  /\ Config.container l
                     ∈ _get_instance_names c_name' (Config.instances c')))
    /\ (forall g members, Config.groups self !! g = Some members ->
          (forall c_name c, (c_name, c) ∈ Config.iter_map ext_map ->
             g ∉ group_ref_names (_get_container_items self c_name c))
          /\ (forall m, m ∈ members ->
                exists name c_name c,
                  m = Config.MemberName name
                  /\ (c_name, c) ∈ Config.iter_map ext_map
                  /\ name ∈ group_ref_names (_get_container_items self c_name c))).
Proof.
  unfold Integrity.check_integrity.
  destruct (Config.get_extended_map merge_from_obj depth self) as [ext_map|e];
    cbn [mbind result_bind]; [|done].
  intros Hrun. exists ext_map. split; [done|].
  destruct (Config.iter_map ext_map) as [|kv0 kvs] eqn:Hiter; [done|].
  split; [done|]. rewrite <- Hiter in *. clear Hiter kv0 kvs.
  set (items := map (fun kv => _get_container_items self kv.1 kv.2)
                  (Config.iter_map ext_map)) in *.
  assert (forall c_name c, (c_name, c) ∈ Config.iter_map ext_map ->
            _get_container_items self c_name c ∈ items) as Hitem.
  { intros c_name c Hin. apply list_elem_of_fmap. by exists (c_name, c). }
  unfold check_items in Hrun.
  apply bind_Ok_tt in Hrun as [Hamb%raise_if_Ok Hrun].
  apply bind_Ok_tt in Hrun as [Hrefs%raise_if_members_Ok Hrun].
  apply bind_Ok_tt in Hrun as [_ Hrun].
  apply bind_Ok_tt in Hrun as [_ Hrun].
  apply check_remaining_Ok in Hrun as (Hb & Hn & Hl).
  split.
  - intros c_name c Hin. pose proof (Hitem _ _ Hin) as Hit.
    assert (forall b a, b ∈ Config.binds c ->
              Config.bind_target b = Config.BindAlias a ->
              a ∈ flat_map bind items) as Hbind.
    { intros b a Hbin Ha. apply elem_of_flat_map.
      exists (_get_container_items self c_name c). split; [done|].
      cbn [bind _get_container_items]. unfold bind_aliases.
      apply list_elem_of_omap. exists b. split; [done|]. by rewrite Ha. }
    split; [|split].
    + intros b a Hbin Ha. split; [apply Hb|apply Hn; left]; by eapply Hbind.
    + intros a Ha. apply Hn. right. apply list_elem_of_fmap.
      exists (c_name, a). split; [done|]. apply elem_of_flat_map.
      exists (_get_container_items self c_name c). split; [done|].
      cbn [item_attaches _get_container_items]. apply list_elem_of_fmap.
      by exists a.
    + intros l Hlin.
      assert (Config.container l ∈ flat_map instance_names items) as Hi.
      { apply Hl, elem_of_flat_map.
        exists (_get_container_items self c_name c). split; [done|].
        cbn [link _get_container_items]. apply list_elem_of_fmap. by exists l. }
      apply elem_of_flat_map in Hi as (it & Hit' & Hi).
      apply list_elem_of_fmap in Hit' as ([c_name' c'] & -> & Hin').
      by exists c_name', c'.
  - intros g members Hg.
    unfold ambiguous_names in Hamb. rewrite set_inter_nil in Hamb.
    unfold ref_set, pyset, map_keys in *. split.
    + intros c_name c Hin Hgin. apply (Hamb g).
      * apply elem_of_remove_dups, list_elem_of_fmap. exists (g, members).
        split; [done|]. by apply elem_of_map_to_list.
      * apply elem_of_remove_dups, elem_of_flat_map.
        exists (_get_container_items self c_name c). split; [by apply Hitem|done].
    + intros m Hm.
      assert (is_missing_ref items m = false) as Hnot.
      { destruct (is_missing_ref items m) eqn:E; [|done]. exfalso.
        assert (m ∈ missing_refs self items) as Hin; [|by rewrite Hrefs in Hin;
                                                        apply elem_of_nil in Hin].
        unfold missing_refs, pyset.
        rewrite list_elem_of_filter, elem_of_remove_dups, elem_of_concat.
        split; [done|]. exists members. split; [done|]. apply list_elem_of_fmap.
        exists (g, members). split; [done|]. by apply elem_of_map_to_list. }
      destruct m as [name|]; [|done]. cbn [is_missing_ref] in Hnot.
      apply bool_decide_eq_false, dec_stable in Hnot.
      unfold ref_set, pyset in Hnot.
      apply elem_of_remove_dups, elem_of_flat_map in Hnot as (it & Hit & Hin).
      apply list_elem_of_fmap in Hit as ([c_name c] & -> & Hin').
      by exists name, c_name, c.
Qed.

(** X16. Switching the duplicate check off only drops the duplicate
    rule: a map that passes with [check_duplicates=True] passes without
    it, and an exception raised with it is raised without it as well,
    unless it is the error about duplicated volumes. *)
Theorem check_integrity_duplicates_flag (self : Config.ContainerMap) :
  (check_integrity self true = Ok tt -> check_integrity self false = Ok tt)
  /\ (forall e, check_integrity self true = Raise e ->
        check_integrity self false = Raise e
        \/ exists names,
             e = MapIntegrityError (duplicate_msg +:+ join ", " names +:+ ".")).
Proof.
  unfold Integrity.check_integrity.
  destruct (Config.get_extended_map merge_from_obj depth self) as [ext_map|e0];
    cbn [mbind result_bind]; [|split; [done|by left]].
  destruct (Config.iter_map ext_map) as [|kv0 kvs]; [split; [done|by left]|].
  generalize (map (fun kv => _get_container_items self kv.1 kv.2) (kv0 :: kvs)).
  intros items. unfold check_items.
  destruct (raise_if (ambiguous_names self items) ambiguous_msg ".") as [[]|e1];
    cbn [mbind result_bind]; [|split; [done|by left]].
  destruct (raise_if_members (missing_refs self items) missing_ref_msg ".")
    as [[]|e2]; cbn [mbind result_bind]; [|split; [done|by left]].
  destruct (duplicated_names (volume_shared self items)) as [|d ds] eqn:Hd;
    cbn [raise_if mbind result_bind].
  - split; [done|by left].
  - split; [done|]. intros e [= <-]. right. by exists (d :: ds).
Qed.

(** X17. A map without a unit that is not abstract, the empty map
    included, cannot be checked: [check_integrity] ends with a
    [ValueError], because the items of no unit cannot be unpacked into the
    eight name lists. *)
Theorem check_integrity_no_units (self : Config.ContainerMap)
  (check_duplicates : bool) :
  (forall c_name c, Config._containers self !! c_name = Some c ->
                    Config.abstract c = true) ->
  exists msg, check_integrity self check_duplicates = Raise (ValueError msg).
Proof.
  intros Habs.
  assert (Config.iter_map self = []) as Hiter.
  { destruct (Config.iter_map self) as [|[c_name c] l] eqn:E; [done|].
    assert ((c_name, c) ∈ Config.iter_map self) as Hin
      by (rewrite E; apply list_elem_of_here).
    apply (ConfigFacts.iter_map_elem merge_from_obj) in Hin as [Hc Ha].
    rewrite (Habs _ _ Hc) in Ha. done. }
  unfold Integrity.check_integrity, Config.get_extended_map, Config.extend_all.
  rewrite Hiter. cbn. by eexists.
Qed.

End Check.

Lemma check_integrity_sound_witness :
  exists ext_map,
    Config.get_extended_map Config.merge_from_obj_spec 5
      (Scenarios.volume_map ["data-vol"] []) = Ok ext_map
    /\ Config.iter_map ext_map <> [].
Proof.
  assert (check_integrity Config.merge_from_obj_spec 5
            (Scenarios.volume_map ["data-vol"] []) true = Ok tt) as Hrun
    by (vm_compute; reflexivity).
  destruct (check_integrity_sound _ _ _ _ Hrun) as (ext_map & H1 & H2 & _).
  exists ext_map. split; assumption.
Defined.

Lemma check_integrity_no_units_witness :
  exists msg,
    check_integrity Config.merge_from_obj_spec 5
      (Scenarios.map_of "m" false [("base", Scenarios.abstract_base)]) true
    = Raise (ValueError msg).
Proof.
  apply (check_integrity_no_units Config.merge_from_obj_spec 5
           (Scenarios.map_of "m" false [("base", Scenarios.abstract_base)]) true).
  intros c_name c Hc. unfold Scenarios.map_of in Hc. simpl in Hc.
  apply lookup_insert_Some in Hc as [[_ <-]|[_ Hc]]; [done|].
  by rewrite lookup_empty in Hc.
Defined.

Lemma check_integrity_duplicates_flag_witness :
  check_integrity Config.merge_from_obj_spec 5
    (Scenarios.volume_map ["data-vol"] []) false = Ok tt.
Proof.
  apply (proj1 (check_integrity_duplicates_flag Config.merge_from_obj_spec 5
                  (Scenarios.volume_map ["data-vol"] []))).
  vm_compute. reflexivity.
Defined.

End IntegrityRulesFacts.

(** ** Dependency edges *)

Module DependencyEdgeFacts.
Import Input Instances Dependency PyFacts DependencyFacts GroupingFacts.

Lemma map_used_elem (self ext_map : Config.ContainerMap)
  (us : list Config.SharedVolume) (xs : list (MapConfigId instance)) :
  map_used self ext_map us = Ok xs ->
  forall x, x ∈ xs -> exists u, u ∈ us /\ used_func self ext_map u = Ok x.
Proof.
  revert xs. induction us as [|u us IH]; intros xs Hrun x Hx; cbn [map_used] in Hrun.
  - injection Hrun as <-. by apply elem_of_nil in Hx.
  - destruct (used_func self ext_map u) as [y|e] eqn:Hu;
      cbn [mbind result_bind] in Hrun; [|done].
    destruct (map_used self ext_map us) as [ys|e] eqn:Hus;
      cbn [mbind result_bind] in Hrun; [|done].
    injection Hrun as <-. apply elem_of_cons in Hx as [->|Hx].
    + exists u. split; [apply list_elem_of_here|done].
    + destruct (IH _ eq_refl _ Hx) as (u' & Hu' & Hf).
      exists u'. split; [by apply list_elem_of_further|done].
Qed.

Lemma used_func_map_name (self ext_map : Config.ContainerMap)
  (u : Config.SharedVolume) (x : MapConfigId instance) :
  used_func self ext_map u = Ok x -> map_name x = Config._name self.
Proof.
  unfold used_func, _get_used_item_ap, _get_used_item_np.
  destruct (partition_dot (Config.volume u)) as [[c sep] i].
  destruct (Config.use_attached_parent_name self).
  - destruct (Config.get_existing ext_map c); [|done].
    case_bool_decide; by intros [= <-].
  - destruct (attached_table ext_map !! c); [case_bool_decide|]; by intros [= <-].
Qed.

(** Every dependency of a unit is an address on the map of the unit. *)
Lemma dep_set_map_name (self ext_map : Config.ContainerMap)
  (config : Config.ContainerConfiguration) (ds : list (MapConfigId instance)) :
  _get_dep_set self ext_map config = Ok ds ->
  forall di, di ∈ ds -> map_name di = Config._name self.
Proof.
  unfold _get_dep_set.
  destruct (map_used self ext_map (Config.uses config)) as [used|e] eqn:Hused;
    cbn [mbind result_bind]; [|done].
  assert (forall di, di ∈ pyset (pyset used
                       ++ pyset (map (_get_linked_item self) (Config.links config)))
                     -> map_name di = Config._name self) as Hd.
  { intros di. unfold pyset. rewrite elem_of_remove_dups, elem_of_app,
      !elem_of_remove_dups. intros [Hin|Hin].
    - destruct (map_used_elem _ _ _ _ Hused _ Hin) as (u & _ & Hu).
      by eapply used_func_map_name.
    - apply list_elem_of_fmap in Hin as (l & -> & _). unfold _get_linked_item.
      destruct (partition_dot (Config.container l)) as [[c sep] i].
      by case_bool_decide. }
  destruct (Config.network config) as [|mode|c i]; intros [= <-]; [exact Hd|exact Hd|].
  intros di. unfold pyset at 1. rewrite elem_of_remove_dups, elem_of_app.
  intros [Hin| ->%list_elem_of_singleton]; [by apply Hd|done].
Qed.

(** Without parent names on attached volumes, collecting the dependencies
    of a unit raises nothing. *)
Lemma dep_set_total (self ext_map : Config.ContainerMap)
  (config : Config.ContainerConfiguration) :
  Config.use_attached_parent_name self = false ->
  exists ds, _get_dep_set self ext_map config = Ok ds.
Proof.
  intros Hnp. unfold _get_dep_set.
  assert (forall us, exists xs, map_used self ext_map us = Ok xs) as Hused.
  { induction us as [|u us [xs IH]]; [by eexists|].
    cbn [map_used]. unfold used_func at 1. rewrite Hnp, IH. by eexists. }
  destruct (Hused (Config.uses config)) as [xs ->]. cbn [mbind result_bind].
  destruct (Config.network config); by eexists.
Qed.

(** What ends [group_instances] on a single map. *)
Lemma group_instances_single_map_raised {single_instances : bool}
  (config_ids : list (MapConfigId (item_ty single_instances)))
  (c_map : Config.ContainerMap) (ext_maps : gmap string Config.ContainerMap)
  (e : exn) :
  raised (group_instances config_ids (Some c_map) ext_maps) = Some e ->
  exists di, di ∈ config_ids
             /\ e = KeyError [map_name di; config_name di]
             /\ Config.get_existing c_map (config_name di) = None.
Proof.
  unfold group_instances.
  replace (no_map_given (Some c_map) ext_maps) with false
    by (unfold no_map_given; by rewrite bool_decide_true).
  intros He.
  match type of He with
  | context [gen_for ?f ?l] =>
      destruct (proj2 (gen_for_raised f l) e He) as ([[mn cn] items] & Hin & Hb)
  end.
  cbn [lookup_map mbind result_bind] in Hb.
  destruct (Config.get_existing c_map cn) eqn:Hc;
    [by destruct (covers_all _ _)|].
  injection Hb as <-.
  assert ((mn, cn) ∈ (groupby get_map_config (sorted get_map_config config_ids)).*1)
    as Hk by (apply list_elem_of_fmap; by exists (mn, cn, items)).
  apply groupby_key_from in Hk as (di & Hdi%sorted_elem & [= <- <-]).
  by exists di.
Qed.

Lemma group_instances_single_map_yielded {single_instances : bool}
  (config_ids : list (MapConfigId (item_ty single_instances)))
  (c_map : Config.ContainerMap) (ext_maps : gmap string Config.ContainerMap)
  (id : MapConfigId (list instance)) :
  id ∈ yielded (group_instances config_ids (Some c_map) ext_maps) ->
  is_Some (Config.get_existing c_map (config_name id)).
Proof.
  unfold group_instances. destruct (no_map_given (Some c_map) ext_maps).
  { by intros ?%elem_of_nil. }
  intros ([[mn cn] items] & ys & _ & Hb & Hy)%gen_for_yielded_from.
  cbn [lookup_map mbind result_bind] in Hb.
  destruct (Config.get_existing c_map cn) eqn:Hc; [|done].
  destruct (covers_all _ _); injection Hb as <-;
    apply list_elem_of_singleton in Hy as ->; cbn [config_name]; by rewrite Hc.
Qed.

Section Items.

Variable merge_from_obj :
  Config.ContainerConfiguration -> Config.ContainerConfiguration
  -> Config.ContainerConfiguration.
Variable depth : nat.

Local Abbreviation dependency_items := (dependency_items merge_from_obj depth).
Local Abbreviation extended_of self :=
  (if Config._extended self then Ok self
   else Config.get_extended_map merge_from_obj depth self).

(** X18. Forward dependencies stay on the map and exist: every pair that
    [dependency_items] yields is keyed by the map and a unit of the
    extended map, and every address in its set carries the name of the
    map and names a unit that is on the extended map. *)
Theorem dependency_items_forward_edges (self ext_map : Config.ContainerMap)
  (k : string * string) (ids : list (MapConfigId (list instance))) :
  extended_of self = Ok ext_map ->
  (k, ids) ∈ yielded (dependency_items self false) ->
  (exists c_name c, k = (Config._name self, c_name)
                    /\ (c_name, c) ∈ Config.iter_map ext_map)
  /\ forall id, id ∈ ids ->
       map_name id = Config._name self
       /\ is_Some (Config.get_existing ext_map (config_name id)).
Proof.
  intros Hext. unfold Dependency.dependency_items. rewrite Hext.
  intros ([c_name c] & ys & Hkv & Hb & Hy)%gen_for_yielded_from.
  unfold forward_item in Hb. cbn [fst snd] in Hb.
  destruct (_get_dep_set self ext_map c) as [ds|e] eqn:Hds;
    cbn [mbind result_bind] in Hb; [|done].
  unfold consume in Hb.
  destruct (raised (group_instances (single_instances := true) ds
                      (Some ext_map) ∅)) eqn:Hr; [done|].
  injection Hb as <-. apply list_elem_of_singleton in Hy. injection Hy as -> ->.
  split; [by exists c_name, c|].
  intros id Hid. unfold pyset in Hid. rewrite elem_of_remove_dups in Hid. split.
  - destruct (group_instances_keys _ _ _ _ Hid) as (di & Hdi & Hkey).
    injection Hkey as Hm _. rewrite <- Hm. by eapply dep_set_map_name.
  - by eapply group_instances_single_map_yielded.
Qed.

(** X19. Reverse mode checks nothing: on a map that does not use parent
    names for attached volumes, [dependency_items(reverse=True)] raises
    nothing once the extended map is there, and yields one entry per unit
    of the extended map, keyed by the wildcard address of the unit,
    whether the units named as dependencies exist or not. *)
Theorem dependency_items_reverse_total (self ext_map : Config.ContainerMap) :
  extended_of self = Ok ext_map ->
  Config.use_attached_parent_name self = false ->
  raised (dependency_items self true) = None
  /\ fst <$> yielded (dependency_items self true)
     = (fun kv => Build_MapConfigId (Config._name self) kv.1 [None])
         <$> Config.iter_map ext_map.
Proof.
  intros Hext Hnp. unfold Dependency.dependency_items. rewrite Hext.
  assert (forall kv, exists deps,
            reverse_item self ext_map kv
            = Ok [(Build_MapConfigId (Config._name self) kv.1 [None], deps)])
    as Hbody.
  { intros kv. unfold reverse_item.
    destruct (dep_set_total self ext_map kv.2 Hnp) as [ds ->]. by eexists. }
  assert (raised (gen_for (reverse_item self ext_map) (Config.iter_map ext_map))
          = None) as Hr.
  { apply gen_for_raised. intros kv _. destruct (Hbody kv) as [deps ->].
    by eexists. }
  split; [exact Hr|].
  apply (gen_for_keys (reverse_item self ext_map)
           (fun kv => Build_MapConfigId (Config._name self) kv.1 [None]) fst);
    [|exact Hr].
  intros kv ys Hys. destruct (Hbody kv) as [deps Hd]. rewrite Hd in Hys.
  by injection Hys as <-.
Qed.

(** X20. The only exception of the forward mode, once the extended map
    is there and parent names are not used, is the [KeyError] of a
    dependency that is not on the extended map; its message names the
    dependency and the unit that depends on it. *)
Theorem dependency_items_forward_error (self ext_map : Config.ContainerMap)
  (e : exn) :
  extended_of self = Ok ext_map ->
  Config.use_attached_parent_name self = false ->
  raised (dependency_items self false) = Some e ->
  exists c_name c dep,
    (c_name, c) ∈ Config.iter_map ext_map
    /\ Config.get_existing ext_map dep = None
    /\ e = KeyError ["Dependency " +:+ Config._name self +:+ "." +:+ dep
                     +:+ " for " +:+ Config._name self +:+ "." +:+ c_name
                     +:+ " not found."].
Proof.
  intros Hext Hnp. unfold Dependency.dependency_items. rewrite Hext. intros He.
  apply gen_for_raised in He as ([c_name c] & Hkv & Hb).
  unfold forward_item in Hb. cbn [fst snd] in Hb.
  destruct (dep_set_total self ext_map c Hnp) as [ds Hds]. rewrite Hds in Hb.
  cbn [mbind result_bind] in Hb. unfold consume in Hb.
  destruct (raised (group_instances (single_instances := true) ds
                      (Some ext_map) ∅)) as [e0|] eqn:Hr; [|done].
  injection Hb as <-.
  apply group_instances_single_map_raised in Hr as (di & Hdi & -> & Hnone).
  pose proof (dep_set_map_name _ _ _ _ Hds _ Hdi) as Hm.
  destruct di as [m dep i]. cbn [map_name config_name] in *. subst m.
  by exists c_name, c, dep.
Qed.

End Items.

Lemma dependency_items_forward_edges_witness :
  (exists c_name c, ("m", "web") = (Config._name Scenarios.uses_map, c_name)
                    /\ (c_name, c) ∈ Config.iter_map Scenarios.uses_map)
  /\ forall id, id ∈ [Build_MapConfigId "m" "data" [@None string]] ->
       map_name id = Config._name Scenarios.uses_map
       /\ is_Some (Config.get_existing Scenarios.uses_map (config_name id)).
Proof.
  apply (dependency_items_forward_edges Config.merge_from_obj_spec 5
           Scenarios.uses_map Scenarios.uses_map ("m", "web")
           [Build_MapConfigId "m" "data" [@None string]] eq_refl).
  vm_compute. apply list_elem_of_here.
Defined.

Lemma dependency_items_reverse_total_witness :
  raised (dependency_items Config.merge_from_obj_spec 5 Scenarios.uses_map true)
  = None.
Proof.
  exact (proj1 (dependency_items_reverse_total Config.merge_from_obj_spec 5
                  Scenarios.uses_map Scenarios.uses_map eq_refl eq_refl)).
Defined.

Lemma dependency_items_forward_error_witness :
  exists c_name c dep,
    (c_name, c) ∈ Config.iter_map (Scenarios.volume_map [] [])
    /\ Config.get_existing (Scenarios.volume_map [] []) dep = None
    /\ KeyError ["Dependency m.data-vol for m.web not found."]
       = KeyError ["Dependency " +:+ "m" +:+ "." +:+ dep
                   +:+ " for " +:+ "m" +:+ "." +:+ c_name +:+ " not found."].
Proof.
  apply (dependency_items_forward_error Config.merge_from_obj_spec 5
           (Scenarios.volume_map [] []) (Scenarios.volume_map [] [])
           (KeyError ["Dependency m.data-vol for m.web not found."])
           eq_refl eq_refl).
  vm_compute. reflexivity.
Defined.

End DependencyEdgeFacts.

(** ** Clients and state generators *)

Module GeneratorFacts.
Import State StateGenerators Groups.

Lemma map_result_Ok {A B : Type} (f : A -> result B) (l : list A) (ys : list B) :
  map_result f l = Ok ys <-> Forall2 (fun x y => f x = Ok y) l ys.
Proof.
  revert ys. induction l as [|x l IH]; intros ys; cbn [map_result].
  - split; [intros [= <-]; constructor|by intros ->%Forall2_nil_inv_l].
  - destruct (f x) as [y|e] eqn:Hx; cbn [mbind result_bind].
    + destruct (map_result f l) as [ys'|e] eqn:Hl; cbn [mbind result_bind].
      * split.
        -- intros [= <-]. constructor; [done|by apply IH].
        -- intros (y' & ys'' & Hy & Hys & ->)%Forall2_cons_inv_l.
           apply IH in Hys. congruence.
      * split; [done|].
        intros (y' & ys'' & Hy & Hys & ->)%Forall2_cons_inv_l.
        by apply IH in Hys.
    + split; [done|]. intros (y' & ys'' & Hy & _)%Forall2_cons_inv_l. congruence.
Qed.

Lemma map_result_Raise {A B : Type} (f : A -> result B) (l : list A) (e : exn) :
  map_result f l = Raise e -> exists x, x ∈ l /\ f x = Raise e.
Proof.
  induction l as [|x l IH]; cbn [map_result]; [done|].
  destruct (f x) as [y|e'] eqn:Hx; cbn [mbind result_bind].
  - destruct (map_result f l) as [ys'|e'']; cbn [mbind result_bind]; [done|].
    intros [= ->]. destruct (IH eq_refl) as (x' & Hin & Hf).
    exists x'. split; [by apply list_elem_of_further|done].
  - intros [= ->]. exists x. split; [apply list_elem_of_here|done].
Qed.

(** X21. Which clients [get_clients] returns: those named by its first
    argument when it names any, else those named by its second argument
    when it names any, else the default client. The result has one triple
    of name, client and configuration per name, in the order of the
    names, and is never empty; the only exception is the [KeyError] of a
    name that the policy has no client for. *)
Theorem get_clients_precedence {A B : Type} `{HasClients A} `{HasClients B}
  (self : BasePolicy) (c_config : A) (c_map : B) :
  let names :=
    if bool_decide (clients_of c_config ≠ []) then clients_of c_config
    else if bool_decide (clients_of c_map ≠ []) then clients_of c_map
    else [get_default_client_name] in
  names <> []
  /\ (forall ts,
        get_clients self c_config c_map = Ok ts
        <-> Forall2 (fun name t =>
                       exists client_config,
                         _clients self !! name = Some client_config
                         /\ t = [ClientName name;
                                 ClientHandle (get_client client_config);
                                 ClientConfig client_config])
              names ts)
  /\ (forall e,
        get_clients self c_config c_map = Raise e ->
        exists name, name ∈ names /\ _clients self !! name = None
                     /\ e = KeyError [name]).
Proof.
  intros names.
  assert (forall name t,
            _get_client self name = Ok t
            <-> exists client_config,
                  _clients self !! name = Some client_config
                  /\ t = [ClientName name; ClientHandle (get_client client_config);
                          ClientConfig client_config]) as Hone.
  { intros name t. unfold _get_client.
    destruct (_clients self !! name) as [cfg|].
    - split; [intros [= <-]; by exists cfg|]. by intros (cfg' & [= <-] & ->).
    - split; [done|]. by intros (? & ? & _). }
  assert (forall name e, _get_client self name = Raise e ->
            _clients self !! name = None /\ e = KeyError [name]) as Herr.
  { intros name e. unfold _get_client.
    destruct (_clients self !! name); [done|]. by intros [= <-]. }
  assert (get_clients self c_config c_map = map_result (_get_client self) names)
    as ->.
  { unfold get_clients, names. do 2 (case_bool_decide; [done|]).
    cbn [map_result]. destruct (_get_client self get_default_client_name); done. }
  split; [|split].
  - unfold names. case_bool_decide; [done|]. by case_bool_decide.
  - intros ts. rewrite map_result_Ok. split; intros Hall;
      (eapply Forall2_impl; [exact Hall|]); intros name t Ht; by apply Hone.
  - intros e (name & Hin & Hf)%map_result_Raise. exists name.
    destruct (Herr _ _ Hf). done.
Qed.

Section Generators.
Context {K : Constants}.

(** X22. No state is ever reported: whatever the policy, the options and
    the address, [generate_config_states] yields nothing and ends with an
    exception, and so do the generators built on it,
    [SingleStateGenerator.get_states] for a batch that is not empty and
    [_get_all_states] for every address and dependency path. Each triple
    that [get_clients] returns is unpacked into two names, and for a
    network [get_clients] is called without its second argument. *)
Theorem generate_config_states_never_yields (policy : BasePolicy) (opts : options) :
  (forall config_type map_name config_name instance_name is_dependency,
     yielded (generate_config_states policy opts config_type map_name config_name
                instance_name is_dependency) = []
     /\ is_Some (raised (generate_config_states policy opts config_type map_name
                           config_name instance_name is_dependency)))
  /\ (forall config_ids,
        yielded (get_states policy opts config_ids) = []
        /\ (raised (get_states policy opts config_ids) = None <-> config_ids = []))
  /\ (forall config_id dependency_path,
        yielded (_get_all_states policy opts config_id dependency_path) = []
        /\ is_Some (raised (_get_all_states policy opts config_id dependency_path))).
Proof.
  assert (forall config_type map_name config_name instance_name is_dependency,
     yielded (generate_config_states policy opts config_type map_name config_name
                instance_name is_dependency) = []
     /\ is_Some (raised (generate_config_states policy opts config_type map_name
                           config_name instance_name is_dependency))) as Hone.
  { intros config_type map_name config_name instance_name is_dependency.
    unfold generate_config_states.
    destruct (container_maps policy !! map_name) as [c_map|]; [|by split].
    assert (forall config flags,
              let g := match selected_clients policy c_map config with
                       | Raise e => Gen [] (Some e)
                       | Ok clients =>
                           gen_for (config_state policy opts c_map config_type
                                      map_name config_name instance_name flags)
                                   clients
                       end in
              yielded g = [] /\ is_Some (raised g)) as Hloop.
    { intros config flags. unfold selected_clients.
      destruct (get_clients_precedence policy c_map config) as (Hne & Hok & _).
      destruct (get_clients policy c_map config) as [ts|e]; [|by split].
      pose proof (proj1 (Hok ts) eq_refl) as Hall.
      destruct Hall as [|name t names ts' (cfg & _ & ->) _]; [done|].
      cbn. by split. }
    destruct config_type as [| | |other]; [| | |by split].
    - destruct (Config.get_existing c_map config_name); [apply Hloop|by split].
    - destruct (Config.get_existing c_map config_name); [apply Hloop|by split].
    - destruct (Config._networks c_map !! config_name); by split. }
  assert (forall (f : address -> gen ConfigState) (l : list address),
            (forall x, yielded (f x) = [] /\ is_Some (raised (f x))) ->
            yielded (gen_chain f l) = []
            /\ (raised (gen_chain f l) = None <-> l = [])) as Hchain.
  { intros f l Hf. destruct l as [|x l]; [done|]. cbn [gen_chain].
    destruct (Hf x) as [Hy [e He]]. rewrite He. cbn. rewrite Hy. done. }
  split; [exact Hone|]. split.
  - intros config_ids. unfold get_states. apply Hchain.
    intros [[[ty m] c] i]. apply Hone.
  - intros [[[ty m] c] i] dependency_path. unfold _get_all_states.
    match goal with
    | |- context [gen_chain ?f ?l] => destruct (Hchain f l) as [Hy Hr]
    end.
    { intros [[[ty' m'] c'] i']. apply Hone. }
    match goal with
    | |- context [gen_chain ?f ?l] => destruct (raised (gen_chain f l)) eqn:Hd
    end.
    + rewrite Hy, Hd. by split.
    + rewrite Hy. cbn. apply Hone.
Qed.

(** X23. A container is reported absent exactly when its name is not
    among the names of the containers of the client: for a configuration
    that is not flagged as attached, the base state that [get_state]
    computes from what [inspect] found is [STATE_ABSENT] if and only if
    the name [cname] gives to the address is not in
    [policy.container_names] of the client. *)
Theorem container_absent_iff (policy : BasePolicy) (opts : options)
  (c_map : Config.ContainerMap) (client_name : string) (client : nat)
  (map_name config_name : string) (instance_name : option string) (c_flags : Z) :
  Z.land c_flags CONTAINER_CONFIG_FLAG_ATTACHED = 0%Z ->
  (get_state
     {| state_options := opts; State.map_name := map_name;
        State.config_name := config_name; State.instance_name := instance_name;
        config_flags := c_flags;
        state_detail := inspect policy c_map client_name client map_name
                          config_name instance_name c_flags |}).1 = STATE_ABSENT
  <-> cname map_name config_name instance_name ∉ container_names policy client_name.
Proof.
  intros Hflag. unfold inspect, get_state. cbn [state_detail].
  rewrite (bool_decide_false (Z.land c_flags CONTAINER_CONFIG_FLAG_ATTACHED ≠ 0%Z))
    by (intros Hn; by apply Hn).
  case_bool_decide as Hin.
  - split; [|done]. cbn [state_options force_update].
    destruct (Running _); [by destruct (_ && _)|].
    by destruct (Restarting _), (_ && _).
  - done.
Qed.

End Generators.

Lemma container_absent_iff_witness :
  (get_state (K := spec_constants)
     {| state_options := default_options; State.map_name := "m";
        State.config_name := "web"; State.instance_name := None;
        config_flags := 0%Z;
        state_detail := inspect (K := spec_constants) Scenarios.clients_policy
                          Scenarios.clients_map "c1" 2 "m" "web" None 0%Z |}).1
  = STATE_ABSENT
  <-> cname "m" "web" None ∉ container_names Scenarios.clients_policy "c1".
Proof.
  apply (container_absent_iff (K := spec_constants) Scenarios.clients_policy
           default_options Scenarios.clients_map "c1" 2 "m" "web" None 0%Z).
  reflexivity.
Defined.

Lemma get_clients_precedence_witness :
  Forall2 (fun name t =>
             exists client_config,
               _clients Scenarios.clients_policy !! name = Some client_config
               /\ t = [ClientName name; ClientHandle (get_client client_config);
                       ClientConfig client_config])
    ["c1"]
    [[ClientName "c1"; ClientHandle 2; ClientConfig {| get_client := 2 |}]].
Proof.
  exact (proj1 (proj1 (proj2 (get_clients_precedence Scenarios.clients_policy
                                Scenarios.web_with_client Scenarios.clients_map))
                  [[ClientName "c1"; ClientHandle 2;
                    ClientConfig {| get_client := 2 |}]])
           eq_refl).
Defined.

End GeneratorFacts.

(** ** Updates that change nothing, and the keyword arguments of the runner *)

Module RunnerFacts.
Import Kwargs KwargsFacts Runner.

(** The keys of every dict of the store. *)
Lemma fresh_key (h : heap) :
  exists k : string, forall l es v, h !! l = Some (ODict es) -> (k, v) ∉ es.
Proof.
  set (keys := flat_map (fun o => match o with
                                  | ODict es => es.*1
                                  | _ => []
                                  end) h).
  exists (fresh keys). intros l es v Hl Hin. apply (infinite_is_fresh keys).
  apply IntegrityFacts.elem_of_flat_map. exists (ODict es).
  split; [by eapply list_elem_of_lookup_2|].
  apply list_elem_of_fmap. exists (fresh keys, v). split; [reflexivity|exact Hin].
Qed.



Lemma update_items_all_falsy (kw d : loc) (es : list (string * val)) (h : heap) :
  h !! d = Some (ODict es) ->
  (forall key v, (key, v) ∈ es -> falsy h v = true) ->
  forall n i, update_items kw d (length es) i n h = (h, None).
Proof.
  intros Hd Hall. induction n as [|n IH]; intros i; cbn [update_items]; rewrite Hd;
    rewrite bool_decide_false by (intros Hn; by apply Hn); [done|].
  destruct (es !! i) as [[key v]|] eqn:Hi; [|done].
  unfold update_item. rewrite (Hall key v) by (by eapply list_elem_of_lookup_2).
  apply IH.
Qed.

(** X25. Updates that hold nothing truthy change nothing: when every
    update is falsy or is a dict all of whose values are falsy,
    [update_kwargs] returns without an exception and leaves the whole
    store as it was; [kwargs] is not even looked at, so this holds
    whatever [kwargs] is. *)
Theorem update_kwargs_all_falsy (h : heap) (kw : loc) (updates : list val) :
  (forall u, u ∈ updates ->
     falsy h u = true
     \/ exists d es, u = VRef d /\ h !! d = Some (ODict es)
                     /\ forall key v, (key, v) ∈ es -> falsy h v = true) ->
  update_kwargs h kw updates = (h, None).
Proof.
  induction updates as [|u updates IH]; intros Hall; [done|].
  cbn [update_kwargs].
  assert (update_kwargs h kw updates = (h, None)) as Hrest.
  { apply IH. intros u' Hu'. apply Hall. by apply list_elem_of_further. }
  destruct (falsy h u) eqn:Hu; [exact Hrest|].
  destruct (Hall u (list_elem_of_here _ _)) as [Hf|(d & es & -> & Hd & Hes)];
    [congruence|].
  rewrite Hd, (update_items_all_falsy kw d es h Hd Hes). exact Hrest.
Qed.

Lemma update_kwargs_all_falsy_witness :
  update_kwargs Scenarios.nested_heap 0 [VNone; VRef 3; VRef 4]
  = (Scenarios.nested_heap, None).
Proof.
  apply update_kwargs_all_falsy. intros u Hu.
  repeat (apply elem_of_cons in Hu as [->|Hu]).
  - by left.
  - right. exists 3, [("a", VNone)]. do 2 (split; [done|]).
    by intros key v [= -> ->]%list_elem_of_singleton.
  - right. exists 4, [("DEBUG", VStr "")]. do 2 (split; [done|]).
    by intros key v [= -> ->]%list_elem_of_singleton.
  - by apply elem_of_nil in Hu.
Defined.

Lemma falsy_alloc (h : heap) (o : obj) (v : val) :
  falsy h v = true -> falsy (h ++ [o]) v = true /\ v <> VRef (length h).
Proof.
  destruct v as [| | | |l]; try done. cbn [falsy].
  destruct (h !! l) as [o'|] eqn:Hl; [|done]. intros He. split.
  - by rewrite (lookup_app_l_Some _ _ _ _ Hl).
  - intros [= ->]. apply lookup_lt_Some in Hl. lia.
Qed.

(** A key that the keyword arguments of the caller bind to nothing truthy
    keeps the value the builder gave it. *)
Lemma build_kwargs_falsy_keeps (h : heap) (entries : list (string * val))
  (kwargs : val) (key : string) :
  (forall k l, (k, VRef l) ∉ entries) ->
  (forall d, kwargs = VRef d -> is_Some (h !! d)) ->
  (forall d es v, kwargs = VRef d -> h !! d = Some (ODict es) -> (key, v) ∈ es ->
                  falsy h v = true) ->
  lookup_key (build_kwargs h entries kwargs).1.1 (build_kwargs h entries kwargs).1.2
    key
  = entries_get key entries.
Proof.
  intros Hscalar Hvalid Hfalsy. unfold build_kwargs, alloc.
  destruct (update_kwargs (h ++ [ODict entries]) (length h) [kwargs]) as [h2 e] eqn:Hrun.
  cbn [fst snd].
  assert ((h ++ [ODict entries]) !! length h = Some (ODict entries)) as Hkw
    by apply list_lookup_middle, eq_refl.
  assert (separate (h ++ [ODict entries]) (length h) [kwargs]) as Hsep.
  { split.
    - by eexists.
    - intros d Hu%list_elem_of_singleton. destruct (Hvalid d (eq_sym Hu)) as [o Ho].
      exists o. by apply lookup_app_l_Some.
    - intros <-%list_elem_of_singleton. destruct (Hvalid _ eq_refl) as [o Ho].
      apply lookup_lt_Some in Ho. lia.
    - intros es k l Hes Hin. rewrite Hkw in Hes. injection Hes as <-.
      by destruct (Hscalar k l). }
  assert (only_falsy (h ++ [ODict entries]) (length h) [kwargs] key) as Honly.
  { intros d es v Hu%list_elem_of_singleton Hes Hin.
    destruct (Hvalid d (eq_sym Hu)) as [o Ho].
    rewrite (lookup_app_l_Some _ _ _ _ Ho) in Hes. injection Hes as ->.
    apply falsy_alloc. by eapply (Hfalsy d es v (eq_sym Hu)). }
  pose proof (update_kwargs_falsy_unchanged _ _ _ _ Hsep Honly) as Hsame.
  rewrite Hrun in Hsame. cbn [fst] in Hsame. rewrite Hsame.
  unfold lookup_key. by rewrite Hkw.
Qed.

Lemma with_timeout_scalar (t : option val) (name : string) (k : string) (l : loc) :
  (forall l', t <> Some (VRef l')) ->
  (k, VRef l) ∉ with_timeout t [("container", VStr name)].
Proof.
  intros Ht. destruct t as [v|]; cbn.
  - intros [[=]|[[= _ <-]|[]%elem_of_nil]%elem_of_cons]%elem_of_cons.
    by apply (Ht l).
  - by intros [[=]|[]%elem_of_nil]%elem_of_cons.
Qed.

Lemma configured_timeout_scalar (config : ActionConfig) (l : loc) :
  configured_timeout config <> Some (VRef l).
Proof.
  unfold configured_timeout.
  destruct (stop_timeout config) as [[t|]|]; [done|done|].
  by destruct (client_stop_timeout config).
Qed.

Lemma stop_kwargs_timeout (h : heap) (config : ActionConfig)
  (container_name : string) (kwargs : val) :
  (forall d, kwargs = VRef d -> is_Some (h !! d)) ->
  (forall d es v, kwargs = VRef d -> h !! d = Some (ODict es) ->
                  ("timeout", v) ∈ es -> falsy h v = true) ->
  lookup_key (get_stop_kwargs h config container_name kwargs).1.1
    (get_stop_kwargs h config container_name kwargs).1.2 "timeout"
  = configured_timeout config.
Proof.
  intros Hvalid Hfalsy. unfold get_stop_kwargs.
  rewrite (build_kwargs_falsy_keeps h _ kwargs "timeout"); try assumption.
  - by destruct (configured_timeout config).
  - intros k l. apply with_timeout_scalar. intros l'.
    apply configured_timeout_scalar.
Qed.

(** X26. A falsy value cannot replace a configured one: when the
    keyword arguments given to [get_stop_kwargs] (or [get_restart_kwargs])
    bind [timeout] to nothing truthy, an explicit [0] included, the
    returned dict binds [timeout] to the stop timeout of the container
    configuration, or of the client configuration when that is not set,
    and has no [timeout] when neither is set. In the same way
    [get_wait_kwargs] keeps the wait timeout of the client configuration,
    [get_remove_kwargs] adds no [timeout], and all three keep the
    container name under [container] when the keyword arguments bind
    [container] to nothing truthy. *)
Theorem runner_kwargs_falsy_override (h : heap) (config : ActionConfig)
  (container_name : string) (kwargs : val) (key : string) :
  (forall d, kwargs = VRef d -> is_Some (h !! d)) ->
  (forall d es v, kwargs = VRef d -> h !! d = Some (ODict es) -> (key, v) ∈ es ->
                  falsy h v = true) ->
  key = "timeout" \/ key = "container" ->
  lookup_key (get_stop_kwargs h config container_name kwargs).1.1
    (get_stop_kwargs h config container_name kwargs).1.2 key
  = (if bool_decide (key = "timeout") then configured_timeout config
     else Some (VStr container_name))
  /\ lookup_key (get_wait_kwargs h config container_name kwargs).1.1
       (get_wait_kwargs h config container_name kwargs).1.2 key
     = (if bool_decide (key = "timeout") then VInt <$> client_wait_timeout config
        else Some (VStr container_name))
  /\ lookup_key (get_remove_kwargs h config container_name kwargs).1.1
       (get_remove_kwargs h config container_name kwargs).1.2 key
     = (if bool_decide (key = "timeout") then None
        else Some (VStr container_name)).
Proof.
  intros Hvalid Hfalsy Hkey.
  unfold get_stop_kwargs, get_wait_kwargs, get_remove_kwargs.
  rewrite !(build_kwargs_falsy_keeps h _ kwargs key); try assumption.
  2-4: intros k l;
    first [ by intros [[=]|[]%elem_of_nil]%elem_of_cons
          | apply with_timeout_scalar; intros l';
            first [ apply configured_timeout_scalar
                  | by destruct (client_wait_timeout config) ] ].
  split; [|split].
  - destruct (configured_timeout config) as [t|]; destruct Hkey as [-> | ->]; done.
  - destruct (client_wait_timeout config) as [t|]; destruct Hkey as [-> | ->]; done.
  - destruct Hkey as [-> | ->]; done.
Qed.

Lemma runner_kwargs_falsy_override_witness :
  lookup_key
    (get_stop_kwargs [ODict [("timeout", VInt 0)]]
       {| stop_timeout := Some (Some 30%Z); stop_signal := VNone;
          client_stop_timeout := None; client_wait_timeout := None |}
       "m.web" (VRef 0)).1.1
    (get_stop_kwargs [ODict [("timeout", VInt 0)]]
       {| stop_timeout := Some (Some 30%Z); stop_signal := VNone;
          client_stop_timeout := None; client_wait_timeout := None |}
       "m.web" (VRef 0)).1.2 "timeout"
  = Some (VInt 30).
Proof.
  apply (runner_kwargs_falsy_override [ODict [("timeout", VInt 0)]]
           {| stop_timeout := Some (Some 30%Z); stop_signal := VNone;
              client_stop_timeout := None; client_wait_timeout := None |}
           "m.web" (VRef 0) "timeout").
  - intros d [= <-]. by eexists.
  - intros d es v [= <-] [= <-] [= ->]%list_elem_of_singleton. reflexivity.
  - by left.
Defined.

(** X27. Stopping with a custom signal: when the stop signal of the
    container configuration is neither falsy nor [SIGTERM], by name or by
    number, and the keyword arguments bind [timeout] to nothing truthy,
    [signal_stop] never calls [stop]; if building the keyword arguments
    raises, it calls nothing, and otherwise it sends the signal with
    [kill] and then waits with the configured stop timeout, or with 10
    when none is configured. *)
Theorem signal_stop_custom_signal (h : heap) (config : ActionConfig)
  (c_name : string) (kwargs : loc) (es : list (string * val)) :
  h !! kwargs = Some (ODict es) ->
  (forall v, ("timeout", v) ∈ es -> falsy h v = true) ->
  (forall l, stop_signal config <> VRef l) ->
  falsy h (stop_signal config) = false ->
  stop_signal config <> VStr "SIGTERM" -> stop_signal config <> VInt 15 ->
  let '(_, calls, e) := signal_stop h config c_name kwargs in
  (is_Some e -> calls = [])
  /\ (e = None ->
      calls = [Kill c_name (stop_signal config);
               Wait c_name (default (VInt 10) (configured_timeout config))]).
Proof.
  intros Hd Hfalsy Hscalar Hsig Hterm Hnum. unfold signal_stop.
  pose proof (stop_kwargs_timeout h config c_name (VRef kwargs)) as Hkey.
  destruct (get_stop_kwargs h config c_name (VRef kwargs)) as [[h' stop_kwargs] e].
  cbn [fst snd] in Hkey.
  destruct e as [e|]; [split; [done|by intros [=]]|].
  assert (default_signal h' (stop_signal config) = false) as ->.
  { unfold default_signal. rewrite !bool_decide_false by done.
    revert Hsig Hscalar.
    destruct (stop_signal config) as [|b|n|s|l]; cbn [falsy];
      [by intros -> _|by intros -> _|by intros -> _|by intros -> _|].
    intros _ Hs. by destruct (Hs l). }
  split; [by intros [? [=]]|]. intros _. rewrite Hkey; [done| |].
  - intros d [= <-]. by eexists.
  - intros d es' v [= <-] Hes' Hin. rewrite Hd in Hes'. injection Hes' as <-.
    by apply Hfalsy.
Qed.

Lemma signal_stop_custom_signal_witness :
  let '(_, calls, e) :=
    signal_stop [ODict []]
      {| stop_timeout := None; stop_signal := VStr "SIGINT";
         client_stop_timeout := None; client_wait_timeout := None |}
      "m.web" 0 in
  (is_Some e -> calls = [])
  /\ (e = None -> calls = [Kill "m.web" (VStr "SIGINT"); Wait "m.web" (VInt 10)]).
Proof.
  apply (signal_stop_custom_signal [ODict []]
           {| stop_timeout := None; stop_signal := VStr "SIGINT";
              client_stop_timeout := None; client_wait_timeout := None |}
           "m.web" 0 []); try done.
  by intros v ?%elem_of_nil.
Defined.

End RunnerFacts.

(** ** Counting instead of comparing, and names that coincide *)

Module OverlapFacts.
Import Input Instances State Names InstancesFacts NamesFacts.

(** X28. The wildcard test counts the requested tuples and does not
    compare them: a batch that addresses one unit with as many tuples as
    the unit declares instances is grouped to the wildcard and expanded to
    every declared instance, whatever the tuples name, repeated and
    undeclared instances included; a batch with another number of tuples
    and no wildcard comes back as it is, whether its instances are
    declared or not. *)
Theorem group_then_expand_counts (m : Config.ContainerMap)
  (map_name config_name : string) (config : Config.ContainerConfiguration)
  (ids : list (MapConfigId (option string))) :
  Config.get_existing m config_name = Some config ->
  Config.instances config <> [] ->
  Forall (fun di => get_map_config di = (map_name, config_name)) ids ->
  (length ids = length (Config.instances config) ->
   group_then_expand ids (Some m) ∅
   = Ok (map (fun d => Build_MapConfigId map_name config_name (Some d))
           (Config.instances config)))
  /\ (ids <> [] -> length ids <> length (Config.instances config) ->
      None ∉ map instances ids ->
      group_then_expand ids (Some m) ∅ = Ok ids).
Proof.
  intros Hconfig Hdecl Hall. split.
  - intros Hlen.
    assert (ids <> []) as Hne.
    { intros ->. destruct (Config.instances config); [done|discriminate]. }
    rewrite (group_then_expand_one_unit m map_name config_name config ids
               Hconfig Hdecl Hne Hall).
    unfold covers_all. rewrite bool_decide_true by done.
    rewrite (bool_decide_true (length _ = _)) by (by rewrite length_map).
    by rewrite orb_true_r.
  - intros Hne Hlen Hwild.
    rewrite (group_then_expand_one_unit m map_name config_name config ids
               Hconfig Hdecl Hne Hall).
    unfold covers_all. rewrite (bool_decide_false (None ∈ _)) by done.
    rewrite (bool_decide_false (length _ = _)) by (by rewrite length_map).
    by rewrite andb_false_r.
Qed.

Lemma group_then_expand_counts_witness :
  group_then_expand [Scenarios.app (Some "1"); Scenarios.app (Some "1")]
    (Some Scenarios.app_map) ∅
  = Ok [Scenarios.app (Some "1"); Scenarios.app (Some "2")].
Proof.
  apply (group_then_expand_counts Scenarios.app_map "m" "app"
           (Scenarios.unit_with ["1"; "2"])
           [Scenarios.app (Some "1"); Scenarios.app (Some "1")]);
    [reflexivity|discriminate|by repeat constructor|reflexivity].
Defined.

(** X29. Attached volumes and instances share their names: with the name
    of the parent, an attached volume gets the container name of the
    instance of the parent that is called like the volume, and without
    it the container name of the unit that is called like the volume; so
    [resolve_cname] reads the name of an attached volume as a unit and an
    instance. *)
Theorem aname_cname_overlap (map_name attached_name parent_name : string) :
  aname map_name attached_name None = cname map_name attached_name None
  /\ (attached_name <> "" -> parent_name <> "" ->
      aname map_name attached_name (Some parent_name)
      = cname map_name parent_name (Some attached_name))
  /\ (attached_name <> "" -> parent_name <> "" ->
      has_char "." map_name = false -> has_char "." parent_name = false ->
      resolve_cname (aname map_name attached_name (Some parent_name)) true
      = Ok (Some map_name, parent_name, Some attached_name)).
Proof.
  assert (attached_name <> "" -> parent_name <> "" ->
          aname map_name attached_name (Some parent_name)
          = cname map_name parent_name (Some attached_name)) as Hsame.
  { intros Ha Hp. unfold aname, cname. by rewrite !bool_decide_false. }
  split; [done|]. split; [exact Hsame|].
  intros Ha Hp Hm Hpd. rewrite (Hsame Ha Hp). unfold cname, resolve_cname, dotted.
  rewrite bool_decide_false by done.
  rewrite (partition_dot_app _ _ Hm).
  rewrite bool_decide_false by (by apply app_nonempty).
  rewrite (partition_dot_app _ _ Hpd). unfold or_None.
  by rewrite bool_decide_false.
Qed.

(** X30. The filter of [_get_nested_instances] removes nothing: the set
    it tests against is only added to when an item is already in it, so it
    stays empty, and the result lists the instances of every tuple, in
    order and with every repetition, an empty tuple counting as the
    wildcard. *)
Theorem nested_instances_keeps_all (group_items : list (MapConfigId (list instance))) :
  _get_nested_instances group_items
  = flat_map (fun di => or_wildcard (instances di)) group_items
  /\ length (_get_nested_instances group_items)
     = sum_list (map (fun di => length (or_wildcard (instances di))) group_items).
Proof.
  unfold _get_nested_instances. rewrite nested_filter_nil. split; [done|].
  induction group_items as [|di l IH]; [done|].
  cbn [flat_map map sum_list sum_list_with]. by rewrite length_app, IH.
Qed.

Lemma aname_cname_overlap_witness :
  aname "m" "data" (Some "web") = cname "m" "web" (Some "data").
Proof.
  apply (proj1 (proj2 (aname_cname_overlap "m" "data" "web"))); discriminate.
Defined.

End OverlapFacts.
